(** * recipe-app-api: the recipe serializers and the core models

    A shallow embedding of [app/core/models.py] and
    [app/recipe/serializers.py], and the properties of the bilingual recipe
    catalogue that follow from them.

    - Python [str] is [string]; [int] is [Z]; [None]-able values are [option].
    - A database table is a finite map from primary key to row; a
      many-to-many relation is a finite set of (recipe, entity) pairs.
    - Code that queries or writes the database runs in the monad [M]: the
      store is threaded through, and an exception stops the computation
      while the writes made so far stay in the store (Django's autocommit:
      neither [create] nor [update] opens a transaction). *)

From Stdlib Require Import ZArith Ascii String.
From stdpp Require Import gmap strings list fin_maps fin_sets.

Local Open Scope Z_scope.

(** ** Part I. File paths: [os.path.splitext], [os.path.join], [uuid.uuid4] *)

Module Paths.

(** [p[i:]] and [p[:i]] for an index [0 <= i]. *)
Fixpoint drop_str (n : nat) (p : string) : string :=
  match n, p with
  | O, _ => p
  | S n', EmptyString => EmptyString
  | S n', String _ p' => drop_str n' p'
  end.

Fixpoint take_str (n : nat) (p : string) : string :=
  match n, p with
  | O, _ => EmptyString
  | S n', EmptyString => EmptyString
  | S n', String c p' => String c (take_str n' p')
  end.

Definition slice_from (p : string) (i : Z) : string := drop_str (Z.to_nat i) p.
Definition slice_to (p : string) (i : Z) : string := take_str (Z.to_nat i) p.

(** [p[i:i+1]]: the one-character string at [i], empty past the end. *)
Definition char_at (p : string) (i : Z) : string :=
  take_str 1 (drop_str (Z.to_nat i) p).

(** [p.rfind(c)]: the highest index holding [c], or [-1]. *)
Fixpoint rfind_from (c : ascii) (p : string) (i : Z) (found : Z) : Z :=
  match p with
  | EmptyString => found
  | String a p' => rfind_from c p' (i + 1) (if Ascii.eqb a c then i else found)
  end.

Definition rfind (c : ascii) (p : string) : Z := rfind_from c p 0 (-1).

Definition sep : ascii := "/"%char.
Definition extsep : ascii := "."%char.

(** The [while filenameIndex < dotIndex] loop of [genericpath._splitext]:
    [true] when it meets a character other than [extsep] (the loop's
    [return p[:dotIndex], p[dotIndex:]]), [false] when it runs out.  The
    loop makes exactly [dotIndex - filenameIndex] steps at most, which is
    the third argument. *)
Fixpoint skip_leading_dots (p : string) (filenameIndex : Z) (steps : nat) : bool :=
  match steps with
  | O => false
  | S steps' =>
      if negb (String.eqb (char_at p filenameIndex) (String extsep EmptyString))
      then true
      else skip_leading_dots p (filenameIndex + 1) steps'
  end.

(** [os.path.splitext(p)] on POSIX ([sep = '/'], no [altsep]). *)
Definition splitext (p : string) : string * string :=
  let sepIndex := rfind sep p in
  let dotIndex := rfind extsep p in
  if (sepIndex <? dotIndex) &&
     skip_leading_dots p (sepIndex + 1) (Z.to_nat (dotIndex - (sepIndex + 1)))
  then (slice_to p dotIndex, slice_from p dotIndex)
  else (p, EmptyString).

Definition startswith_sep (b : string) : bool :=
  match b with
  | String c _ => Ascii.eqb c sep
  | EmptyString => false
  end.

Fixpoint endswith_sep (a : string) : bool :=
  match a with
  | EmptyString => false
  | String c EmptyString => Ascii.eqb c sep
  | String _ a' => endswith_sep a'
  end.

(** One round of the loop of [posixpath.join]. *)
Definition join2 (path b : string) : string :=
  if startswith_sep b then b
  else if String.eqb path EmptyString || endswith_sep path then path +:+ b
  else path +:+ String sep b.

(** [os.path.join(a, *p)] *)
Definition join (a : string) (p : list string) : string := fold_left join2 p a.

(** *** UUIDs *)

(** A hexadecimal digit, lower case as [%x] prints it. *)
Definition hex_digit (d : Z) : ascii :=
  if d <? 10 then ascii_of_nat (Z.to_nat (48 + d))
  else ascii_of_nat (Z.to_nat (87 + d)).

(** The [k] low hexadecimal digits of [n], most significant first:
    ['%0kx' % n] for [0 <= n < 16^k]. *)
Fixpoint hex (k : nat) (n : Z) : string :=
  match k with
  | O => EmptyString
  | S k' => hex k' (n / 16) +:+ String (hex_digit (n mod 16)) EmptyString
  end.

(** [uuid.UUID(bytes=rnd, version=4).int], where [rnd] is the integer read
    from the sixteen bytes of [os.urandom(16)]: the variant bits are set to
    RFC 4122 and the version nibble to 4. *)
Definition uuid4 (rnd : Z) : Z :=
  let int := rnd mod 2 ^ 128 in
  let int := Z.land int (Z.lnot (Z.shiftl 49152 48)) in
  let int := Z.lor int (Z.shiftl 32768 48) in
  let int := Z.land int (Z.lnot (Z.shiftl 61440 64)) in
  Z.lor int (Z.shiftl 4 76).

(** [str(u)] for a UUID with integer value [int]. *)
Definition uuid_str (int : Z) : string :=
  let h := hex 32 int in
  let dash := String "-"%char EmptyString in
  take_str 8 h +:+ dash +:+
  take_str 4 (drop_str 8 h) +:+ dash +:+
  take_str 4 (drop_str 12 h) +:+ dash +:+
  take_str 4 (drop_str 16 h) +:+ dash +:+
  drop_str 20 h.

(** [recipe_image_file_path(instance, filename)] of [core/models.py].  The
    instance is not read.  [rnd] is the value [os.urandom] hands to
    [uuid.uuid4()] at this call. *)
Definition recipe_image_file_path (rnd : Z) (filename : string) : string :=
  let ext := snd (splitext filename) in
  let filename := uuid_str (uuid4 rnd) +:+ ext in
  join "uploads" ["recipe"%string; filename].

(** *** The extension, told without indices *)

(** [c in p] *)
Fixpoint has (c : ascii) (p : string) : bool :=
  match p with
  | EmptyString => false
  | String a p' => Ascii.eqb a c || has c p'
  end.

(** The part of [p] from its last [c] onward; empty when [p] has no [c]. *)
Fixpoint from_last (c : ascii) (p : string) : string :=
  match p with
  | EmptyString => EmptyString
  | String a p' =>
      if has c p' then from_last c p'
      else if Ascii.eqb a c then p else EmptyString
  end.

(** The substring of the file name from its last dot onward. *)
Definition from_last_dot (filename : string) : string := from_last extsep filename.

(** The final component of a path: what follows its last [sep]. *)
Fixpoint basename (p : string) : string :=
  match p with
  | EmptyString => EmptyString
  | String a p' => if has sep p' then basename p'
                   else if Ascii.eqb a sep then p' else p
  end.

(** [p.lstrip('.')] *)
Fixpoint lstrip_dots (p : string) : string :=
  match p with
  | String a p' => if Ascii.eqb a extsep then lstrip_dots p' else p
  | EmptyString => EmptyString
  end.

(** The value of a string of hexadecimal digits. *)
Definition digit_value (c : ascii) : Z :=
  let n := Z.of_nat (nat_of_ascii c) in
  if n <? 58 then n - 48 else n - 87.

Fixpoint hex_value_from (acc : Z) (h : string) : Z :=
  match h with
  | EmptyString => acc
  | String c h' => hex_value_from (16 * acc + digit_value c) h'
  end.

Definition hex_value (h : string) : Z := hex_value_from 0 h.

(** [s.replace('-', '')] *)
Fixpoint remove_dashes (s : string) : string :=
  match s with
  | EmptyString => EmptyString
  | String c s' => if Ascii.eqb c "-"%char then remove_dashes s'
                   else String c (remove_dashes s')
  end.

(** [c in '0123456789abcdef'], and a string of such characters. *)
Definition is_hex (c : ascii) : bool := has c "0123456789abcdef".

Fixpoint all_hex (h : string) : bool :=
  match h with
  | EmptyString => true
  | String c h' => is_hex c && all_hex h'
  end.

End Paths.

(** ** Part II. The store, exceptions, and the models of [core/models.py] *)

Module Models.

(** [DecimalField(max_digits=5, decimal_places=2)]: a number of hundredths.
    The values the column holds are those of at most five digits
    ([storable_decimal] below); a value with more than two decimal places,
    which the database would round, is not a value of this type. *)
Record Decimal := { hundredths : Z }.

(** [class User]: [email] is unique; [password] holds what [set_password]
    stored, never the raw password. *)
Record User := {
  email : string;
  password : string;
  name : string;
  is_active : bool;
  is_staff : bool;
  is_superuser : bool;
}.

(** [class Tag] and [class Ingredient]: a name and the owning user's key.
    Neither declares a uniqueness constraint. *)
Record Tag := { tag_name : string; tag_user : nat }.
Record Ingredient := { ingredient_name : string; ingredient_user : nat }.

(** [class Recipe]: the scalar columns.  Columns declared [null=True] are
    [option]s; the many-to-many fields [tags] and [ingredients] live in the
    association tables of the store.  [image] holds the name the file is
    stored under; writing the file itself is the storage's work, and so is
    the renaming of a fresh upload through [upload_to] when it is saved
    (see [storable_item] below). *)
Record Recipe := {
  id : nat;
  user : nat;
  title_en : option string;
  title_ar : option string;
  description_en : string;
  description_ar : string;
  time_minutes_en : option Z;
  time_minutes_ar : option Z;
  price_en : option Decimal;
  price_ar : option Decimal;
  link_en : string;
  link_ar : string;
  image : option string;
}.

#[export] Instance Decimal_eq_dec : EqDecision Decimal.
Proof. solve_decision. Defined.
#[export] Instance User_eq_dec : EqDecision User.
Proof. solve_decision. Defined.
#[export] Instance Tag_eq_dec : EqDecision Tag.
Proof. solve_decision. Defined.
#[export] Instance Ingredient_eq_dec : EqDecision Ingredient.
Proof. solve_decision. Defined.
#[export] Instance Recipe_eq_dec : EqDecision Recipe.
Proof. solve_decision. Defined.

(** The database. *)
Record DB := {
  users : gmap nat User;
  recipes : gmap nat Recipe;
  tags : gmap nat Tag;
  ingredients : gmap nat Ingredient;
  recipe_tags : gset (nat * nat);
  recipe_ingredients : gset (nat * nat);
}.

Definition empty_db : DB :=
  {| users := ∅; recipes := ∅; tags := ∅; ingredients := ∅;
     recipe_tags := ∅; recipe_ingredients := ∅ |}.

Definition set_users (f : gmap nat User → gmap nat User) (s : DB) : DB :=
  {| users := f (users s); recipes := recipes s; tags := tags s;
     ingredients := ingredients s; recipe_tags := recipe_tags s;
     recipe_ingredients := recipe_ingredients s |}.
Definition set_recipes (f : gmap nat Recipe → gmap nat Recipe) (s : DB) : DB :=
  {| users := users s; recipes := f (recipes s); tags := tags s;
     ingredients := ingredients s; recipe_tags := recipe_tags s;
     recipe_ingredients := recipe_ingredients s |}.
Definition set_tags (f : gmap nat Tag → gmap nat Tag) (s : DB) : DB :=
  {| users := users s; recipes := recipes s; tags := f (tags s);
     ingredients := ingredients s; recipe_tags := recipe_tags s;
     recipe_ingredients := recipe_ingredients s |}.
Definition set_ingredients (f : gmap nat Ingredient → gmap nat Ingredient) (s : DB) : DB :=
  {| users := users s; recipes := recipes s; tags := tags s;
     ingredients := f (ingredients s); recipe_tags := recipe_tags s;
     recipe_ingredients := recipe_ingredients s |}.
Definition set_recipe_tags (f : gset (nat * nat) → gset (nat * nat)) (s : DB) : DB :=
  {| users := users s; recipes := recipes s; tags := tags s;
     ingredients := ingredients s; recipe_tags := f (recipe_tags s);
     recipe_ingredients := recipe_ingredients s |}.
Definition set_recipe_ingredients (f : gset (nat * nat) → gset (nat * nat)) (s : DB) : DB :=
  {| users := users s; recipes := recipes s; tags := tags s;
     ingredients := ingredients s; recipe_tags := recipe_tags s;
     recipe_ingredients := f (recipe_ingredients s) |}.

(** The exceptions the modelled code can raise. *)
Inductive exn :=
| ValueError (msg : string)
| IntegrityError
| MultipleObjectsReturned.

Inductive result (A : Type) :=
| Ok (a : A)
| Raise (e : exn).
Arguments Ok {A} a.
Arguments Raise {A} e.

(** A computation over the store.  The store that comes back with [Raise]
    holds every write made before the exception. *)
Definition M (A : Type) : Type := DB → result A * DB.

Definition ret {A} (a : A) : M A := λ s, (Ok a, s).
Definition raise {A} (e : exn) : M A := λ s, (Raise e, s).
Definition bind {A B} (m : M A) (k : A → M B) : M B :=
  λ s, match m s with
       | (Ok a, s') => k a s'
       | (Raise e, s') => (Raise e, s')
       end.
Definition get_db : M DB := λ s, (Ok s, s).
Definition modify_db (f : DB → DB) : M unit := λ s, (Ok tt, f s).

Notation "x <- m ;; k" := (bind m (λ x, k))
  (at level 100, m at next level, right associativity).
Notation "m ;;; k" := (bind m (λ _, k))
  (at level 100, right associativity).

(** [for x in xs: body(x)] *)
Fixpoint for_each {A} (xs : list A) (body : A → M unit) : M unit :=
  match xs with
  | [] => ret tt
  | x :: xs' => body x ;;; for_each xs' body
  end.

(** The key the database gives a new row: one no row of the table has.
    (A database sequence also never hands out again the key of a row that
    was deleted; nothing below relies on more than the key being unused.) *)
Definition new_pk {V} (table : gmap nat V) : nat := fresh (dom table).

(** *** Attribute assignment on a [Recipe] instance *)

(** One item of a keyword dictionary over the columns of [Recipe]: the
    attribute name (the constructor) with a value of the column's type. *)
Inductive field_value :=
| F_user (v : nat)
| F_title_en (v : option string)
| F_title_ar (v : option string)
| F_description_en (v : string)
| F_description_ar (v : string)
| F_time_minutes_en (v : option Z)
| F_time_minutes_ar (v : option Z)
| F_price_en (v : option Decimal)
| F_price_ar (v : option Decimal)
| F_link_en (v : string)
| F_link_ar (v : string)
| F_image (v : option string).

Definition attr_name (fv : field_value) : string :=
  match fv with
  | F_user _ => "user"
  | F_title_en _ => "title_en"
  | F_title_ar _ => "title_ar"
  | F_description_en _ => "description_en"
  | F_description_ar _ => "description_ar"
  | F_time_minutes_en _ => "time_minutes_en"
  | F_time_minutes_ar _ => "time_minutes_ar"
  | F_price_en _ => "price_en"
  | F_price_ar _ => "price_ar"
  | F_link_en _ => "link_en"
  | F_link_ar _ => "link_ar"
  | F_image _ => "image"
  end.

Definition with_user (v : nat) (r : Recipe) : Recipe :=
  {| id := id r; user := v; title_en := title_en r; title_ar := title_ar r; description_en := description_en r; description_ar := description_ar r; time_minutes_en := time_minutes_en r; time_minutes_ar := time_minutes_ar r; price_en := price_en r; price_ar := price_ar r; link_en := link_en r; link_ar := link_ar r; image := image r |}.
Definition with_title_en (v : option string) (r : Recipe) : Recipe :=
  {| id := id r; user := user r; title_en := v; title_ar := title_ar r; description_en := description_en r; description_ar := description_ar r; time_minutes_en := time_minutes_en r; time_minutes_ar := time_minutes_ar r; price_en := price_en r; price_ar := price_ar r; link_en := link_en r; link_ar := link_ar r; image := image r |}.
Definition with_title_ar (v : option string) (r : Recipe) : Recipe :=
  {| id := id r; user := user r; title_en := title_en r; title_ar := v; description_en := description_en r; description_ar := description_ar r; time_minutes_en := time_minutes_en r; time_minutes_ar := time_minutes_ar r; price_en := price_en r; price_ar := price_ar r; link_en := link_en r; link_ar := link_ar r; image := image r |}.
Definition with_description_en (v : string) (r : Recipe) : Recipe :=
  {| id := id r; user := user r; title_en := title_en r; title_ar := title_ar r; description_en := v; description_ar := description_ar r; time_minutes_en := time_minutes_en r; time_minutes_ar := time_minutes_ar r; price_en := price_en r; price_ar := price_ar r; link_en := link_en r; link_ar := link_ar r; image := image r |}.
Definition with_description_ar (v : string) (r : Recipe) : Recipe :=
  {| id := id r; user := user r; title_en := title_en r; title_ar := title_ar r; description_en := description_en r; description_ar := v; time_minutes_en := time_minutes_en r; time_minutes_ar := time_minutes_ar r; price_en := price_en r; price_ar := price_ar r; link_en := link_en r; link_ar := link_ar r; image := image r |}.
Definition with_time_minutes_en (v : option Z) (r : Recipe) : Recipe :=
  {| id := id r; user := user r; title_en := title_en r; title_ar := title_ar r; description_en := description_en r; description_ar := description_ar r; time_minutes_en := v; time_minutes_ar := time_minutes_ar r; price_en := price_en r; price_ar := price_ar r; link_en := link_en r; link_ar := link_ar r; image := image r |}.
Definition with_time_minutes_ar (v : option Z) (r : Recipe) : Recipe :=
  {| id := id r; user := user r; title_en := title_en r; title_ar := title_ar r; description_en := description_en r; description_ar := description_ar r; time_minutes_en := time_minutes_en r; time_minutes_ar := v; price_en := price_en r; price_ar := price_ar r; link_en := link_en r; link_ar := link_ar r; image := image r |}.
Definition with_price_en (v : option Decimal) (r : Recipe) : Recipe :=
  {| id := id r; user := user r; title_en := title_en r; title_ar := title_ar r; description_en := description_en r; description_ar := description_ar r; time_minutes_en := time_minutes_en r; time_minutes_ar := time_minutes_ar r; price_en := v; price_ar := price_ar r; link_en := link_en r; link_ar := link_ar r; image := image r |}.
Definition with_price_ar (v : option Decimal) (r : Recipe) : Recipe :=
  {| id := id r; user := user r; title_en := title_en r; title_ar := title_ar r; description_en := description_en r; description_ar := description_ar r; time_minutes_en := time_minutes_en r; time_minutes_ar := time_minutes_ar r; price_en := price_en r; price_ar := v; link_en := link_en r; link_ar := link_ar r; image := image r |}.
Definition with_link_en (v : string) (r : Recipe) : Recipe :=
  {| id := id r; user := user r; title_en := title_en r; title_ar := title_ar r; description_en := description_en r; description_ar := description_ar r; time_minutes_en := time_minutes_en r; time_minutes_ar := time_minutes_ar r; price_en := price_en r; price_ar := price_ar r; link_en := v; link_ar := link_ar r; image := image r |}.
Definition with_link_ar (v : string) (r : Recipe) : Recipe :=
  {| id := id r; user := user r; title_en := title_en r; title_ar := title_ar r; description_en := description_en r; description_ar := description_ar r; time_minutes_en := time_minutes_en r; time_minutes_ar := time_minutes_ar r; price_en := price_en r; price_ar := price_ar r; link_en := link_en r; link_ar := v; image := image r |}.
Definition with_image (v : option string) (r : Recipe) : Recipe :=
  {| id := id r; user := user r; title_en := title_en r; title_ar := title_ar r; description_en := description_en r; description_ar := description_ar r; time_minutes_en := time_minutes_en r; time_minutes_ar := time_minutes_ar r; price_en := price_en r; price_ar := price_ar r; link_en := link_en r; link_ar := link_ar r; image := v |}.

(** [setattr(instance, attr, value)] *)
Definition setattr (instance : Recipe) (fv : field_value) : Recipe :=
  match fv with
  | F_user v => with_user v instance
  | F_title_en v => with_title_en v instance
  | F_title_ar v => with_title_ar v instance
  | F_description_en v => with_description_en v instance
  | F_description_ar v => with_description_ar v instance
  | F_time_minutes_en v => with_time_minutes_en v instance
  | F_time_minutes_ar v => with_time_minutes_ar v instance
  | F_price_en v => with_price_en v instance
  | F_price_ar v => with_price_ar v instance
  | F_link_en v => with_link_en v instance
  | F_link_ar v => with_link_ar v instance
  | F_image v => with_image v instance
  end.

(** [getattr(instance, attr)], as the item that holds the column now. *)
Definition getattr (instance : Recipe) (attr : string) : option field_value :=
  if String.eqb attr "user" then Some (F_user (user instance))
  else if String.eqb attr "title_en" then Some (F_title_en (title_en instance))
  else if String.eqb attr "title_ar" then Some (F_title_ar (title_ar instance))
  else if String.eqb attr "description_en" then Some (F_description_en (description_en instance))
  else if String.eqb attr "description_ar" then Some (F_description_ar (description_ar instance))
  else if String.eqb attr "time_minutes_en" then Some (F_time_minutes_en (time_minutes_en instance))
  else if String.eqb attr "time_minutes_ar" then Some (F_time_minutes_ar (time_minutes_ar instance))
  else if String.eqb attr "price_en" then Some (F_price_en (price_en instance))
  else if String.eqb attr "price_ar" then Some (F_price_ar (price_ar instance))
  else if String.eqb attr "link_en" then Some (F_link_en (link_en instance))
  else if String.eqb attr "link_ar" then Some (F_link_ar (link_ar instance))
  else if String.eqb attr "image" then Some (F_image (image instance))
  else None.

(** The value a keyword dictionary holds for [attr]: the last item of that
    name (a Python dictionary holds one item per key). *)
Definition lookup_attr (attr : string) (kwargs : list field_value) : option field_value :=
  last (filter (λ fv, attr_name fv = attr) kwargs).

(** *** The values the columns store as given

    [title] and [link] are [CharField(max_length=255)], [time_minutes] is an
    [IntegerField] and [price] a [DecimalField(max_digits=5,
    decimal_places=2)].  A value within these bounds is written as it is by
    every database backend.  Outside them what happens is the backend's
    business (an error of its own, or a value cut to fit), and
    [Recipe_objects_create] and [Recipe_save] below, which write the row as
    the instance holds it, do not tell.  The same goes for an [image] item
    that carries a fresh upload: saving it hands the client's file name to
    [upload_to] ([Paths.recipe_image_file_path]) and stores the generated
    name, whereas a name that is already a stored one is written as it is.
    A statement that a write returns, or that a column ends with the value
    given, is therefore made for storable values. *)

(** No NUL character, which a text column of PostgreSQL refuses. *)
Definition storable_text (t : string) : bool := negb (Paths.has "000"%char t).

Definition storable_char (t : string) : bool :=
  (String.length t <=? 255)%nat && storable_text t.

Definition storable_integer (n : Z) : bool :=
  (-2147483648 <=? n) && (n <=? 2147483647).

Definition storable_decimal (d : Decimal) : bool :=
  (-99999 <=? hundredths d) && (hundredths d <=? 99999).

(** An item of a keyword dictionary that the row stores as given: within
    the bounds of its column, and for [image] no upload. *)
Definition storable_item (fv : field_value) : bool :=
  match fv with
  | F_user _ => true
  | F_title_en v | F_title_ar v => from_option storable_char true v
  | F_description_en v | F_description_ar v => storable_text v
  | F_time_minutes_en v | F_time_minutes_ar v => from_option storable_integer true v
  | F_price_en v | F_price_ar v => from_option storable_decimal true v
  | F_link_en v | F_link_ar v => storable_char v
  | F_image v => bool_decide (v = None)
  end.

(** An instance whose columns are all within their bounds; its [image], if
    any, is a stored name. *)
Definition storable_row (r : Recipe) : bool :=
  storable_item (F_title_en (title_en r)) && storable_item (F_title_ar (title_ar r))
  && storable_item (F_description_en (description_en r))
  && storable_item (F_description_ar (description_ar r))
  && storable_item (F_time_minutes_en (time_minutes_en r))
  && storable_item (F_time_minutes_ar (time_minutes_ar r))
  && storable_item (F_price_en (price_en r)) && storable_item (F_price_ar (price_ar r))
  && storable_item (F_link_en (link_en r)) && storable_item (F_link_ar (link_ar r)).

(** *** Accounts: [UserManager] *)

(** The parts of [django.contrib.auth] the manager calls: the password
    hasher ([make_password], which draws a salt) and
    [BaseUserManager.normalize_email]. *)
Class Auth := {
  make_password : Z → option string → string;
  normalize_email : string → string;
}.

(** [**extra_fields] of [create_user]: items over the other columns of
    [User]. *)
Inductive user_field :=
| U_name (v : string)
| U_is_active (v : bool)
| U_is_staff (v : bool)
| U_is_superuser (v : bool).

Definition user_setattr (u : User) (f : user_field) : User :=
  match f with
  | U_name v =>
      {| email := email u; password := password u; name := v;
         is_active := is_active u; is_staff := is_staff u;
         is_superuser := is_superuser u |}
  | U_is_active v =>
      {| email := email u; password := password u; name := name u;
         is_active := v; is_staff := is_staff u;
         is_superuser := is_superuser u |}
  | U_is_staff v =>
      {| email := email u; password := password u; name := name u;
         is_active := is_active u; is_staff := v;
         is_superuser := is_superuser u |}
  | U_is_superuser v =>
      {| email := email u; password := password u; name := name u;
         is_active := is_active u; is_staff := is_staff u;
         is_superuser := v |}
  end.

(** [self.model(email=..., **extra_fields)]: the declared defaults
    ([is_active=True], [is_staff=False]), then the keyword arguments. *)
Definition new_user (e : string) (extra_fields : list user_field) : User :=
  fold_left user_setattr extra_fields
    {| email := e; password := EmptyString; name := EmptyString;
       is_active := true; is_staff := false; is_superuser := false |}.

(** [user.set_password(raw)]: [self.password = make_password(raw)]. *)
Definition set_password `{Auth} (salt : Z) (raw : option string) (u : User) : User :=
  {| email := email u; password := make_password salt raw; name := name u;
     is_active := is_active u; is_staff := is_staff u;
     is_superuser := is_superuser u |}.

(** The rows of [users] with this e-mail address. *)
Definition users_with_email (e : string) (s : DB) : gmap nat User :=
  filter (λ kv, email kv.2 = e) (users s).

(** [user.save()] of a new user: an INSERT; [email] is [unique=True]. *)
Definition User_insert (u : User) : M nat :=
  s <- get_db ;;
  if decide (users_with_email (email u) s = ∅) then
    let pk := new_pk (users s) in
    modify_db (set_users (insert pk u)) ;;; ret pk
  else raise IntegrityError.

(** [user.save()] of a user that has a key: an UPDATE of its row. *)
Definition User_update (pk : nat) (u : User) : M unit :=
  modify_db (set_users (insert pk u)).

(** Python's [not email]: [None] and the empty string are false. *)
Definition falsy (email : option string) : bool :=
  match email with
  | None => true
  | Some e => String.eqb e EmptyString
  end.

(** [UserManager.create_user(email, password=None, **extra_fields)] *)
Definition create_user `{Auth} (salt : Z) (email : option string)
    (password : option string) (extra_fields : list user_field) : M (nat * User) :=
  if falsy email then raise (ValueError "User must have an email address.")
  else
    let user := new_user (normalize_email (default EmptyString email)) extra_fields in
    let user := set_password salt password user in
    pk <- User_insert user ;;
    ret (pk, user).

(** [UserManager.create_superuser(email, password)] *)
Definition create_superuser `{Auth} (salt : Z) (email : option string)
    (password : option string) : M (nat * User) :=
  r <- create_user salt email password [] ;;
  let user := user_setattr (user_setattr r.2 (U_is_staff true)) (U_is_superuser true) in
  User_update r.1 user ;;;
  ret (r.1, user).

(** *** Recipes, tags and ingredients in the store *)

(** A new [Recipe] before its keyword arguments: the declared defaults. *)
Definition default_recipe (pk owner : nat) : Recipe :=
  {| id := pk; user := owner;
     title_en := None; title_ar := None;
     description_en := EmptyString; description_ar := EmptyString;
     time_minutes_en := None; time_minutes_ar := None;
     price_en := None; price_ar := None;
     link_en := EmptyString; link_ar := EmptyString;
     image := None |}.

(** [Recipe.objects.create] with keyword arguments [kwargs]: build the
    instance and INSERT it.  [user] has no default and is NOT NULL, and is
    a foreign key to the users table.  The row is written as the instance
    holds it, which is what the database does with storable items. *)
Definition Recipe_objects_create (kwargs : list field_value) : M Recipe :=
  match lookup_attr "user" kwargs with
  | Some (F_user owner) =>
      s <- get_db ;;
      if decide (owner ∈ dom (users s)) then
        let recipe := fold_left setattr kwargs (default_recipe (new_pk (recipes s)) owner) in
        modify_db (set_recipes (insert (id recipe) recipe)) ;;; ret recipe
      else raise IntegrityError
  | _ => raise IntegrityError
  end.

(** [instance.save()] of a recipe that has a key: its row is written, as
    the instance holds it (see [storable_row]). *)
Definition Recipe_save (instance : Recipe) : M unit :=
  s <- get_db ;;
  if decide (user instance ∈ dom (users s)) then
    modify_db (set_recipes (insert (id instance) instance))
  else raise IntegrityError.

(** The rows of [tags] owned by [owner] and named [n]. *)
Definition tags_matching (owner : nat) (n : string) (s : DB) : gmap nat Tag :=
  filter (λ kv, tag_user kv.2 = owner ∧ tag_name kv.2 = n) (tags s).

(** [Tag.objects.get_or_create(user=owner, name=n)]: the key found or
    made, and whether it was made.  [get] raises when more than one row
    matches; with none, a row is inserted. *)
Definition Tag_objects_get_or_create (owner : nat) (n : string) : M (nat * bool) :=
  s <- get_db ;;
  match map_to_list (tags_matching owner n s) with
  | [] =>
      if decide (owner ∈ dom (users s)) then
        let pk := new_pk (tags s) in
        modify_db (set_tags (insert pk {| tag_name := n; tag_user := owner |})) ;;;
        ret (pk, true)
      else raise IntegrityError
  | [(pk, _)] => ret (pk, false)
  | _ => raise MultipleObjectsReturned
  end.

Definition ingredients_matching (owner : nat) (n : string) (s : DB) : gmap nat Ingredient :=
  filter (λ kv, ingredient_user kv.2 = owner ∧ ingredient_name kv.2 = n) (ingredients s).

(** [Ingredient.objects.get_or_create(user=owner, name=n)] *)
Definition Ingredient_objects_get_or_create (owner : nat) (n : string) : M (nat * bool) :=
  s <- get_db ;;
  match map_to_list (ingredients_matching owner n s) with
  | [] =>
      if decide (owner ∈ dom (users s)) then
        let pk := new_pk (ingredients s) in
        modify_db (set_ingredients
                     (insert pk {| ingredient_name := n; ingredient_user := owner |})) ;;;
        ret (pk, true)
      else raise IntegrityError
  | [(pk, _)] => ret (pk, false)
  | _ => raise MultipleObjectsReturned
  end.

(** [recipe.tags.add(tag_obj)]: the pair joins the association table unless
    it is there; the new association row refers to the recipe's row. *)
Definition tags_add (recipe : Recipe) (tag_pk : nat) : M unit :=
  s <- get_db ;;
  if decide ((id recipe, tag_pk) ∈ recipe_tags s) then ret tt
  else if decide (id recipe ∈ dom (recipes s)) then
    modify_db (set_recipe_tags (union {[ (id recipe, tag_pk) ]}))
  else raise IntegrityError.

Definition ingredients_add (recipe : Recipe) (ingredient_pk : nat) : M unit :=
  s <- get_db ;;
  if decide ((id recipe, ingredient_pk) ∈ recipe_ingredients s) then ret tt
  else if decide (id recipe ∈ dom (recipes s)) then
    modify_db (set_recipe_ingredients (union {[ (id recipe, ingredient_pk) ]}))
  else raise IntegrityError.

(** [instance.tags.clear()] and [instance.ingredients.clear()] *)
Definition tags_clear (instance : Recipe) : M unit :=
  modify_db (set_recipe_tags (filter (λ p, p.1 ≠ id instance))).

Definition ingredients_clear (instance : Recipe) : M unit :=
  modify_db (set_recipe_ingredients (filter (λ p, p.1 ≠ id instance))).

(** [recipe.tags.all()], as the set of keys. *)
Definition tags_of (recipe_pk : nat) (s : DB) : gset nat :=
  set_map snd (filter (λ p, p.1 = recipe_pk) (recipe_tags s)).

Definition ingredients_of (recipe_pk : nat) (s : DB) : gset nat :=
  set_map snd (filter (λ p, p.1 = recipe_pk) (recipe_ingredients s)).

(** Modelled from the spec: deleting a recipe (the destroy path of the
    recipe view, which is not among the source files).  The recipe's row
    goes, and with it the rows of the two association tables that refer to
    it; the [Tag] and [Ingredient] tables are not written. *)
Definition Recipe_delete (recipe_pk : nat) : M unit :=
  modify_db (λ s,
    {| users := users s;
       recipes := delete recipe_pk (recipes s);
       tags := tags s;
       ingredients := ingredients s;
       recipe_tags := filter (λ p, p.1 ≠ recipe_pk) (recipe_tags s);
       recipe_ingredients := filter (λ p, p.1 ≠ recipe_pk) (recipe_ingredients s) |}).

(** *** [__str__] *)

(** [Recipe.__str__]: the English title.  [title_en] is a nullable column,
    so the method can return [None]. *)
Definition Recipe___str__ (self : Recipe) : option string := title_en self.

End Models.

(** ** Part III. [recipe/serializers.py] *)

Module Serializers.
Import Models.

(** [self.context['request']]: the resolved language code and the
    authenticated user's key ([request.user]). *)
Record Request := {
  LANGUAGE_CODE : string;
  request_user : nat;
}.

(** A validated item of the nested [tags] or [ingredients] list: the
    dictionary [{'name': ...}] ([id] is read-only in [TagSerializer] and
    [IngredientSerializer]). *)
Record NameDict := { dict_name : string }.

(** [validated_data]: the two nested lists when their keys are present, and
    the remaining items. *)
Record ValidatedData := {
  vd_tags : option (list NameDict);
  vd_ingredients : option (list NameDict);
  vd_fields : list field_value;
}.

(** [Tag.name] and [Ingredient.name] are [CharField(max_length=255)]. *)
Definition storable_name (d : NameDict) : bool := storable_char (dict_name d).

(** Validated data that the tables store as given. *)
Definition storable_data (validated_data : ValidatedData) : bool :=
  forallb storable_item (vd_fields validated_data)
  && forallb storable_name (default [] (vd_tags validated_data))
  && forallb storable_name (default [] (vd_ingredients validated_data)).

(** *** The method fields *)

(** [RecipeSerializer.get_title], [get_time_minutes], [get_price] and
    [get_link]: the request is [self.context['request']]. *)
Definition get_title (request : Request) (obj : Recipe) : option string :=
  if String.eqb (LANGUAGE_CODE request) "ar" then title_ar obj else title_en obj.

Definition get_time_minutes (request : Request) (obj : Recipe) : option Z :=
  if String.eqb (LANGUAGE_CODE request) "ar"
  then time_minutes_ar obj else time_minutes_en obj.

Definition get_price (request : Request) (obj : Recipe) : option Decimal :=
  if String.eqb (LANGUAGE_CODE request) "ar" then price_ar obj else price_en obj.

Definition get_link (request : Request) (obj : Recipe) : string :=
  if String.eqb (LANGUAGE_CODE request) "ar" then link_ar obj else link_en obj.

(** [RecipeDetailSerializer.get_description] *)
Definition get_description (request : Request) (obj : Recipe) : string :=
  if String.eqb (LANGUAGE_CODE request) "ar"
  then description_ar obj else description_en obj.

(** *** Writes *)

(** [RecipeSerializer._get_and_create_tags] and
    [_get_and_create_ingredients] *)
Definition _get_and_create_tags (request : Request) (tags : list NameDict)
    (recipe : Recipe) : M unit :=
  let auth_user := request_user request in
  for_each tags (λ tag,
    r <- Tag_objects_get_or_create auth_user (dict_name tag) ;;
    tags_add recipe r.1).

Definition _get_and_create_ingredients (request : Request)
    (ingredients : list NameDict) (recipe : Recipe) : M unit :=
  let auth_user := request_user request in
  for_each ingredients (λ ingredient,
    r <- Ingredient_objects_get_or_create auth_user (dict_name ingredient) ;;
    ingredients_add recipe r.1).

(** [RecipeSerializer.create] *)
Definition create (request : Request) (validated_data : ValidatedData) : M Recipe :=
  let tags := default [] (vd_tags validated_data) in
  let ingredients := default [] (vd_ingredients validated_data) in
  recipe <- Recipe_objects_create (vd_fields validated_data) ;;
  _get_and_create_tags request tags recipe ;;;
  _get_and_create_ingredients request ingredients recipe ;;;
  ret recipe.

(** [RecipeSerializer.update] *)
Definition update (request : Request) (instance : Recipe)
    (validated_data : ValidatedData) : M Recipe :=
  match vd_tags validated_data with
  | Some tags =>
      tags_clear instance ;;; _get_and_create_tags request tags instance
  | None => ret tt
  end ;;;
  match vd_ingredients validated_data with
  | Some ingredients =>
      ingredients_clear instance ;;;
      _get_and_create_ingredients request ingredients instance
  | None => ret tt
  end ;;;
  let instance := fold_left setattr (vd_fields validated_data) instance in
  Recipe_save instance ;;;
  ret instance.

(** *** The declared fields and validation *)

(** How a name in [Meta.fields] is declared. *)
Inductive declared :=
| ReadOnlyField            (* listed in [read_only_fields] *)
| SerializerMethodField    (* computed by [get_<name>]; read-only *)
| NestedTags               (* [TagSerializer(many=True, required=False)] *)
| NestedIngredients        (* [IngredientSerializer(many=True, required=False)] *)
| ModelField.              (* built from the model column of that name; writable *)

(** [RecipeSerializer.Meta.fields] with the class's declarations. *)
Definition RecipeSerializer_fields : list (string * declared) :=
  [ ("id", ReadOnlyField); ("title", SerializerMethodField);
    ("time_minutes", SerializerMethodField); ("price", SerializerMethodField);
    ("link", SerializerMethodField); ("tags", NestedTags);
    ("ingredients", NestedIngredients); ("image", ModelField) ]%string.

(** [RecipeDetailSerializer.Meta.fields] *)
Definition RecipeDetailSerializer_fields : list (string * declared) :=
  RecipeSerializer_fields ++
  [ ("description", SerializerMethodField); ("image", ModelField) ]%string.

(** What the framework's field validators make of a raw request value;
    [None] is a validation failure.  A model field's validated value is
    kept under the field's own name. *)
Class Validators (raw : Type) := {
  validate_names : raw → option (list NameDict);
  validate_column : string → raw → option field_value;
  validate_column_name field_name v fv :
    validate_column field_name v = Some fv → attr_name fv = field_name;
}.

(** The serializer's [to_internal_value]: the writable declared fields
    present in the request data are validated in turn; read-only fields
    (the method fields among them) are never read from the data.  [None]
    stands for a failed validation. *)
Fixpoint to_internal_value `{Validators raw} (fields : list (string * declared))
    (data : gmap string raw) (acc : ValidatedData) : option ValidatedData :=
  match fields with
  | [] => Some acc
  | (field_name, decl) :: fields' =>
      match decl, data !! field_name with
      | NestedTags, Some v =>
          match validate_names v with
          | Some l =>
              to_internal_value fields' data
                {| vd_tags := Some l; vd_ingredients := vd_ingredients acc;
                   vd_fields := vd_fields acc |}
          | None => None
          end
      | NestedIngredients, Some v =>
          match validate_names v with
          | Some l =>
              to_internal_value fields' data
                {| vd_tags := vd_tags acc; vd_ingredients := Some l;
                   vd_fields := vd_fields acc |}
          | None => None
          end
      | ModelField, Some v =>
          match validate_column field_name v with
          | Some fv =>
              to_internal_value fields' data
                {| vd_tags := vd_tags acc; vd_ingredients := vd_ingredients acc;
                   vd_fields := vd_fields acc ++ [fv] |}
          | None => None
          end
      | _, _ => to_internal_value fields' data acc
      end
  end.

Definition empty_data : ValidatedData :=
  {| vd_tags := None; vd_ingredients := None; vd_fields := [] |}.

(** The outcome of a serializer write: the request was rejected by
    validation before any write, or [create]/[update] ran. *)
Inductive outcome :=
| Invalid
| Ran (r : result Recipe).

(** [serializer.is_valid()] then [serializer.save] with keyword arguments
    [kwargs]: the keyword arguments are merged over the validated data, and
    [update] runs when the serializer was given an instance, [create]
    otherwise.  The one model field, [image], reaches [create] or [update]
    as the item the validators make of it; what name the row ends with
    when that item is an upload is [upload_to]'s doing (Part I) and not
    told here. *)
Definition save `{Validators raw} (fields : list (string * declared))
    (request : Request) (instance : option Recipe) (data : gmap string raw)
    (kwargs : list field_value) (s : DB) : outcome * DB :=
  match to_internal_value fields data empty_data with
  | None => (Invalid, s)
  | Some vd =>
      let validated_data :=
        {| vd_tags := vd_tags vd; vd_ingredients := vd_ingredients vd;
           vd_fields := vd_fields vd ++ kwargs |} in
      let '(r, s') :=
        match instance with
        | Some i => update request i validated_data s
        | None => create request validated_data s
        end in
      (Ran r, s')
  end.

(** [TagSerializer] declares [name] writable and no [update] of its own:
    the framework's default assigns the validated items to the instance and
    saves it.  [pk] is the key of the tag's row. *)
Definition TagSerializer_update (pk : nat) (instance : Tag)
    (validated_data : NameDict) : M Tag :=
  let instance :=
    {| tag_name := dict_name validated_data; tag_user := tag_user instance |} in
  modify_db (set_tags (insert pk instance)) ;;;
  ret instance.

End Serializers.

(** ** Part IV. What the statements speak of *)

Section Statements.
Import Models Serializers.
Local Open Scope nat_scope.

(** *** Tags *)

(** The row [get_or_create] looks for or makes. *)
Definition tag_row (owner : nat) (n : string) : Tag :=
  {| tag_name := n; tag_user := owner |}.

(** What [get_or_create] does, by the number of rows that match. *)
Inductive tag_get_or_create_spec (owner : nat) (n : string) (s : DB) :
  result (nat * bool) * DB → Prop :=
| tag_found pk :
    tags_matching owner n s = {[ pk := tag_row owner n ]} →
    tag_get_or_create_spec owner n s (Ok (pk, false), s)
| tag_created :
    tags_matching owner n s = ∅ →
    owner ∈ dom (users s) →
    tag_get_or_create_spec owner n s
      (Ok (new_pk (tags s), true),
       set_tags (insert (new_pk (tags s)) (tag_row owner n)) s)
| tag_no_owner :
    tags_matching owner n s = ∅ →
    owner ∉ dom (users s) →
    tag_get_or_create_spec owner n s (Raise IntegrityError, s)
| tag_multiple :
    2 ≤ size (tags_matching owner n s) →
    tag_get_or_create_spec owner n s (Raise MultipleObjectsReturned, s).

(** The body of the loop of [_get_and_create_tags]. *)
Definition tag_step (request : Request) (recipe : Recipe) (tag : NameDict) : M unit :=
  r <- Tag_objects_get_or_create (request_user request) (dict_name tag) ;;
  tags_add recipe r.1.

(** One round of the loop: what it leaves in the store, whatever its
    outcome. *)
Record tag_step_effect (owner rid : nat) (n : string) (s s1 : DB) : Prop := {
  tse_users : users s1 = users s;
  tse_recipes : recipes s1 = recipes s;
  tse_ingredients : ingredients s1 = ingredients s;
  tse_recipe_ingredients : recipe_ingredients s1 = recipe_ingredients s;
  tse_tags :
    tags s1 = tags s
    ∨ (tags_matching owner n s = ∅ ∧ owner ∈ dom (users s)
       ∧ tags s1 = <[new_pk (tags s) := tag_row owner n]> (tags s));
  tse_recipe_tags :
    recipe_tags s1 = recipe_tags s
    ∨ ∃ pk, tags_matching owner n s1 !! pk = Some (tag_row owner n)
            ∧ recipe_tags s1 = {[ (rid, pk) ]} ∪ recipe_tags s;
}.

(** The block of [update] guarded by [if tags is not None]. *)
Definition update_tags (request : Request) (instance : Recipe)
    (tags : option (list NameDict)) : M unit :=
  match tags with
  | Some tags =>
      tags_clear instance ;;; _get_and_create_tags request tags instance
  | None => ret tt
  end.

(** *** Ingredients *)

(** The row [get_or_create] looks for or makes. *)
Definition ingredient_row (owner : nat) (n : string) : Ingredient :=
  {| ingredient_name := n; ingredient_user := owner |}.

(** What [get_or_create] does, by the number of rows that match. *)
Inductive ingredient_get_or_create_spec (owner : nat) (n : string) (s : DB) :
  result (nat * bool) * DB → Prop :=
| ingredient_found pk :
    ingredients_matching owner n s = {[ pk := ingredient_row owner n ]} →
    ingredient_get_or_create_spec owner n s (Ok (pk, false), s)
| ingredient_created :
    ingredients_matching owner n s = ∅ →
    owner ∈ dom (users s) →
    ingredient_get_or_create_spec owner n s
      (Ok (new_pk (ingredients s), true),
       set_ingredients (insert (new_pk (ingredients s)) (ingredient_row owner n)) s)
| ingredient_no_owner :
    ingredients_matching owner n s = ∅ →
    owner ∉ dom (users s) →
    ingredient_get_or_create_spec owner n s (Raise IntegrityError, s)
| ingredient_multiple :
    2 ≤ size (ingredients_matching owner n s) →
    ingredient_get_or_create_spec owner n s (Raise MultipleObjectsReturned, s).

(** The body of the loop of [_get_and_create_ingredients]. *)
Definition ingredient_step (request : Request) (recipe : Recipe) (ingredient : NameDict) : M unit :=
  r <- Ingredient_objects_get_or_create (request_user request) (dict_name ingredient) ;;
  ingredients_add recipe r.1.

(** One round of the loop: what it leaves in the store, whatever its
    outcome. *)
Record ingredient_step_effect (owner rid : nat) (n : string) (s s1 : DB) : Prop := {
  ise_users : users s1 = users s;
  ise_recipes : recipes s1 = recipes s;
  ise_tags : tags s1 = tags s;
  ise_recipe_tags : recipe_tags s1 = recipe_tags s;
  ise_ingredients :
    ingredients s1 = ingredients s
    ∨ (ingredients_matching owner n s = ∅ ∧ owner ∈ dom (users s)
       ∧ ingredients s1 = <[new_pk (ingredients s) := ingredient_row owner n]> (ingredients s));
  ise_recipe_ingredients :
    recipe_ingredients s1 = recipe_ingredients s
    ∨ ∃ pk, ingredients_matching owner n s1 !! pk = Some (ingredient_row owner n)
            ∧ recipe_ingredients s1 = {[ (rid, pk) ]} ∪ recipe_ingredients s;
}.

(** The block of [update] guarded by [if ingredients is not None]. *)
Definition update_ingredients (request : Request) (instance : Recipe)
    (ingredients : option (list NameDict)) : M unit :=
  match ingredients with
  | Some ingredients =>
      ingredients_clear instance ;;; _get_and_create_ingredients request ingredients instance
  | None => ret tt
  end.

(** *** Columns *)

(** The locale-qualified columns of [Recipe]. *)
Definition locale_attrs : list string :=
  [ "title_en"; "title_ar"; "description_en"; "description_ar";
    "time_minutes_en"; "time_minutes_ar"; "price_en"; "price_ar";
    "link_en"; "link_ar" ]%string.

(** *** Stores and requests to run the code on *)

(** A hasher and a normaliser to run the examples with. *)
Definition demo_auth : Auth :=
  {| make_password := λ _ raw, "hashed:" +:+ default "!" raw;
     normalize_email := λ e, e |}.

(** The store after one sign-up: user 0. *)
Definition one_user : DB :=
  (create_user (H := demo_auth) 0 (Some "cook@example.com") (Some "pw") [] empty_db).2.

Definition cook_request : Request :=
  {| LANGUAGE_CODE := "en"; request_user := 0 |}.

Definition named (n : string) : NameDict := {| dict_name := n |}.

(** A recipe tagged [veg] and [vegan] is created, then the tag [vegan]
    (row 1) is renamed [veg] through [TagSerializer]: user 0 now owns two
    tags named [veg]. *)
Definition two_veg_tags : DB :=
  let s1 :=
    (create cook_request
       {| vd_tags := Some [named "veg"; named "vegan"]; vd_ingredients := None;
          vd_fields := [F_user 0] |} one_user).2 in
  (TagSerializer_update 1 {| tag_name := "vegan"; tag_user := 0 |}
     (named "veg") s1).2.

Definition veg_recipe : ValidatedData :=
  {| vd_tags := Some [named "veg"; named "veg"]; vd_ingredients := None;
     vd_fields := [F_user 0] |}.

(** A recipe of user 0 tagged [veg] and [vegan], with salt in it. *)
Definition tagged_store : DB :=
  (create cook_request
     {| vd_tags := Some [named "veg"; named "vegan"];
        vd_ingredients := Some [named "salt"];
        vd_fields := [F_user 0] |} one_user).2.

(** Validators for request data whose values are strings: a name list is
    one name, an image is its file name. *)
Definition demo_validate_column (field_name : string) (v : string) :
    option field_value :=
  if String.eqb field_name "image" then Some (F_image (Some v)) else None.

Definition demo_validators : Validators string.
Proof.
  refine {| validate_names := λ v, Some [named v];
            validate_column := demo_validate_column |}.
  intros field_name v fv. unfold demo_validate_column.
  destruct (String.eqb_spec field_name "image") as [->|]; [|done].
  by intros [= <-].
Defined.

(** *** Invariants of the store *)

(** No two accounts share an e-mail address. *)
Definition unique_emails (s : DB) : Prop :=
  ∀ pk1 pk2 u1 u2,
    users s !! pk1 = Some u1 → users s !! pk2 = Some u2 →
    email u1 = email u2 → pk1 = pk2.

(** No user owns two tags, or two ingredients, of one name. *)
Definition unique_tag_names (s : DB) : Prop :=
  ∀ owner n, size (tags_matching owner n s) ≤ 1.

Definition unique_ingredient_names (s : DB) : Prop :=
  ∀ owner n, size (ingredients_matching owner n s) ≤ 1.

(** Every recipe's row sits under its own key and belongs to a user. *)
Definition recipes_integrity (s : DB) : Prop :=
  ∀ pk row, recipes s !! pk = Some row → id row = pk ∧ user row ∈ dom (users s).

(** Every tag belongs to a user, and every recipe-tag pair joins a recipe
    and a tag that are there. *)
Definition tags_integrity (s : DB) : Prop :=
  (∀ pk t, tags s !! pk = Some t → tag_user t ∈ dom (users s))
  ∧ (∀ rid pk, (rid, pk) ∈ recipe_tags s →
       rid ∈ dom (recipes s) ∧ pk ∈ dom (tags s)).

Definition ingredients_integrity (s : DB) : Prop :=
  (∀ pk t, ingredients s !! pk = Some t → ingredient_user t ∈ dom (users s))
  ∧ (∀ rid pk, (rid, pk) ∈ recipe_ingredients s →
       rid ∈ dom (recipes s) ∧ pk ∈ dom (ingredients s)).

(** The foreign keys of the schema hold. *)
Definition referential_integrity (s : DB) : Prop :=
  recipes_integrity s ∧ tags_integrity s ∧ ingredients_integrity s.

(** What a call of [create_user] or [create_superuser] can do to the store:
    nothing, or insert one row at a fresh key whose address no row had. *)
Inductive account_step (s : DB) : DB → Prop :=
| account_refused : account_step s s
| account_inserted (u : User) :
    users_with_email (email u) s = ∅ →
    account_step s (set_users (insert (new_pk (users s)) u) s).

(** Every name of the list has exactly one row of [owner]'s, and that row
    is among the tags (the ingredients) of the recipe [rid]. *)
Definition tags_attached (owner rid : nat) (names : list NameDict) (s : DB) : Prop :=
  ∀ tag, tag ∈ names →
    ∃ pk, tags_matching owner (dict_name tag) s
            = {[ pk := tag_row owner (dict_name tag) ]}
          ∧ pk ∈ tags_of rid s.

Definition ingredients_attached (owner rid : nat) (names : list NameDict)
    (s : DB) : Prop :=
  ∀ ingredient, ingredient ∈ names →
    ∃ pk, ingredients_matching owner (dict_name ingredient) s
            = {[ pk := ingredient_row owner (dict_name ingredient) ]}
          ∧ pk ∈ ingredients_of rid s.

(** The Arabic and the English columns of [Recipe]. *)
Definition ar_attrs : list string :=
  [ "title_ar"; "description_ar"; "time_minutes_ar"; "price_ar"; "link_ar" ]%string.

Definition en_attrs : list string :=
  [ "title_en"; "description_en"; "time_minutes_en"; "price_en"; "link_en" ]%string.

End Statements.

(** ** Part V. Facts about file paths *)

Section StringFacts.
Import Paths.

Lemma str_app_nil_l (b : string) : EmptyString +:+ b = b.
Proof. reflexivity. Qed.

Lemma str_app_cons (c : ascii) (a b : string) :
  String c a +:+ b = String c (a +:+ b).
Proof. reflexivity. Qed.

Lemma str_app_nil_r (a : string) : a +:+ EmptyString = a.
Proof.
  induction a as [|c a IH]; [done|]. rewrite str_app_cons. by f_equal.
Qed.

Lemma str_app_assoc (a b c : string) : (a +:+ b) +:+ c = a +:+ (b +:+ c).
Proof.
  induction a as [|x a IH]; [done|]. rewrite !str_app_cons. by f_equal.
Qed.

Lemma str_length_app (a b : string) :
  String.length (a +:+ b) = (String.length a + String.length b)%nat.
Proof.
  induction a as [|x a IH]; [done|]. rewrite str_app_cons. simpl. by f_equal.
Qed.

Lemma take_drop_str (n : nat) (p : string) : take_str n p +:+ drop_str n p = p.
Proof.
  revert p. induction n as [|n IH]; intros [|c p]; simpl; try done.
  rewrite str_app_cons. by f_equal.
Qed.

Lemma take_str_app (a b : string) : take_str (String.length a) (a +:+ b) = a.
Proof.
  induction a as [|x a IH]; [done|]. rewrite str_app_cons. simpl. by f_equal.
Qed.

Lemma drop_str_app (a b : string) : drop_str (String.length a) (a +:+ b) = b.
Proof. induction a as [|x a IH]; [done|]. by rewrite str_app_cons. Qed.

Lemma drop_str_add (n m : nat) (p : string) :
  drop_str (n + m) p = drop_str m (drop_str n p).
Proof.
  revert p. induction n as [|n IH]; intros p; simpl; [done|].
  destruct p as [|c p]; [by destruct m | apply IH].
Qed.

Lemma str_app_inj_length (a a' b b' : string) :
  String.length a = String.length a' →
  a +:+ b = a' +:+ b' → a = a' ∧ b = b'.
Proof.
  revert a'. induction a as [|x a IH]; intros [|x' a'] Hl Heq; try done.
  rewrite !str_app_cons in Heq.
  injection Heq as -> Heq. injection Hl as Hl.
  destruct (IH a' Hl Heq) as [-> ->]. done.
Qed.

Lemma has_app (c : ascii) (a b : string) : has c (a +:+ b) = has c a || has c b.
Proof.
  induction a as [|x a IH]; [done|].
  rewrite str_app_cons. simpl. rewrite IH. by rewrite orb_assoc.
Qed.

(** *** [rfind] in closed form *)

Lemma rfind_from_has (c : ascii) (p : string) (i found : Z) :
  rfind_from c p i found = if has c p then i + rfind c p else found.
Proof.
  revert i found. induction p as [|a p IH]; intros i found; [done|].
  unfold rfind. simpl. rewrite (IH (i + 1)), (IH (0 + 1)).
  destruct (has c p); [by rewrite orb_true_r; lia|].
  rewrite orb_false_r. destruct (Ascii.eqb a c); lia.
Qed.

Lemma rfind_cons (c a : ascii) (p : string) :
  rfind c (String a p) =
  if has c p then 1 + rfind c p else if Ascii.eqb a c then 0 else -1.
Proof. unfold rfind at 1. simpl. by rewrite rfind_from_has. Qed.

Lemma rfind_app (c : ascii) (a b : string) :
  rfind c (a +:+ b) =
  if has c b then Z.of_nat (String.length a) + rfind c b else rfind c a.
Proof.
  induction a as [|x a IH].
  - rewrite str_app_nil_l. simpl. destruct (has c b) eqn:E; [lia|].
    unfold rfind. by rewrite rfind_from_has, E.
  - rewrite str_app_cons, !rfind_cons, has_app, IH.
    destruct (has c b); [rewrite orb_true_r; simpl String.length; lia|].
    by rewrite orb_false_r.
Qed.

Lemma rfind_range (c : ascii) (p : string) :
  if has c p then 0 ≤ rfind c p < Z.of_nat (String.length p)
  else rfind c p = -1.
Proof.
  induction p as [|a p IH]; [done|].
  rewrite rfind_cons. simpl.
  destruct (has c p); [rewrite orb_true_r; lia|].
  rewrite orb_false_r. destruct (Ascii.eqb a c); lia.
Qed.

Lemma drop_rfind (c : ascii) (p : string) :
  has c p = true → drop_str (Z.to_nat (rfind c p)) p = from_last c p.
Proof.
  induction p as [|a p IH]; [done|].
  rewrite rfind_cons. simpl. intros H.
  pose proof (rfind_range c p) as Hr.
  destruct (has c p).
  - replace (Z.to_nat (1 + rfind c p)) with (S (Z.to_nat (rfind c p))) by lia.
    simpl. by apply IH.
  - rewrite orb_false_r in H. by rewrite H.
Qed.

Lemma from_last_nil_iff (c : ascii) (p : string) :
  from_last c p = EmptyString ↔ has c p = false.
Proof.
  induction p as [|a p IH]; [done|]. simpl.
  destruct (has c p); [rewrite orb_true_r; naive_solver|].
  rewrite orb_false_r. by destruct (Ascii.eqb a c).
Qed.

End StringFacts.

Section SplitextFacts.
Import Paths.

Lemma basename_split (p : string) :
  ∃ pre, p = pre +:+ basename p
         ∧ Z.of_nat (String.length pre) = rfind sep p + 1
         ∧ has sep (basename p) = false.
Proof.
  induction p as [|a p (pre & Hp & Hlen & Hno)].
  - by exists EmptyString.
  - rewrite rfind_cons. simpl. destruct (has sep p) eqn:Hs.
    + exists (String a pre). rewrite str_app_cons, <- Hp. simpl String.length.
      split_and!; [done | lia | done].
    + destruct (Ascii.eqb a sep) eqn:Ha.
      * exists (String a EmptyString). by rewrite str_app_cons.
      * exists EmptyString. simpl. by rewrite Ha, Hs.
Qed.

Lemma has_basename (c : ascii) (p : string) :
  has c (basename p) = true → has c p = true.
Proof.
  induction p as [|a p IH]; [done|]. simpl.
  destruct (has sep p); [intros; rewrite IH by done; apply orb_true_r|].
  destruct (Ascii.eqb a sep); [intros ->; apply orb_true_r | done].
Qed.

Lemma has_lstrip_dots (c : ascii) (p : string) :
  has c (lstrip_dots p) = true → has c p = true.
Proof.
  induction p as [|a p IH]; [done|]. simpl.
  destruct (Ascii.eqb a extsep); [|done].
  intros H. rewrite IH by done. apply orb_true_r.
Qed.

Lemma basename_no_sep (p : string) : has sep p = false → basename p = p.
Proof.
  destruct p as [|a p]; [done|]. simpl.
  intros [Ha ->]%orb_false_iff. by rewrite Ha.
Qed.

Lemma char_at_app (pre b : string) (j : Z) :
  0 ≤ j → char_at (pre +:+ b) (Z.of_nat (String.length pre) + j) = char_at b j.
Proof.
  intros Hj. unfold char_at.
  replace (Z.to_nat (Z.of_nat (String.length pre) + j))
    with (String.length pre + Z.to_nat j)%nat by lia.
  by rewrite drop_str_add, drop_str_app.
Qed.

Lemma skip_leading_dots_app (pre b : string) (j : Z) (n : nat) :
  0 ≤ j →
  skip_leading_dots (pre +:+ b) (Z.of_nat (String.length pre) + j) n
  = skip_leading_dots b j n.
Proof.
  revert j. induction n as [|n IH]; intros j Hj; [done|]. simpl.
  rewrite char_at_app by done.
  rewrite <- Z.add_assoc, IH by lia. done.
Qed.

Lemma skip_leading_dots_cons (a : ascii) (b : string) (n : nat) :
  skip_leading_dots (String a b) 0 (S n)
  = if Ascii.eqb a extsep then skip_leading_dots b 0 n else true.
Proof.
  pose proof (skip_leading_dots_app (String a EmptyString) b 0 n (Z.le_refl 0)) as H.
  change (skip_leading_dots (String a b) 1 n = skip_leading_dots b 0 n) in H.
  change (skip_leading_dots (String a b) 0 (S n))
    with (if negb (String.eqb (String a EmptyString) (String extsep EmptyString))
          then true else skip_leading_dots (String a b) 1 n).
  rewrite H. simpl.
  destruct (Ascii.eqb a extsep); done.
Qed.

(** The loop that skips leading dots against [lstrip]. *)
Lemma skip_leading_dots_lstrip (b : string) :
  has extsep b = true →
  (if skip_leading_dots b 0 (Z.to_nat (rfind extsep b))
   then from_last extsep b else EmptyString)
  = from_last extsep (lstrip_dots b).
Proof.
  induction b as [|a b IH]; [done|].
  rewrite rfind_cons. simpl. intros H.
  pose proof (rfind_range extsep b) as Hr.
  destruct (has extsep b) eqn:Hb.
  - replace (Z.to_nat (1 + rfind extsep b))
      with (S (Z.to_nat (rfind extsep b))) by lia.
    rewrite skip_leading_dots_cons.
    destruct (Ascii.eqb a extsep); [by apply IH|].
    simpl. by rewrite Hb.
  - rewrite orb_false_r in H. rewrite H. simpl.
    symmetry. apply from_last_nil_iff.
    destruct (has extsep (lstrip_dots b)) eqn:E; [|done].
    apply has_lstrip_dots in E. congruence.
Qed.

(** [splitext] splits: the two parts put together are the path. *)
Lemma splitext_app (p : string) : (splitext p).1 +:+ (splitext p).2 = p.
Proof.
  unfold splitext.
  destruct (_ && _); simpl; [apply take_drop_str | apply str_app_nil_r].
Qed.

(** The extension is what follows the last dot of the final component once
    its leading dots are set aside. *)
Lemma splitext_ext (p : string) :
  (splitext p).2 = from_last_dot (lstrip_dots (basename p)).
Proof.
  destruct (basename_split p) as (pre & Hp & Hlen & Hno).
  unfold splitext, from_last_dot.
  remember (basename p) as b eqn:Eb. clear Eb. subst p.
  assert (rfind sep (pre +:+ b) = Z.of_nat (String.length pre) - 1) as -> by lia.
  rewrite rfind_app.
  pose proof (rfind_range extsep b) as Hr.
  pose proof (rfind_range extsep pre) as Hpre.
  destruct (has extsep b) eqn:Hb.
  - assert ((Z.of_nat (String.length pre) - 1
             <? Z.of_nat (String.length pre) + rfind extsep b) = true) as ->
      by (apply Z.ltb_lt; lia).
    replace (Z.of_nat (String.length pre) - 1 + 1)
      with (Z.of_nat (String.length pre) + 0) by lia.
    rewrite skip_leading_dots_app by lia.
    replace (Z.of_nat (String.length pre) + rfind extsep b
             - (Z.of_nat (String.length pre) + 0)) with (rfind extsep b) by lia.
    rewrite <- skip_leading_dots_lstrip by done. simpl.
    destruct (skip_leading_dots _ _ _); simpl; [|done].
    unfold slice_from.
    replace (Z.to_nat (Z.of_nat (String.length pre) + rfind extsep b))
      with (String.length pre + Z.to_nat (rfind extsep b))%nat by lia.
    rewrite drop_str_add, drop_str_app. by apply drop_rfind.
  - assert ((Z.of_nat (String.length pre) - 1 <? rfind extsep pre) = false) as ->.
    { apply Z.ltb_ge. destruct (has extsep pre); lia. }
    simpl. symmetry. apply from_last_nil_iff.
    destruct (has extsep (lstrip_dots b)) eqn:E; [|done].
    apply has_lstrip_dots in E. congruence.
Qed.

(** A non-empty extension begins with its dot and holds no other dot and
    no separator. *)
Lemma from_last_shape (c : ascii) (p : string) :
  from_last c p = EmptyString
  ∨ ∃ e, from_last c p = String c e ∧ has c e = false.
Proof.
  induction p as [|a p IH]; [by left|]. simpl.
  destruct (has c p) eqn:Hp; [done|].
  destruct (Ascii.eqb_spec a c) as [->|]; [right; eauto | by left].
Qed.

End SplitextFacts.

Section UuidFacts.
Import Paths.

Lemma hex_length (k : nat) (n : Z) : String.length (hex k n) = k.
Proof.
  revert n. induction k as [|k IH]; intros n; [done|]. simpl.
  rewrite str_length_app, IH. simpl. lia.
Qed.

Lemma hex_add (a b : nat) (n : Z) :
  hex (a + b) n = hex a (n / 16 ^ Z.of_nat b) +:+ hex b n.
Proof.
  revert n. induction b as [|b IH]; intros n.
  - rewrite Nat.add_0_r. simpl. by rewrite Z.div_1_r, str_app_nil_r.
  - rewrite Nat.add_succ_r. simpl hex. rewrite IH, str_app_assoc.
    rewrite Z.div_div by lia.
    replace (16 * 16 ^ Z.of_nat b) with (16 ^ Z.of_nat (S b)); [done|].
    rewrite Nat2Z.inj_succ, Z.pow_succ_r by lia. done.
Qed.

(** [str(uuid)] is five groups of digits, of lengths 8, 4, 4, 4 and 12. *)
Lemma uuid_str_groups (n : Z) :
  uuid_str n =
  hex 8 (n / 16 ^ 24) +:+ "-" +:+ hex 4 (n / 16 ^ 20) +:+ "-" +:+
  hex 4 (n / 16 ^ 16) +:+ "-" +:+ hex 4 (n / 16 ^ 12) +:+ "-" +:+ hex 12 n.
Proof.
  unfold uuid_str.
  pose proof (hex_add 8 24 n) as H1. pose proof (hex_add 4 20 n) as H2.
  pose proof (hex_add 4 16 n) as H3. pose proof (hex_add 4 12 n) as H4.
  change (8 + 24)%nat with 32%nat in H1. change (4 + 20)%nat with 24%nat in H2.
  change (4 + 16)%nat with 20%nat in H3. change (4 + 12)%nat with 16%nat in H4.
  change (Z.of_nat 24) with 24 in H1. change (Z.of_nat 20) with 20 in H2.
  change (Z.of_nat 16) with 16 in H3. change (Z.of_nat 12) with 12 in H4.
  assert (∀ k x r, take_str k (hex k x +:+ r) = hex k x) as Htake.
  { intros k x r. rewrite <- (hex_length k x) at 1. apply take_str_app. }
  assert (∀ k x r, drop_str k (hex k x +:+ r) = r) as Hdrop.
  { intros k x r. rewrite <- (hex_length k x) at 1. apply drop_str_app. }
  assert (drop_str 8 (hex 32 n) = hex 24 n) as E8 by (rewrite H1; apply Hdrop).
  assert (drop_str 12 (hex 32 n) = hex 20 n) as E12.
  { rewrite (drop_str_add 8 4 (hex 32 n) : drop_str 12 (hex 32 n) = _), E8, H2. apply Hdrop. }
  assert (drop_str 16 (hex 32 n) = hex 16 n) as E16.
  { rewrite (drop_str_add 12 4 (hex 32 n) : drop_str 16 (hex 32 n) = _), E12, H3. apply Hdrop. }
  assert (drop_str 20 (hex 32 n) = hex 12 n) as E20.
  { rewrite (drop_str_add 16 4 (hex 32 n) : drop_str 20 (hex 32 n) = _), E16, H4. apply Hdrop. }
  rewrite E8, E12, E16, E20.
  rewrite H1 at 1. rewrite Htake. rewrite H2, H3, H4, !Htake. done.
Qed.

Lemma uuid_str_length (n : Z) : String.length (uuid_str n) = 36%nat.
Proof.
  rewrite uuid_str_groups, !str_length_app, !hex_length. done.
Qed.

Lemma hex_digit_cases (d : Z) :
  0 ≤ d < 16 →
  digit_value (hex_digit d) = d
  ∧ Ascii.eqb (hex_digit d) "-" = false
  ∧ Ascii.eqb (hex_digit d) extsep = false
  ∧ Ascii.eqb (hex_digit d) sep = false.
Proof.
  intros H.
  assert (d = 0 ∨ d = 1 ∨ d = 2 ∨ d = 3 ∨ d = 4 ∨ d = 5 ∨ d = 6 ∨ d = 7 ∨
          d = 8 ∨ d = 9 ∨ d = 10 ∨ d = 11 ∨ d = 12 ∨ d = 13 ∨ d = 14 ∨ d = 15)
    as Hd by lia.
  repeat destruct Hd as [->|Hd]; try subst d; by vm_compute.
Qed.

Lemma hex_no_char (c : ascii) (k : nat) (n : Z) :
  (∀ d, 0 ≤ d < 16 → Ascii.eqb (hex_digit d) c = false) →
  has c (hex k n) = false.
Proof.
  intros Hc. revert n. induction k as [|k IH]; intros n; [done|]. simpl.
  rewrite has_app, IH. simpl.
  rewrite Hc by (apply Z.mod_pos_bound; lia). done.
Qed.

Lemma uuid_str_no_char (c : ascii) (n : Z) :
  Ascii.eqb "-" c = false →
  (∀ d, 0 ≤ d < 16 → Ascii.eqb (hex_digit d) c = false) →
  has c (uuid_str n) = false.
Proof.
  intros Hdash Hc.
  assert (has c "-" = false) as Hd.
  { change (has c "-") with (Ascii.eqb "-" c || false). by rewrite Hdash. }
  by rewrite uuid_str_groups, !has_app, !hex_no_char, !Hd by done.
Qed.

Lemma uuid_str_no_dot (n : Z) : has extsep (uuid_str n) = false.
Proof. apply uuid_str_no_char; [done|]. intros d Hd. by apply hex_digit_cases. Qed.

Lemma uuid_str_no_sep (n : Z) : has sep (uuid_str n) = false.
Proof. apply uuid_str_no_char; [done|]. intros d Hd. by apply hex_digit_cases. Qed.

Lemma remove_dashes_app (a b : string) :
  remove_dashes (a +:+ b) = remove_dashes a +:+ remove_dashes b.
Proof.
  induction a as [|x a IH]; [done|]. rewrite str_app_cons. simpl.
  destruct (Ascii.eqb x "-"); [done|]. rewrite str_app_cons. by f_equal.
Qed.

Lemma remove_dashes_hex (k : nat) (n : Z) : remove_dashes (hex k n) = hex k n.
Proof.
  revert n. induction k as [|k IH]; intros n; [done|]. simpl.
  rewrite remove_dashes_app, IH. simpl.
  assert (Ascii.eqb (hex_digit (n mod 16)) "-" = false) as ->; [|done].
  apply hex_digit_cases, Z.mod_pos_bound. lia.
Qed.

Lemma remove_dashes_uuid_str (n : Z) : remove_dashes (uuid_str n) = hex 32 n.
Proof.
  rewrite uuid_str_groups, !remove_dashes_app, !remove_dashes_hex.
  change (remove_dashes "-") with EmptyString. rewrite !str_app_nil_l.
  pose proof (hex_add 8 24 n) as H1. pose proof (hex_add 4 20 n) as H2.
  pose proof (hex_add 4 16 n) as H3. pose proof (hex_add 4 12 n) as H4.
  change (8 + 24)%nat with 32%nat in H1. change (4 + 20)%nat with 24%nat in H2.
  change (4 + 16)%nat with 20%nat in H3. change (4 + 12)%nat with 16%nat in H4.
  change (Z.of_nat 24) with 24 in H1. change (Z.of_nat 20) with 20 in H2.
  change (Z.of_nat 16) with 16 in H3. change (Z.of_nat 12) with 12 in H4.
  by rewrite H1, H2, H3, H4.
Qed.

Lemma hex_value_from_app (acc : Z) (a b : string) :
  hex_value_from acc (a +:+ b) = hex_value_from (hex_value_from acc a) b.
Proof.
  revert acc. induction a as [|x a IH]; intros acc; [done|].
  rewrite str_app_cons. simpl. apply IH.
Qed.

(** Reading back what [hex] printed. *)
Lemma hex_value_from_hex (k : nat) (acc n : Z) :
  hex_value_from acc (hex k n) = acc * 16 ^ Z.of_nat k + n mod 16 ^ Z.of_nat k.
Proof.
  revert acc n. induction k as [|k IH]; intros acc n.
  - simpl. rewrite Z.mod_1_r. lia.
  - simpl hex. rewrite hex_value_from_app, IH. simpl hex_value_from.
    assert (digit_value (hex_digit (n mod 16)) = n mod 16) as ->
      by (apply hex_digit_cases, Z.mod_pos_bound; lia).
    rewrite Nat2Z.inj_succ, Z.pow_succ_r by lia.
    rewrite (Z.rem_mul_r n 16 (16 ^ Z.of_nat k)) by lia. lia.
Qed.

Lemma uuid_str_inj (a b : Z) :
  0 ≤ a < 2 ^ 128 → 0 ≤ b < 2 ^ 128 → uuid_str a = uuid_str b → a = b.
Proof.
  intros Ha Hb Heq.
  apply (f_equal remove_dashes) in Heq. rewrite !remove_dashes_uuid_str in Heq.
  apply (f_equal (hex_value_from 0)) in Heq.
  rewrite !hex_value_from_hex in Heq.
  change (16 ^ Z.of_nat 32) with (2 ^ 128) in Heq.
  rewrite !Z.mod_small in Heq by done. lia.
Qed.

End UuidFacts.

Section Uuid4Facts.
Import Paths.

Lemma small_bits_above (a n : Z) (k : Z) :
  0 ≤ a → Z.log2 a < n - k → Z.testbit (Z.shiftl a k) n = false.
Proof.
  intros Ha Hlog.
  destruct (Z.le_gt_cases 0 n) as [Hn|Hn]; [|by apply Z.testbit_neg_r].
  rewrite Z.shiftl_spec by done. by apply Z.bits_above_log2.
Qed.

(** The value of a version-4 UUID fits in 128 bits. *)
Lemma uuid4_range (rnd : Z) : 0 ≤ uuid4 rnd < 2 ^ 128.
Proof.
  assert (uuid4 rnd = uuid4 rnd mod 2 ^ 128) as ->
    by (apply Z.bits_inj'; intros n Hn;
        destruct (Z.lt_ge_cases n 128) as [Hlt|Hge];
        [ by rewrite Z.mod_pow2_bits_low by lia
        | rewrite Z.mod_pow2_bits_high by lia;
          unfold uuid4;
          rewrite Z.lor_spec, Z.land_spec, Z.lor_spec, Z.land_spec;
          rewrite Z.mod_pow2_bits_high by lia;
          rewrite !small_bits_above
            by (first [done | vm_compute Z.log2; lia]);
          done ]).
  apply Z.mod_pos_bound. done.
Qed.

(** Bits 76 to 79 of a version-4 UUID spell the version. *)
Lemma uuid4_version_nibble (rnd : Z) : (uuid4 rnd / 16 ^ 19) mod 16 = 4.
Proof.
  change (16 ^ 19) with (2 ^ 76). change 16 with (2 ^ 4).
  rewrite <- Z.shiftr_div_pow2, <- Z.land_ones by lia.
  apply Z.bits_inj'. intros n Hn.
  rewrite Z.land_spec, Z.shiftr_spec by done.
  destruct (Z.lt_ge_cases n 4) as [Hlt|Hge].
  - rewrite Z.ones_spec_low by lia. rewrite andb_true_r.
    unfold uuid4. rewrite Z.lor_spec, Z.land_spec, Z.lnot_spec by lia.
    rewrite !(Z.shiftl_spec _ _ (n + 76)) by lia.
    assert (n = 0 ∨ n = 1 ∨ n = 2 ∨ n = 3) as Hcases by lia.
    destruct Hcases as [-> | [-> | [-> | ->]]]; simpl; by rewrite andb_false_r.
  - rewrite Z.ones_spec_high by lia. rewrite andb_false_r.
    symmetry. apply Z.bits_above_log2; [done|]. vm_compute Z.log2. lia.
Qed.

(** The fifteenth character of [str(uuid.uuid4())] is the version, [4]. *)
Lemma uuid4_str_version (rnd : Z) :
  ∃ a b, uuid_str (uuid4 rnd) = a +:+ "4" +:+ b ∧ String.length a = 14%nat.
Proof.
  set (n := uuid4 rnd).
  exists (hex 8 (n / 16 ^ 24) +:+ "-" +:+ hex 4 (n / 16 ^ 20) +:+ "-").
  exists (hex 3 (n / 16 ^ 16) +:+ "-" +:+ hex 4 (n / 16 ^ 12) +:+ "-" +:+ hex 12 n).
  split; [|by rewrite !str_length_app, !hex_length].
  rewrite uuid_str_groups.
  pose proof (hex_add 1 3 (n / 16 ^ 16)) as H. change (1 + 3)%nat with 4%nat in H.
  rewrite H. rewrite Z.div_div by lia.
  change (16 ^ 16 * 16 ^ Z.of_nat 3) with (16 ^ 19).
  change (hex 1 (n / 16 ^ 19))
    with (EmptyString +:+ String (hex_digit ((n / 16 ^ 19) mod 16)) EmptyString).
  unfold n. rewrite uuid4_version_nibble.
  change (hex_digit 4) with "4"%char.
  by rewrite !str_app_assoc.
Qed.

(** [os.path.join('uploads', 'recipe', f)] for a name [f] that does not
    begin with the separator. *)
Lemma join_uploads_recipe (f : string) :
  startswith_sep f = false →
  join "uploads" ["recipe"; f] = "uploads/recipe/" +:+ f.
Proof.
  intros Hf. unfold join. simpl. unfold join2 at 1. rewrite Hf. done.
Qed.

Lemma startswith_sep_has (f g : string) :
  has sep f = false → f ≠ EmptyString → startswith_sep (f +:+ g) = false.
Proof.
  destruct f as [|c f]; [done|]. rewrite str_app_cons. simpl.
  by intros [H _]%orb_false_iff _.
Qed.

(** The generated path, spelled out. *)
Lemma recipe_image_file_path_eq (rnd : Z) (filename : string) :
  recipe_image_file_path rnd filename
  = "uploads/recipe/" +:+ uuid_str (uuid4 rnd) +:+ (splitext filename).2.
Proof.
  unfold recipe_image_file_path. apply join_uploads_recipe.
  apply startswith_sep_has; [apply uuid_str_no_sep|].
  intros E. pose proof (uuid_str_length (uuid4 rnd)) as H. by rewrite E in H.
Qed.

End Uuid4Facts.

Section ImagePath.
Import Paths.

Lemma has_from_last (c c' : ascii) (p : string) :
  has c' (from_last c p) = true → has c' p = true.
Proof.
  induction p as [|a p IH]; [done|]. simpl.
  destruct (has c p); [intros; rewrite IH by done; apply orb_true_r|].
  by destruct (Ascii.eqb a c).
Qed.

Lemma splitext_ext_shape (p : string) :
  (splitext p).2 = EmptyString
  ∨ ∃ e, (splitext p).2 = String extsep e
         ∧ has extsep e = false ∧ has sep e = false.
Proof.
  rewrite splitext_ext. unfold from_last_dot.
  destruct (from_last_shape extsep (lstrip_dots (basename p)))
    as [?|(e & He & Hdot)]; [by left|].
  right. exists e. split_and!; [done..|].
  destruct (has sep e) eqn:Hsep; [|done].
  assert (has sep (from_last extsep (lstrip_dots (basename p))) = true) as H
    by (rewrite He; simpl; by rewrite Hsep).
  apply has_from_last, has_lstrip_dots in H.
  destruct (basename_split p) as (? & _ & _ & Hno). congruence.
Qed.

Lemma lstrip_dots_id (p : string) :
  has extsep (take_str 1 p) = false → lstrip_dots p = p.
Proof.
  destruct p as [|a p]; [done|]. simpl.
  rewrite orb_false_r. by intros ->.
Qed.

(** The upload named in the specification: the extension keeps its case. *)
Lemma recipe_image_file_path_pic_JPG (rnd : Z) :
  recipe_image_file_path rnd "pic.JPG"
  = "uploads/recipe/" +:+ uuid_str (uuid4 rnd) +:+ ".JPG".
Proof. apply recipe_image_file_path_eq. Qed.

(** C10, as the claim words it, fails: for the file name [..png] the
    substring from the last dot onward is [.png], and the path keeps
    nothing of the name. *)
Lemma recipe_image_file_path_last_dot_counterexample :
  from_last_dot "..png" = ".png"
  ∧ recipe_image_file_path 0 "..png"
    = "uploads/recipe/00000000-0000-4000-8000-000000000000"
  ∧ recipe_image_file_path 0 "..png"
    ≠ "uploads/recipe/" +:+ uuid_str (uuid4 0) +:+ from_last_dot "..png".
Proof. split_and!; [reflexivity | reflexivity | by vm_compute]. Qed.

(** C10, amended.  The path is [uploads/recipe/<uuid>] followed by the
    extension [os.path.splitext] finds: what follows the last dot of the
    final component of the name once that component's leading dots are set
    aside.  A name with no dot gives no extension and a path with no dot at
    all; a name with no separator that does not begin with a dot keeps
    exactly its part from the last dot onward; of [a.b.c] only [.c] is
    kept. *)
Theorem recipe_image_file_path_extension (rnd : Z) (filename : string) :
  recipe_image_file_path rnd filename
    = "uploads/recipe/" +:+ uuid_str (uuid4 rnd)
      +:+ from_last_dot (lstrip_dots (basename filename))
  ∧ (has extsep filename = false →
       recipe_image_file_path rnd filename
         = "uploads/recipe/" +:+ uuid_str (uuid4 rnd)
       ∧ has extsep (recipe_image_file_path rnd filename) = false)
  ∧ (has sep filename = false →
       has extsep (take_str 1 filename) = false →
       recipe_image_file_path rnd filename
         = "uploads/recipe/" +:+ uuid_str (uuid4 rnd) +:+ from_last_dot filename)
  ∧ recipe_image_file_path rnd "a.b.c"
      = "uploads/recipe/" +:+ uuid_str (uuid4 rnd) +:+ ".c".
Proof.
  rewrite !recipe_image_file_path_eq, splitext_ext. split_and!.
  - done.
  - intros Hno.
    assert (from_last_dot (lstrip_dots (basename filename)) = EmptyString) as ->.
    { apply from_last_nil_iff.
      destruct (has extsep (lstrip_dots (basename filename))) eqn:E; [|done].
      apply has_lstrip_dots, has_basename in E. congruence. }
    rewrite str_app_nil_r. split; [done|].
    by rewrite has_app, uuid_str_no_dot.
  - intros Hsep Hdot. by rewrite basename_no_sep, lstrip_dots_id.
  - done.
Qed.

(** [photo.png] keeps [.png]; [README] gives a path without a dot. *)
Lemma recipe_image_file_path_extension_witness :
  recipe_image_file_path 7 "photo.png"
    = "uploads/recipe/00000000-0000-4000-8000-000000000007.png"
  ∧ has extsep (recipe_image_file_path 7 "README") = false.
Proof.
  split.
  - destruct (recipe_image_file_path_extension 7 "photo.png")
      as (_ & _ & Hlast & _).
    rewrite Hlast by reflexivity. reflexivity.
  - apply (recipe_image_file_path_extension 7 "README"). reflexivity.
Defined.

End ImagePath.

(** ** Part VI. Facts about the store *)

Section MonadFacts.
Import Models.

Lemma new_pk_fresh {V} (table : gmap nat V) : table !! new_pk table = None.
Proof. apply not_elem_of_dom. unfold new_pk. apply is_fresh. Qed.

Lemma bind_Ok {A B} (m : M A) (k : A → M B) (s s1 : DB) (a : A) :
  m s = (Ok a, s1) → bind m k s = k a s1.
Proof. unfold bind. by intros ->. Qed.

Lemma bind_Raise {A B} (m : M A) (k : A → M B) (s s1 : DB) (e : exn) :
  m s = (Raise e, s1) → bind m k s = (Raise e, s1).
Proof. unfold bind. by intros ->. Qed.

Lemma for_each_cons {A} (x : A) (xs : list A) (body : A → M unit) (s : DB) :
  for_each (x :: xs) body s =
  match body x s with
  | (Ok _, s1) => for_each xs body s1
  | (Raise e, s1) => (Raise e, s1)
  end.
Proof. reflexivity. Qed.

Lemma set_recipe_tags_absorb (p : nat * nat) (s : DB) :
  p ∈ recipe_tags s → set_recipe_tags (union {[ p ]}) s = s.
Proof.
  intros Hp. destruct s as [u r t i rt ri]. unfold set_recipe_tags. simpl in *.
  f_equal. by apply subseteq_union_1_L, singleton_subseteq_l.
Qed.

Lemma set_recipe_ingredients_absorb (p : nat * nat) (s : DB) :
  p ∈ recipe_ingredients s → set_recipe_ingredients (union {[ p ]}) s = s.
Proof.
  intros Hp. destruct s as [u r t i rt ri].
  unfold set_recipe_ingredients. simpl in *.
  f_equal. by apply subseteq_union_1_L, singleton_subseteq_l.
Qed.

Lemma tags_of_ext (rid : nat) (s s1 : DB) :
  recipe_tags s1 = recipe_tags s → tags_of rid s1 = tags_of rid s.
Proof. unfold tags_of. by intros ->. Qed.

Lemma ingredients_of_ext (rid : nat) (s s1 : DB) :
  recipe_ingredients s1 = recipe_ingredients s →
  ingredients_of rid s1 = ingredients_of rid s.
Proof. unfold ingredients_of. by intros ->. Qed.

End MonadFacts.

Section TagFacts.
Import Models Serializers.
Local Open Scope nat_scope.

Lemma elem_of_tags_of (rid pk : nat) (s : DB) :
  pk ∈ tags_of rid s ↔ (rid, pk) ∈ recipe_tags s.
Proof.
  unfold tags_of. rewrite elem_of_map. split.
  - intros ([a b] & -> & [Ha Hb]%elem_of_filter). simpl in *. by subst.
  - intros H. exists (rid, pk). split; [done|]. by apply elem_of_filter.
Qed.

Lemma tags_matching_lookup (owner : nat) (n : string) (s : DB) (pk : nat) (t : Tag) :
  tags_matching owner n s !! pk = Some t ↔
  tags s !! pk = Some t ∧ t = tag_row owner n.
Proof.
  unfold tags_matching. rewrite map_lookup_filter_Some. simpl.
  destruct t as [tn tu]. unfold tag_row. simpl. split.
  - by intros (H & -> & ->).
  - by intros (H & [= -> ->]).
Qed.

Lemma Tag_objects_get_or_create_spec (owner : nat) (n : string) (s : DB) :
  tag_get_or_create_spec owner n s (Tag_objects_get_or_create owner n s).
Proof.
  unfold Tag_objects_get_or_create, bind, get_db.
  destruct (map_to_list (tags_matching owner n s)) as [|[pk t] [|kv l]] eqn:E.
  - apply map_to_list_empty_iff in E.
    destruct (decide (owner ∈ dom (users s))); by constructor.
  - assert (tags_matching owner n s = {[ pk := t ]}) as Hm.
    { rewrite <- (list_to_map_to_list (tags_matching owner n s)), E.
      simpl. apply insert_empty. }
    assert (t = tag_row owner n) as ->.
    { eapply tags_matching_lookup. rewrite Hm. apply lookup_singleton_eq. }
    by constructor.
  - apply tag_multiple. rewrite <- length_map_to_list, E. simpl. lia.
Qed.

(** What [recipe.tags.add] does. *)
Lemma tags_add_Ok (recipe : Recipe) (pk : nat) (s : DB) :
  (id recipe, pk) ∈ recipe_tags s ∨ id recipe ∈ dom (recipes s) →
  tags_add recipe pk s
  = (Ok tt, set_recipe_tags (union {[ (id recipe, pk) ]}) s).
Proof.
  intros H. unfold tags_add, bind, get_db.
  destruct (decide ((id recipe, pk) ∈ recipe_tags s)) as [Hin|Hout].
  - unfold ret. by rewrite set_recipe_tags_absorb.
  - destruct H as [?|?]; [done|]. by rewrite decide_True.
Qed.

Lemma tags_add_Raise (recipe : Recipe) (pk : nat) (s : DB) :
  (id recipe, pk) ∉ recipe_tags s → id recipe ∉ dom (recipes s) →
  tags_add recipe pk s = (Raise IntegrityError, s).
Proof.
  intros H1 H2. unfold tags_add, bind, get_db.
  by rewrite decide_False, decide_False.
Qed.

Lemma _get_and_create_tags_eq (request : Request) (tags : list NameDict) (recipe : Recipe) :
  _get_and_create_tags request tags recipe = for_each tags (tag_step request recipe).
Proof. reflexivity. Qed.

Lemma tags_matching_ext (owner : nat) (n : string) (s s1 : DB) :
  tags s1 = tags s → tags_matching owner n s1 = tags_matching owner n s.
Proof. unfold tags_matching. by intros ->. Qed.

Lemma tags_matching_insert (owner owner' : nat) (n n' : string) (pk : nat) (s s1 : DB) :
  tags s !! pk = None →
  tags s1 = <[pk := tag_row owner n]> (tags s) →
  tags_matching owner' n' s1 =
  if decide (owner' = owner ∧ n' = n)
  then <[pk := tag_row owner n]> (tags_matching owner' n' s)
  else tags_matching owner' n' s.
Proof.
  intros Hfresh Hs1. unfold tags_matching. rewrite Hs1.
  destruct (decide (owner' = owner ∧ n' = n)) as [[-> ->]|Hne].
  - by apply map_filter_insert_True.
  - apply map_filter_insert_not'; [simpl; intros [? ?]; by apply Hne|].
    intros y Hy. congruence.
Qed.

Lemma tag_step_effect_refl (owner rid : nat) (n : string) (s : DB) :
  tag_step_effect owner rid n s s.
Proof. split; auto. Qed.

Lemma tag_step_spec (request : Request) (recipe : Recipe) (tag : NameDict) (s : DB) :
  let owner := request_user request in
  let n := dict_name tag in
  ∃ r s1,
    tag_step request recipe tag s = (r, s1)
    ∧ tag_step_effect owner (id recipe) n s s1
    ∧ match r with
      | Ok _ =>
          ∃ pk, tags_matching owner n s1 = {[ pk := tag_row owner n ]}
                ∧ (id recipe, pk) ∈ recipe_tags s1
                ∧ size (tags_matching owner n s) ≤ 1
      | Raise e =>
          (e = MultipleObjectsReturned ∧ 2 ≤ size (tags_matching owner n s))
          ∨ (e = IntegrityError
             ∧ (owner ∉ dom (users s) ∨ id recipe ∉ dom (recipes s)))
      end.
Proof.
  intros owner n.
  change (tag_step request recipe tag s)
    with (match Tag_objects_get_or_create owner n s with
          | (Ok a, s') => tags_add recipe a.1 s'
          | (Raise e, s') => (Raise e, s')
          end).
  destruct (Tag_objects_get_or_create_spec owner n s) as [pk Hm|Hm Hu|Hm Hu|Hm].
  - (* one row matches *)
    cbn [fst].
    destruct (decide ((id recipe, pk) ∈ recipe_tags s
                      ∨ id recipe ∈ dom (recipes s))) as [Hok|Hno].
    + rewrite tags_add_Ok by done. eexists _, _. split; [done|]. split.
      * split; simpl; auto. right. exists pk. split; [|done].
        unfold tags_matching in *. simpl. rewrite Hm. apply lookup_singleton_eq.
      * exists pk. split_and!.
        -- by rewrite <- Hm.
        -- simpl. apply elem_of_union. left. by apply elem_of_singleton.
        -- rewrite Hm, map_size_singleton. lia.
    + rewrite tags_add_Raise by tauto. eexists _, _. split; [done|].
      split; [apply tag_step_effect_refl|]. right. split; [done|]. tauto.
  - (* no row matches: one is made *)
    cbn [fst]. set (pk := new_pk (tags s)).
    set (s0 := set_tags (insert pk (tag_row owner n)) s).
    assert (tags_matching owner n s0 = {[ pk := tag_row owner n ]}) as Hs0.
    { rewrite (tags_matching_insert owner owner n n pk s s0);
        [|apply new_pk_fresh|done].
      rewrite decide_True by done. rewrite Hm. apply insert_empty. }
    destruct (decide ((id recipe, pk) ∈ recipe_tags s0
                      ∨ id recipe ∈ dom (recipes s0))) as [Hok|Hno].
    + rewrite tags_add_Ok by done. eexists _, _. split; [done|]. split.
      * split; simpl; auto. right. exists pk. split; [|done].
        change (tags_matching owner n s0 !! pk = Some (tag_row owner n)).
        rewrite Hs0. apply lookup_singleton_eq.
      * exists pk. split_and!.
        -- done.
        -- simpl. apply elem_of_union. left. by apply elem_of_singleton.
        -- rewrite Hm, map_size_empty. lia.
    + rewrite tags_add_Raise by tauto. eexists _, _. split; [done|]. split.
      * split; simpl; auto.
      * right. split; [done|]. right. simpl in Hno. tauto.
  - eexists _, _. split; [done|]. split; [apply tag_step_effect_refl|].
    right. tauto.
  - eexists _, _. split; [done|]. split; [apply tag_step_effect_refl|].
    left. tauto.
Qed.

(** The loop of [_get_and_create_tags], round by round: a property of its
    runs follows from the empty run, a round that raises, and a round that
    returns followed by the rest of the run. *)
Lemma _get_and_create_tags_ind (request : Request) (recipe : Recipe)
    (P : list NameDict → DB → result unit → DB → Prop) :
  let owner := request_user request in
  (∀ s, P [] s (Ok tt) s) →
  (∀ tag tags s e s1,
     tag_step request recipe tag s = (Raise e, s1) →
     tag_step_effect owner (id recipe) (dict_name tag) s s1 →
     (e = MultipleObjectsReturned
        ∧ 2 ≤ size (tags_matching owner (dict_name tag) s))
     ∨ (e = IntegrityError
        ∧ (owner ∉ dom (users s) ∨ id recipe ∉ dom (recipes s))) →
     P (tag :: tags) s (Raise e) s1) →
  (∀ tag tags s s1 pk r s',
     tag_step request recipe tag s = (Ok tt, s1) →
     tag_step_effect owner (id recipe) (dict_name tag) s s1 →
     tags_matching owner (dict_name tag) s1
       = {[ pk := tag_row owner (dict_name tag) ]} →
     (id recipe, pk) ∈ recipe_tags s1 →
     size (tags_matching owner (dict_name tag) s) ≤ 1 →
     _get_and_create_tags request tags recipe s1 = (r, s') →
     P tags s1 r s' →
     P (tag :: tags) s r s') →
  ∀ tags s r s',
    _get_and_create_tags request tags recipe s = (r, s') → P tags s r s'.
Proof.
  intros owner Hnil Hraise Hok tags.
  induction tags as [|tag tags IH]; intros s r s' Hrun.
  - injection Hrun as <- <-. apply Hnil.
  - rewrite _get_and_create_tags_eq, for_each_cons in Hrun.
    destruct (tag_step_spec request recipe tag s) as (r1 & s1 & Hstep & Heff & Hr1).
    rewrite Hstep in Hrun. destruct r1 as [[]|e].
    + destruct Hr1 as (pk & Hm & Hpair & Hsize).
      eapply Hok; eauto.
    + injection Hrun as <- <-. by apply Hraise.
Qed.

(** The loop writes no table but [tags] and the recipe-tag pairs. *)
Lemma _get_and_create_tags_frame (request : Request) (recipe : Recipe)
    (tags0 : list NameDict) (s s' : DB) (r : result unit) :
  _get_and_create_tags request tags0 recipe s = (r, s') →
  users s' = users s ∧ recipes s' = recipes s
  ∧ ingredients s' = ingredients s
  ∧ recipe_ingredients s' = recipe_ingredients s.
Proof.
  revert tags0 s r s'.
  apply (_get_and_create_tags_ind request recipe
           (λ _ s _ s', users s' = users s ∧ recipes s' = recipes s
                        ∧ ingredients s' = ingredients s
                        ∧ recipe_ingredients s' = recipe_ingredients s)).
  - done.
  - intros tag tags0 s e s1 _ [] _. done.
  - intros tag tags0 s s1 pk r s' _ [] _ _ _ _ (-> & -> & -> & ->). done.
Qed.

(** Rows of [tags] are only added, each for a submitted name that matched
    nothing. *)
Lemma _get_and_create_tags_rows (request : Request) (recipe : Recipe)
    (tags0 : list NameDict) (s s' : DB) (r : result unit) :
  _get_and_create_tags request tags0 recipe s = (r, s') →
  tags s ⊆ tags s'
  ∧ ∀ pk t, tags s' !! pk = Some t →
      tags s !! pk = Some t
      ∨ ∃ tag, tag ∈ tags0
          ∧ t = tag_row (request_user request) (dict_name tag)
          ∧ tags_matching (request_user request) (dict_name tag) s = ∅.
Proof.
  revert tags0 s r s'.
  apply (_get_and_create_tags_ind request recipe
           (λ tags0 s _ s',
              tags s ⊆ tags s'
              ∧ ∀ pk t, tags s' !! pk = Some t →
                  tags s !! pk = Some t
                  ∨ ∃ tag, tag ∈ tags0
                      ∧ t = tag_row (request_user request) (dict_name tag)
                      ∧ tags_matching (request_user request) (dict_name tag) s = ∅)).
  - intros s. split; [done|]. auto.
  - intros tag tags0 s e s1 _ [_ _ _ _ Ht _] _.
    destruct Ht as [->|(Hm & _ & ->)]; [split; [done|auto]|].
    split; [apply insert_subseteq, new_pk_fresh|].
    intros pk t [[<- <-]|[_ ?]]%lookup_insert_Some; [|auto].
    right. exists tag. split; [apply list_elem_of_here|done].
  - intros tag tags0 s s1 pk0 r s' _ [_ _ _ _ Ht _] _ _ _ _ [Hsub Hnew].
    assert (tags s ⊆ tags s1) as Hsub1.
    { destruct Ht as [->|(_ & _ & ->)]; [done|].
      apply insert_subseteq, new_pk_fresh. }
    split; [by etrans|].
    intros pk t Hpk. destruct (Hnew pk t Hpk) as [Hold|(tag' & Hin & -> & Hm)].
    + destruct Ht as [Ht|(Hm & _ & Ht)]; rewrite Ht in Hold; [auto|].
      apply lookup_insert_Some in Hold as [[<- <-]|[_ ?]]; [|auto].
      right. exists tag. split; [apply list_elem_of_here|done].
    + right. exists tag'. split; [by apply list_elem_of_further|]. split; [done|].
      apply map_empty. intros i. apply eq_None_not_Some. intros [x Hx].
      assert (tags_matching (request_user request) (dict_name tag') s1 !! i = Some x)
        as Hx1.
      { eapply lookup_weaken; [done|].
        by apply map_filter_subseteq_mono. }
      by rewrite Hm in Hx1.
Qed.

Lemma tag_step_effect_matching (owner rid : nat) (n : string) (s s1 : DB)
    (owner' : nat) (n' : string) :
  tag_step_effect owner rid n s s1 →
  tags_matching owner' n' s ≠ ∅ ∨ ¬ (owner' = owner ∧ n' = n) →
  tags_matching owner' n' s1 = tags_matching owner' n' s.
Proof.
  intros [_ _ _ _ Ht _] Hne.
  destruct Ht as [Ht|(Hm & _ & Ht)]; [by apply tags_matching_ext|].
  rewrite (tags_matching_insert owner owner' n n' _ s s1 (new_pk_fresh _) Ht).
  destruct (decide (owner' = owner ∧ n' = n)) as [[-> ->]|?]; [|done].
  destruct Hne as [Hne|Hne]; [done|]. by destruct Hne.
Qed.

Lemma tag_step_effect_size (owner rid : nat) (n : string) (s s1 : DB)
    (owner' : nat) (n' : string) :
  tag_step_effect owner rid n s s1 →
  size (tags_matching owner' n' s) ≤ 1 →
  size (tags_matching owner' n' s1) ≤ 1.
Proof.
  intros [_ _ _ _ Ht _] Hsize.
  destruct Ht as [Ht|(Hm & _ & Ht)];
    [by rewrite (tags_matching_ext _ _ s s1)|].
  rewrite (tags_matching_insert owner owner' n n' _ s s1 (new_pk_fresh _) Ht).
  destruct (decide (owner' = owner ∧ n' = n)) as [[-> ->]|?]; [|done].
  rewrite Hm, insert_empty, map_size_singleton. done.
Qed.

(** A name that matches some row keeps exactly its rows through the loop,
    and so does every name of another user or outside the list. *)
Lemma _get_and_create_tags_matching (request : Request) (recipe : Recipe)
    (tags0 : list NameDict) (s s' : DB) (r : result unit)
    (owner' : nat) (n' : string) :
  _get_and_create_tags request tags0 recipe s = (r, s') →
  tags_matching owner' n' s ≠ ∅
  ∨ ¬ (owner' = request_user request ∧ n' ∈ dict_name <$> tags0) →
  tags_matching owner' n' s' = tags_matching owner' n' s.
Proof.
  revert tags0 s r s'.
  apply (_get_and_create_tags_ind request recipe
           (λ tags0 s _ s',
              tags_matching owner' n' s ≠ ∅
              ∨ ¬ (owner' = request_user request ∧ n' ∈ dict_name <$> tags0) →
              tags_matching owner' n' s' = tags_matching owner' n' s)).
  - done.
  - intros tag tags0 s e s1 _ Heff _ Hne.
    apply (tag_step_effect_matching _ _ _ _ _ _ _ Heff).
    destruct Hne as [?|Hne]; [by left|]. right. intros [-> ->].
    apply Hne. split; [done|]. rewrite fmap_cons. apply list_elem_of_here.
  - intros tag tags0 s s1 pk r s' _ Heff _ _ _ _ IH Hne.
    assert (tags_matching owner' n' s1 = tags_matching owner' n' s) as E.
    { apply (tag_step_effect_matching _ _ _ _ _ _ _ Heff).
      destruct Hne as [?|Hne]; [by left|]. right. intros [-> ->].
      apply Hne. split; [done|]. rewrite fmap_cons. apply list_elem_of_here. }
    rewrite <- E. apply IH. rewrite E.
    destruct Hne as [?|Hne]; [by left|]. right. intros [-> Hin].
    apply Hne. split; [done|]. rewrite fmap_cons. by apply list_elem_of_further.
Qed.

(** A name with at most one row has at most one row after the loop. *)
Lemma _get_and_create_tags_size (request : Request) (recipe : Recipe)
    (tags0 : list NameDict) (s s' : DB) (r : result unit)
    (owner' : nat) (n' : string) :
  _get_and_create_tags request tags0 recipe s = (r, s') →
  size (tags_matching owner' n' s) ≤ 1 →
  size (tags_matching owner' n' s') ≤ 1.
Proof.
  revert tags0 s r s'.
  apply (_get_and_create_tags_ind request recipe
           (λ _ s _ s', size (tags_matching owner' n' s) ≤ 1 →
                        size (tags_matching owner' n' s') ≤ 1)).
  - done.
  - intros tag tags0 s e s1 _ Heff _. by eapply tag_step_effect_size.
  - intros tag tags0 s s1 pk r s' _ Heff _ _ _ _ IH Hsize.
    apply IH. by eapply tag_step_effect_size.
Qed.

(** Pairs are only added, each for the recipe and a row of a submitted
    name. *)
Lemma _get_and_create_tags_pairs (request : Request) (recipe : Recipe)
    (tags0 : list NameDict) (s s' : DB) (r : result unit) :
  _get_and_create_tags request tags0 recipe s = (r, s') →
  recipe_tags s ⊆ recipe_tags s'
  ∧ ∀ p, p ∈ recipe_tags s' →
      p ∈ recipe_tags s
      ∨ ∃ tag pk, tag ∈ tags0 ∧ p = (id recipe, pk)
          ∧ tags s' !! pk = Some (tag_row (request_user request) (dict_name tag)).
Proof.
  intros Hrun. revert tags0 s r s' Hrun.
  apply (_get_and_create_tags_ind request recipe
    (λ tags0 s _ s',
       recipe_tags s ⊆ recipe_tags s'
       ∧ ∀ p, p ∈ recipe_tags s' →
           p ∈ recipe_tags s
           ∨ ∃ tag pk, tag ∈ tags0 ∧ p = (id recipe, pk)
               ∧ tags s' !! pk
                 = Some (tag_row (request_user request) (dict_name tag)))).
  - intros s. split; [done|auto].
  - intros tag tags0 s e s1 _ [_ _ _ _ _ Hp] _.
    destruct Hp as [->|(pk & Hpk & ->)]; [split; [done|auto]|].
    split; [apply union_subseteq_r|].
    intros p [->%elem_of_singleton|?]%elem_of_union; [|auto].
    right. exists tag, pk. split; [apply list_elem_of_here|]. split; [done|].
    by apply tags_matching_lookup in Hpk as [? _].
  - intros tag tags0 s s1 pk0 r s' _ [_ _ _ _ _ Hp] _ _ _ Hrest [Hsub Hnew].
    apply _get_and_create_tags_rows in Hrest as [Hrows _].
    assert (recipe_tags s ⊆ recipe_tags s1) as Hsub1.
    { destruct Hp as [->|(? & ? & ->)]; [done|apply union_subseteq_r]. }
    split; [by etrans|].
    intros p Hin. destruct (Hnew p Hin) as [Hold|(tag' & pk & ? & -> & ?)].
    + destruct Hp as [Hp|(pk & Hpk & Hp)]; rewrite Hp in Hold; [auto|].
      apply elem_of_union in Hold as [->%elem_of_singleton|?]; [|auto].
      right. exists tag, pk. split; [apply list_elem_of_here|]. split; [done|].
      apply tags_matching_lookup in Hpk as [Hpk _].
      by eapply lookup_weaken.
    + right. exists tag', pk. split; [by apply list_elem_of_further|done].
Qed.

(** When the loop returns, every submitted name has exactly one row, and
    that row is attached to the recipe. *)
Lemma _get_and_create_tags_Ok (request : Request) (recipe : Recipe)
    (tags0 : list NameDict) (s s' : DB) :
  _get_and_create_tags request tags0 recipe s = (Ok tt, s') →
  ∀ tag, tag ∈ tags0 →
    ∃ pk, tags_matching (request_user request) (dict_name tag) s'
            = {[ pk := tag_row (request_user request) (dict_name tag) ]}
          ∧ (id recipe, pk) ∈ recipe_tags s'
          ∧ size (tags_matching (request_user request) (dict_name tag) s) ≤ 1.
Proof.
  intros Hrun.
  cut (∀ r, _get_and_create_tags request tags0 recipe s = (r, s') → r = Ok tt →
         ∀ tag, tag ∈ tags0 →
           ∃ pk, tags_matching (request_user request) (dict_name tag) s'
                   = {[ pk := tag_row (request_user request) (dict_name tag) ]}
                 ∧ (id recipe, pk) ∈ recipe_tags s'
                 ∧ size (tags_matching (request_user request) (dict_name tag) s) ≤ 1);
    [by eauto|].
  clear Hrun. intros r Hrun. revert tags0 s r s' Hrun.
  apply (_get_and_create_tags_ind request recipe
    (λ tags0 s r s',
       r = Ok tt → ∀ tag, tag ∈ tags0 →
         ∃ pk, tags_matching (request_user request) (dict_name tag) s'
                 = {[ pk := tag_row (request_user request) (dict_name tag) ]}
               ∧ (id recipe, pk) ∈ recipe_tags s'
               ∧ size (tags_matching (request_user request) (dict_name tag) s) ≤ 1)).
  - intros s _ tag Hin. by apply elem_of_nil in Hin.
  - done.
  - intros tag tags0 s s1 pk r s' _ Heff Hm Hpair Hsize Hrest IH -> tag' Hin.
    apply elem_of_cons in Hin as [->|Hin].
    + exists pk. split_and!; [|..|done].
      * rewrite <- Hm. eapply _get_and_create_tags_matching; [done|].
        left. rewrite Hm. apply insert_non_empty.
      * by apply (_get_and_create_tags_pairs _ _ _ _ _ _ Hrest).
    + destruct (IH eq_refl tag' Hin) as (pk' & ? & ? & Hsize').
      exists pk'. split_and!; [done..|].
      destruct (decide (size (tags_matching (request_user request)
                                 (dict_name tag') s) ≤ 1)) as [|Hbig]; [done|].
      assert (tags_matching (request_user request) (dict_name tag') s ≠ ∅) as Hne.
      { intros E. rewrite E, map_size_empty in Hbig. lia. }
      rewrite (tag_step_effect_matching _ _ _ _ _ _ _ Heff) in Hsize'
        by (by left). done.
Qed.

(** *** Running the loop again *)

Lemma Tag_objects_get_or_create_found (owner : nat) (n : string) (s : DB) (pk : nat) :
  tags_matching owner n s = {[ pk := tag_row owner n ]} →
  Tag_objects_get_or_create owner n s = (Ok (pk, false), s).
Proof.
  intros Hm.
  destruct (Tag_objects_get_or_create_spec owner n s) as [pk' Hm'|Hm' _|Hm' _|Hm'].
  - rewrite Hm in Hm'. apply (f_equal dom) in Hm'.
    rewrite !dom_singleton_L in Hm'. apply singleton_inj in Hm'. by subst.
  - rewrite Hm in Hm'. by apply map_non_empty_singleton in Hm'.
  - rewrite Hm in Hm'. by apply map_non_empty_singleton in Hm'.
  - rewrite Hm, map_size_singleton in Hm'. lia.
Qed.


Lemma Tag_objects_get_or_create_multiple (owner : nat) (n : string) (s : DB) :
  2 ≤ size (tags_matching owner n s) →
  Tag_objects_get_or_create owner n s = (Raise MultipleObjectsReturned, s).
Proof.
  intros Hm.
  destruct (Tag_objects_get_or_create_spec owner n s) as [pk' Hm'|Hm' _|Hm' _|_].
  - rewrite Hm', map_size_singleton in Hm. lia.
  - rewrite Hm', map_size_empty in Hm. lia.
  - rewrite Hm', map_size_empty in Hm. lia.
  - done.
Qed.

Lemma tag_step_stable (request : Request) (recipe : Recipe) (tag : NameDict)
    (s : DB) (pk : nat) :
  tags_matching (request_user request) (dict_name tag) s
    = {[ pk := tag_row (request_user request) (dict_name tag) ]} →
  (id recipe, pk) ∈ recipe_tags s →
  tag_step request recipe tag s = (Ok tt, s).
Proof.
  intros Hm Hpair. unfold tag_step.
  erewrite bind_Ok by (by apply Tag_objects_get_or_create_found).
  cbn [fst]. rewrite tags_add_Ok by (by left).
  by rewrite set_recipe_tags_absorb.
Qed.




(** Why the loop raises: a submitted name matches several rows, or the
    user's or the recipe's row is missing. *)
Lemma _get_and_create_tags_Raise (request : Request) (recipe : Recipe)
    (tags0 : list NameDict) (s s' : DB) (e : exn) :
  _get_and_create_tags request tags0 recipe s = (Raise e, s') →
  (e = MultipleObjectsReturned
     ∧ ∃ tag, tag ∈ tags0
        ∧ 2 ≤ size (tags_matching (request_user request) (dict_name tag) s))
  ∨ (e = IntegrityError
     ∧ (request_user request ∉ dom (users s) ∨ id recipe ∉ dom (recipes s))).
Proof.
  intros Hrun.
  cut (∀ r, _get_and_create_tags request tags0 recipe s = (r, s') → r = Raise e →
    (e = MultipleObjectsReturned
       ∧ ∃ tag, tag ∈ tags0
          ∧ 2 ≤ size (tags_matching (request_user request) (dict_name tag) s))
    ∨ (e = IntegrityError
       ∧ (request_user request ∉ dom (users s) ∨ id recipe ∉ dom (recipes s))));
    [by eauto|].
  clear Hrun. intros r Hrun. revert tags0 s r s' Hrun.
  apply (_get_and_create_tags_ind request recipe
    (λ tags0 s r _,
       r = Raise e →
       (e = MultipleObjectsReturned
          ∧ ∃ tag, tag ∈ tags0
             ∧ 2 ≤ size (tags_matching (request_user request) (dict_name tag) s))
       ∨ (e = IntegrityError
          ∧ (request_user request ∉ dom (users s)
             ∨ id recipe ∉ dom (recipes s))))).
  - done.
  - intros tag tags0 s e' s1 _ _ Hwhy [= ->].
    destruct Hwhy as [[-> ?]|?]; [left|by right].
    split; [done|]. exists tag. split; [apply list_elem_of_here|done].
  - intros tag tags0 s s1 pk r s' _ Heff _ _ _ _ IH Hr.
    destruct (IH Hr) as [(-> & tag' & Hin & Hbig)|(-> & Hmiss)].
    + left. split; [done|]. exists tag'. split; [by apply list_elem_of_further|].
      destruct (decide (2 ≤ size (tags_matching (request_user request)
                                    (dict_name tag') s))) as [|Hsmall]; [done|].
      assert (size (tags_matching (request_user request) (dict_name tag') s1) ≤ 1);
        [|lia].
      eapply tag_step_effect_size; [done|lia].
    + right. split; [done|]. destruct Heff as [Eu Er _ _ _ _].
      by rewrite Eu, Er in Hmiss.
Qed.

(** A loop that raises stopped at one name: the names before it are
    resolved and attached, and the round of that name raised. *)
Lemma _get_and_create_tags_stopped (request : Request) (recipe : Recipe)
    (tags0 : list NameDict) (s s' : DB) (e : exn) :
  _get_and_create_tags request tags0 recipe s = (Raise e, s') →
  ∃ pre failing rest,
    tags0 = pre ++ failing :: rest
    ∧ (∀ tag, tag ∈ pre →
         ∃ pk, tags_matching (request_user request) (dict_name tag) s'
                 = {[ pk := tag_row (request_user request) (dict_name tag) ]}
               ∧ (id recipe, pk) ∈ recipe_tags s')
    ∧ ((e = MultipleObjectsReturned
        ∧ 2 ≤ size (tags_matching (request_user request) (dict_name failing) s))
       ∨ (e = IntegrityError
          ∧ (request_user request ∉ dom (users s) ∨ id recipe ∉ dom (recipes s)))).
Proof.
  intros Hrun.
  cut (∀ r, _get_and_create_tags request tags0 recipe s = (r, s') → r = Raise e →
    ∃ pre failing rest,
      tags0 = pre ++ failing :: rest
      ∧ (∀ tag, tag ∈ pre →
           ∃ pk, tags_matching (request_user request) (dict_name tag) s'
                   = {[ pk := tag_row (request_user request) (dict_name tag) ]}
                 ∧ (id recipe, pk) ∈ recipe_tags s')
      ∧ ((e = MultipleObjectsReturned
          ∧ 2 ≤ size (tags_matching (request_user request) (dict_name failing) s))
         ∨ (e = IntegrityError
            ∧ (request_user request ∉ dom (users s)
               ∨ id recipe ∉ dom (recipes s)))));
    [by eauto|].
  clear Hrun. intros r Hrun. revert tags0 s r s' Hrun.
  apply (_get_and_create_tags_ind request recipe
    (λ tags0 s r s',
       r = Raise e →
       ∃ pre failing rest,
         tags0 = pre ++ failing :: rest
         ∧ (∀ tag, tag ∈ pre →
              ∃ pk, tags_matching (request_user request) (dict_name tag) s'
                      = {[ pk := tag_row (request_user request) (dict_name tag) ]}
                    ∧ (id recipe, pk) ∈ recipe_tags s')
         ∧ ((e = MultipleObjectsReturned
             ∧ 2 ≤ size (tags_matching (request_user request)
                           (dict_name failing) s))
            ∨ (e = IntegrityError
               ∧ (request_user request ∉ dom (users s)
                  ∨ id recipe ∉ dom (recipes s)))))).
  - done.
  - intros tag tags0 s e' s1 _ _ Hwhy [= ->].
    exists [], tag, tags0. split; [done|]. split; [|done].
    by intros tag' ?%elem_of_nil.
  - intros tag tags0 s s1 pk r s' _ Heff Hm Hpair _ Hrest IH Hr.
    destruct (IH Hr) as (pre & failing & rest & -> & Hatt & Hwhy).
    exists (tag :: pre), failing, rest. split; [done|]. split.
    + intros tag' Hin. apply elem_of_cons in Hin as [->|Hin]; [|by apply Hatt].
      exists pk. split.
      * rewrite <- Hm. eapply _get_and_create_tags_matching; [done|].
        left. rewrite Hm. apply insert_non_empty.
      * by apply (_get_and_create_tags_pairs _ _ _ _ _ _ Hrest).
    + destruct Hwhy as [[-> Hbig]|[-> Hmiss]]; [left|right]; (split; [done|]).
      * destruct (decide (2 ≤ size (tags_matching (request_user request)
                                      (dict_name failing) s))) as [|Hsmall]; [done|].
        assert (size (tags_matching (request_user request) (dict_name failing) s1)
                ≤ 1); [|lia].
        eapply tag_step_effect_size; [done|lia].
      * destruct Heff as [Eu Er _ _ _ _]. by rewrite Eu, Er in Hmiss.
Qed.

(** The loop returns when the user and the recipe are in the store and no
    submitted name matches more than one row. *)
Lemma _get_and_create_tags_returns (request : Request) (recipe : Recipe)
    (tags0 : list NameDict) (s : DB) :
  request_user request ∈ dom (users s) →
  id recipe ∈ dom (recipes s) →
  (∀ tag, tag ∈ tags0 →
     size (tags_matching (request_user request) (dict_name tag) s) ≤ 1) →
  ∃ s', _get_and_create_tags request tags0 recipe s = (Ok tt, s').
Proof.
  intros Hu Hr Hone.
  destruct (_get_and_create_tags request tags0 recipe s) as [[[]|e] s'] eqn:Hrun;
    [by eauto|].
  apply _get_and_create_tags_Raise in Hrun
    as [(_ & tag & Hin & Hbig)|(_ & [?|?])]; [|done..].
  specialize (Hone tag Hin). lia.
Qed.

(** [instance.tags.clear()] empties the recipe's set and nothing else. *)
Lemma tags_clear_spec (instance : Recipe) (s : DB) :
  ∃ s1, tags_clear instance s = (Ok tt, s1)
        ∧ users s1 = users s ∧ recipes s1 = recipes s ∧ tags s1 = tags s
        ∧ ingredients s1 = ingredients s
        ∧ recipe_ingredients s1 = recipe_ingredients s
        ∧ (∀ rid pk, (rid, pk) ∈ recipe_tags s1
                     ↔ (rid, pk) ∈ recipe_tags s ∧ rid ≠ id instance).
Proof.
  eexists. split; [reflexivity|]. simpl. split_and!; try done.
  intros rid pk. rewrite elem_of_filter. simpl. tauto.
Qed.

End TagFacts.

Section IngredientFacts.
Import Models Serializers.
Local Open Scope nat_scope.

Lemma elem_of_ingredients_of (rid pk : nat) (s : DB) :
  pk ∈ ingredients_of rid s ↔ (rid, pk) ∈ recipe_ingredients s.
Proof.
  unfold ingredients_of. rewrite elem_of_map. split.
  - intros ([a b] & -> & [Ha Hb]%elem_of_filter). simpl in *. by subst.
  - intros H. exists (rid, pk). split; [done|]. by apply elem_of_filter.
Qed.

Lemma ingredients_matching_lookup (owner : nat) (n : string) (s : DB) (pk : nat) (t : Ingredient) :
  ingredients_matching owner n s !! pk = Some t ↔
  ingredients s !! pk = Some t ∧ t = ingredient_row owner n.
Proof.
  unfold ingredients_matching. rewrite map_lookup_filter_Some. simpl.
  destruct t as [tn tu]. unfold ingredient_row. simpl. split.
  - by intros (H & -> & ->).
  - by intros (H & [= -> ->]).
Qed.

Lemma Ingredient_objects_get_or_create_spec (owner : nat) (n : string) (s : DB) :
  ingredient_get_or_create_spec owner n s (Ingredient_objects_get_or_create owner n s).
Proof.
  unfold Ingredient_objects_get_or_create, bind, get_db.
  destruct (map_to_list (ingredients_matching owner n s)) as [|[pk t] [|kv l]] eqn:E.
  - apply map_to_list_empty_iff in E.
    destruct (decide (owner ∈ dom (users s))); by constructor.
  - assert (ingredients_matching owner n s = {[ pk := t ]}) as Hm.
    { rewrite <- (list_to_map_to_list (ingredients_matching owner n s)), E.
      simpl. apply insert_empty. }
    assert (t = ingredient_row owner n) as ->.
    { eapply ingredients_matching_lookup. rewrite Hm. apply lookup_singleton_eq. }
    by constructor.
  - apply ingredient_multiple. rewrite <- length_map_to_list, E. simpl. lia.
Qed.

(** What [recipe.ingredients.add] does. *)
Lemma ingredients_add_Ok (recipe : Recipe) (pk : nat) (s : DB) :
  (id recipe, pk) ∈ recipe_ingredients s ∨ id recipe ∈ dom (recipes s) →
  ingredients_add recipe pk s
  = (Ok tt, set_recipe_ingredients (union {[ (id recipe, pk) ]}) s).
Proof.
  intros H. unfold ingredients_add, bind, get_db.
  destruct (decide ((id recipe, pk) ∈ recipe_ingredients s)) as [Hin|Hout].
  - unfold ret. by rewrite set_recipe_ingredients_absorb.
  - destruct H as [?|?]; [done|]. by rewrite decide_True.
Qed.

Lemma ingredients_add_Raise (recipe : Recipe) (pk : nat) (s : DB) :
  (id recipe, pk) ∉ recipe_ingredients s → id recipe ∉ dom (recipes s) →
  ingredients_add recipe pk s = (Raise IntegrityError, s).
Proof.
  intros H1 H2. unfold ingredients_add, bind, get_db.
  by rewrite decide_False, decide_False.
Qed.

Lemma _get_and_create_ingredients_eq (request : Request) (ingredients : list NameDict) (recipe : Recipe) :
  _get_and_create_ingredients request ingredients recipe = for_each ingredients (ingredient_step request recipe).
Proof. reflexivity. Qed.

Lemma ingredients_matching_ext (owner : nat) (n : string) (s s1 : DB) :
  ingredients s1 = ingredients s → ingredients_matching owner n s1 = ingredients_matching owner n s.
Proof. unfold ingredients_matching. by intros ->. Qed.

Lemma ingredients_matching_insert (owner owner' : nat) (n n' : string) (pk : nat) (s s1 : DB) :
  ingredients s !! pk = None →
  ingredients s1 = <[pk := ingredient_row owner n]> (ingredients s) →
  ingredients_matching owner' n' s1 =
  if decide (owner' = owner ∧ n' = n)
  then <[pk := ingredient_row owner n]> (ingredients_matching owner' n' s)
  else ingredients_matching owner' n' s.
Proof.
  intros Hfresh Hs1. unfold ingredients_matching. rewrite Hs1.
  destruct (decide (owner' = owner ∧ n' = n)) as [[-> ->]|Hne].
  - by apply map_filter_insert_True.
  - apply map_filter_insert_not'; [simpl; intros [? ?]; by apply Hne|].
    intros y Hy. congruence.
Qed.

Lemma ingredient_step_effect_refl (owner rid : nat) (n : string) (s : DB) :
  ingredient_step_effect owner rid n s s.
Proof. split; auto. Qed.

Lemma ingredient_step_spec (request : Request) (recipe : Recipe) (ingredient : NameDict) (s : DB) :
  let owner := request_user request in
  let n := dict_name ingredient in
  ∃ r s1,
    ingredient_step request recipe ingredient s = (r, s1)
    ∧ ingredient_step_effect owner (id recipe) n s s1
    ∧ match r with
      | Ok _ =>
          ∃ pk, ingredients_matching owner n s1 = {[ pk := ingredient_row owner n ]}
                ∧ (id recipe, pk) ∈ recipe_ingredients s1
                ∧ size (ingredients_matching owner n s) ≤ 1
      | Raise e =>
          (e = MultipleObjectsReturned ∧ 2 ≤ size (ingredients_matching owner n s))
          ∨ (e = IntegrityError
             ∧ (owner ∉ dom (users s) ∨ id recipe ∉ dom (recipes s)))
      end.
Proof.
  intros owner n.
  change (ingredient_step request recipe ingredient s)
    with (match Ingredient_objects_get_or_create owner n s with
          | (Ok a, s') => ingredients_add recipe a.1 s'
          | (Raise e, s') => (Raise e, s')
          end).
  destruct (Ingredient_objects_get_or_create_spec owner n s) as [pk Hm|Hm Hu|Hm Hu|Hm].
  - (* one row matches *)
    cbn [fst].
    destruct (decide ((id recipe, pk) ∈ recipe_ingredients s
                      ∨ id recipe ∈ dom (recipes s))) as [Hok|Hno].
    + rewrite ingredients_add_Ok by done. eexists _, _. split; [done|]. split.
      * split; simpl; auto. right. exists pk. split; [|done].
        unfold ingredients_matching in *. simpl. rewrite Hm. apply lookup_singleton_eq.
      * exists pk. split_and!.
        -- by rewrite <- Hm.
        -- simpl. apply elem_of_union. left. by apply elem_of_singleton.
        -- rewrite Hm, map_size_singleton. lia.
    + rewrite ingredients_add_Raise by tauto. eexists _, _. split; [done|].
      split; [apply ingredient_step_effect_refl|]. right. split; [done|]. tauto.
  - (* no row matches: one is made *)
    cbn [fst]. set (pk := new_pk (ingredients s)).
    set (s0 := set_ingredients (insert pk (ingredient_row owner n)) s).
    assert (ingredients_matching owner n s0 = {[ pk := ingredient_row owner n ]}) as Hs0.
    { rewrite (ingredients_matching_insert owner owner n n pk s s0);
        [|apply new_pk_fresh|done].
      rewrite decide_True by done. rewrite Hm. apply insert_empty. }
    destruct (decide ((id recipe, pk) ∈ recipe_ingredients s0
                      ∨ id recipe ∈ dom (recipes s0))) as [Hok|Hno].
    + rewrite ingredients_add_Ok by done. eexists _, _. split; [done|]. split.
      * split; simpl; auto. right. exists pk. split; [|done].
        change (ingredients_matching owner n s0 !! pk = Some (ingredient_row owner n)).
        rewrite Hs0. apply lookup_singleton_eq.
      * exists pk. split_and!.
        -- done.
        -- simpl. apply elem_of_union. left. by apply elem_of_singleton.
        -- rewrite Hm, map_size_empty. lia.
    + rewrite ingredients_add_Raise by tauto. eexists _, _. split; [done|]. split.
      * split; simpl; auto.
      * right. split; [done|]. right. simpl in Hno. tauto.
  - eexists _, _. split; [done|]. split; [apply ingredient_step_effect_refl|].
    right. tauto.
  - eexists _, _. split; [done|]. split; [apply ingredient_step_effect_refl|].
    left. tauto.
Qed.

(** The loop of [_get_and_create_ingredients], round by round: a property of its
    runs follows from the empty run, a round that raises, and a round that
    returns followed by the rest of the run. *)
Lemma _get_and_create_ingredients_ind (request : Request) (recipe : Recipe)
    (P : list NameDict → DB → result unit → DB → Prop) :
  let owner := request_user request in
  (∀ s, P [] s (Ok tt) s) →
  (∀ ingredient ingredients s e s1,
     ingredient_step request recipe ingredient s = (Raise e, s1) →
     ingredient_step_effect owner (id recipe) (dict_name ingredient) s s1 →
     (e = MultipleObjectsReturned
        ∧ 2 ≤ size (ingredients_matching owner (dict_name ingredient) s))
     ∨ (e = IntegrityError
        ∧ (owner ∉ dom (users s) ∨ id recipe ∉ dom (recipes s))) →
     P (ingredient :: ingredients) s (Raise e) s1) →
  (∀ ingredient ingredients s s1 pk r s',
     ingredient_step request recipe ingredient s = (Ok tt, s1) →
     ingredient_step_effect owner (id recipe) (dict_name ingredient) s s1 →
     ingredients_matching owner (dict_name ingredient) s1
       = {[ pk := ingredient_row owner (dict_name ingredient) ]} →
     (id recipe, pk) ∈ recipe_ingredients s1 →
     size (ingredients_matching owner (dict_name ingredient) s) ≤ 1 →
     _get_and_create_ingredients request ingredients recipe s1 = (r, s') →
     P ingredients s1 r s' →
     P (ingredient :: ingredients) s r s') →
  ∀ ingredients s r s',
    _get_and_create_ingredients request ingredients recipe s = (r, s') → P ingredients s r s'.
Proof.
  intros owner Hnil Hraise Hok ingredients.
  induction ingredients as [|ingredient ingredients IH]; intros s r s' Hrun.
  - injection Hrun as <- <-. apply Hnil.
  - rewrite _get_and_create_ingredients_eq, for_each_cons in Hrun.
    destruct (ingredient_step_spec request recipe ingredient s) as (r1 & s1 & Hstep & Heff & Hr1).
    rewrite Hstep in Hrun. destruct r1 as [[]|e].
    + destruct Hr1 as (pk & Hm & Hpair & Hsize).
      eapply Hok; eauto.
    + injection Hrun as <- <-. by apply Hraise.
Qed.

(** The loop writes no table but [ingredients] and the recipe-ingredient pairs. *)
Lemma _get_and_create_ingredients_frame (request : Request) (recipe : Recipe)
    (ingredients0 : list NameDict) (s s' : DB) (r : result unit) :
  _get_and_create_ingredients request ingredients0 recipe s = (r, s') →
  users s' = users s ∧ recipes s' = recipes s
  ∧ tags s' = tags s
  ∧ recipe_tags s' = recipe_tags s.
Proof.
  revert ingredients0 s r s'.
  apply (_get_and_create_ingredients_ind request recipe
           (λ _ s _ s', users s' = users s ∧ recipes s' = recipes s
                        ∧ tags s' = tags s
                        ∧ recipe_tags s' = recipe_tags s)).
  - done.
  - intros ingredient ingredients0 s e s1 _ [] _. done.
  - intros ingredient ingredients0 s s1 pk r s' _ [] _ _ _ _ (-> & -> & -> & ->). done.
Qed.

(** Rows of [ingredients] are only added, each for a submitted name that matched
    nothing. *)
Lemma _get_and_create_ingredients_rows (request : Request) (recipe : Recipe)
    (ingredients0 : list NameDict) (s s' : DB) (r : result unit) :
  _get_and_create_ingredients request ingredients0 recipe s = (r, s') →
  ingredients s ⊆ ingredients s'
  ∧ ∀ pk t, ingredients s' !! pk = Some t →
      ingredients s !! pk = Some t
      ∨ ∃ ingredient, ingredient ∈ ingredients0
          ∧ t = ingredient_row (request_user request) (dict_name ingredient)
          ∧ ingredients_matching (request_user request) (dict_name ingredient) s = ∅.
Proof.
  revert ingredients0 s r s'.
  apply (_get_and_create_ingredients_ind request recipe
           (λ ingredients0 s _ s',
              ingredients s ⊆ ingredients s'
              ∧ ∀ pk t, ingredients s' !! pk = Some t →
                  ingredients s !! pk = Some t
                  ∨ ∃ ingredient, ingredient ∈ ingredients0
                      ∧ t = ingredient_row (request_user request) (dict_name ingredient)
                      ∧ ingredients_matching (request_user request) (dict_name ingredient) s = ∅)).
  - intros s. split; [done|]. auto.
  - intros ingredient ingredients0 s e s1 _ [_ _ _ _ Ht _] _.
    destruct Ht as [->|(Hm & _ & ->)]; [split; [done|auto]|].
    split; [apply insert_subseteq, new_pk_fresh|].
    intros pk t [[<- <-]|[_ ?]]%lookup_insert_Some; [|auto].
    right. exists ingredient. split; [apply list_elem_of_here|done].
  - intros ingredient ingredients0 s s1 pk0 r s' _ [_ _ _ _ Ht _] _ _ _ _ [Hsub Hnew].
    assert (ingredients s ⊆ ingredients s1) as Hsub1.
    { destruct Ht as [->|(_ & _ & ->)]; [done|].
      apply insert_subseteq, new_pk_fresh. }
    split; [by etrans|].
    intros pk t Hpk. destruct (Hnew pk t Hpk) as [Hold|(ingredient' & Hin & -> & Hm)].
    + destruct Ht as [Ht|(Hm & _ & Ht)]; rewrite Ht in Hold; [auto|].
      apply lookup_insert_Some in Hold as [[<- <-]|[_ ?]]; [|auto].
      right. exists ingredient. split; [apply list_elem_of_here|done].
    + right. exists ingredient'. split; [by apply list_elem_of_further|]. split; [done|].
      apply map_empty. intros i. apply eq_None_not_Some. intros [x Hx].
      assert (ingredients_matching (request_user request) (dict_name ingredient') s1 !! i = Some x)
        as Hx1.
      { eapply lookup_weaken; [done|].
        by apply map_filter_subseteq_mono. }
      by rewrite Hm in Hx1.
Qed.

Lemma ingredient_step_effect_matching (owner rid : nat) (n : string) (s s1 : DB)
    (owner' : nat) (n' : string) :
  ingredient_step_effect owner rid n s s1 →
  ingredients_matching owner' n' s ≠ ∅ ∨ ¬ (owner' = owner ∧ n' = n) →
  ingredients_matching owner' n' s1 = ingredients_matching owner' n' s.
Proof.
  intros [_ _ _ _ Ht _] Hne.
  destruct Ht as [Ht|(Hm & _ & Ht)]; [by apply ingredients_matching_ext|].
  rewrite (ingredients_matching_insert owner owner' n n' _ s s1 (new_pk_fresh _) Ht).
  destruct (decide (owner' = owner ∧ n' = n)) as [[-> ->]|?]; [|done].
  destruct Hne as [Hne|Hne]; [done|]. by destruct Hne.
Qed.

Lemma ingredient_step_effect_size (owner rid : nat) (n : string) (s s1 : DB)
    (owner' : nat) (n' : string) :
  ingredient_step_effect owner rid n s s1 →
  size (ingredients_matching owner' n' s) ≤ 1 →
  size (ingredients_matching owner' n' s1) ≤ 1.
Proof.
  intros [_ _ _ _ Ht _] Hsize.
  destruct Ht as [Ht|(Hm & _ & Ht)];
    [by rewrite (ingredients_matching_ext _ _ s s1)|].
  rewrite (ingredients_matching_insert owner owner' n n' _ s s1 (new_pk_fresh _) Ht).
  destruct (decide (owner' = owner ∧ n' = n)) as [[-> ->]|?]; [|done].
  rewrite Hm, insert_empty, map_size_singleton. done.
Qed.

(** A name that matches some row keeps exactly its rows through the loop,
    and so does every name of another user or outside the list. *)
Lemma _get_and_create_ingredients_matching (request : Request) (recipe : Recipe)
    (ingredients0 : list NameDict) (s s' : DB) (r : result unit)
    (owner' : nat) (n' : string) :
  _get_and_create_ingredients request ingredients0 recipe s = (r, s') →
  ingredients_matching owner' n' s ≠ ∅
  ∨ ¬ (owner' = request_user request ∧ n' ∈ dict_name <$> ingredients0) →
  ingredients_matching owner' n' s' = ingredients_matching owner' n' s.
Proof.
  revert ingredients0 s r s'.
  apply (_get_and_create_ingredients_ind request recipe
           (λ ingredients0 s _ s',
              ingredients_matching owner' n' s ≠ ∅
              ∨ ¬ (owner' = request_user request ∧ n' ∈ dict_name <$> ingredients0) →
              ingredients_matching owner' n' s' = ingredients_matching owner' n' s)).
  - done.
  - intros ingredient ingredients0 s e s1 _ Heff _ Hne.
    apply (ingredient_step_effect_matching _ _ _ _ _ _ _ Heff).
    destruct Hne as [?|Hne]; [by left|]. right. intros [-> ->].
    apply Hne. split; [done|]. rewrite fmap_cons. apply list_elem_of_here.
  - intros ingredient ingredients0 s s1 pk r s' _ Heff _ _ _ _ IH Hne.
    assert (ingredients_matching owner' n' s1 = ingredients_matching owner' n' s) as E.
    { apply (ingredient_step_effect_matching _ _ _ _ _ _ _ Heff).
      destruct Hne as [?|Hne]; [by left|]. right. intros [-> ->].
      apply Hne. split; [done|]. rewrite fmap_cons. apply list_elem_of_here. }
    rewrite <- E. apply IH. rewrite E.
    destruct Hne as [?|Hne]; [by left|]. right. intros [-> Hin].
    apply Hne. split; [done|]. rewrite fmap_cons. by apply list_elem_of_further.
Qed.

(** A name with at most one row has at most one row after the loop. *)
Lemma _get_and_create_ingredients_size (request : Request) (recipe : Recipe)
    (ingredients0 : list NameDict) (s s' : DB) (r : result unit)
    (owner' : nat) (n' : string) :
  _get_and_create_ingredients request ingredients0 recipe s = (r, s') →
  size (ingredients_matching owner' n' s) ≤ 1 →
  size (ingredients_matching owner' n' s') ≤ 1.
Proof.
  revert ingredients0 s r s'.
  apply (_get_and_create_ingredients_ind request recipe
           (λ _ s _ s', size (ingredients_matching owner' n' s) ≤ 1 →
                        size (ingredients_matching owner' n' s') ≤ 1)).
  - done.
  - intros ingredient ingredients0 s e s1 _ Heff _. by eapply ingredient_step_effect_size.
  - intros ingredient ingredients0 s s1 pk r s' _ Heff _ _ _ _ IH Hsize.
    apply IH. by eapply ingredient_step_effect_size.
Qed.

(** Pairs are only added, each for the recipe and a row of a submitted
    name. *)
Lemma _get_and_create_ingredients_pairs (request : Request) (recipe : Recipe)
    (ingredients0 : list NameDict) (s s' : DB) (r : result unit) :
  _get_and_create_ingredients request ingredients0 recipe s = (r, s') →
  recipe_ingredients s ⊆ recipe_ingredients s'
  ∧ ∀ p, p ∈ recipe_ingredients s' →
      p ∈ recipe_ingredients s
      ∨ ∃ ingredient pk, ingredient ∈ ingredients0 ∧ p = (id recipe, pk)
          ∧ ingredients s' !! pk = Some (ingredient_row (request_user request) (dict_name ingredient)).
Proof.
  intros Hrun. revert ingredients0 s r s' Hrun.
  apply (_get_and_create_ingredients_ind request recipe
    (λ ingredients0 s _ s',
       recipe_ingredients s ⊆ recipe_ingredients s'
       ∧ ∀ p, p ∈ recipe_ingredients s' →
           p ∈ recipe_ingredients s
           ∨ ∃ ingredient pk, ingredient ∈ ingredients0 ∧ p = (id recipe, pk)
               ∧ ingredients s' !! pk
                 = Some (ingredient_row (request_user request) (dict_name ingredient)))).
  - intros s. split; [done|auto].
  - intros ingredient ingredients0 s e s1 _ [_ _ _ _ _ Hp] _.
    destruct Hp as [->|(pk & Hpk & ->)]; [split; [done|auto]|].
    split; [apply union_subseteq_r|].
    intros p [->%elem_of_singleton|?]%elem_of_union; [|auto].
    right. exists ingredient, pk. split; [apply list_elem_of_here|]. split; [done|].
    by apply ingredients_matching_lookup in Hpk as [? _].
  - intros ingredient ingredients0 s s1 pk0 r s' _ [_ _ _ _ _ Hp] _ _ _ Hrest [Hsub Hnew].
    apply _get_and_create_ingredients_rows in Hrest as [Hrows _].
    assert (recipe_ingredients s ⊆ recipe_ingredients s1) as Hsub1.
    { destruct Hp as [->|(? & ? & ->)]; [done|apply union_subseteq_r]. }
    split; [by etrans|].
    intros p Hin. destruct (Hnew p Hin) as [Hold|(ingredient' & pk & ? & -> & ?)].
    + destruct Hp as [Hp|(pk & Hpk & Hp)]; rewrite Hp in Hold; [auto|].
      apply elem_of_union in Hold as [->%elem_of_singleton|?]; [|auto].
      right. exists ingredient, pk. split; [apply list_elem_of_here|]. split; [done|].
      apply ingredients_matching_lookup in Hpk as [Hpk _].
      by eapply lookup_weaken.
    + right. exists ingredient', pk. split; [by apply list_elem_of_further|done].
Qed.

(** When the loop returns, every submitted name has exactly one row, and
    that row is attached to the recipe. *)
Lemma _get_and_create_ingredients_Ok (request : Request) (recipe : Recipe)
    (ingredients0 : list NameDict) (s s' : DB) :
  _get_and_create_ingredients request ingredients0 recipe s = (Ok tt, s') →
  ∀ ingredient, ingredient ∈ ingredients0 →
    ∃ pk, ingredients_matching (request_user request) (dict_name ingredient) s'
            = {[ pk := ingredient_row (request_user request) (dict_name ingredient) ]}
          ∧ (id recipe, pk) ∈ recipe_ingredients s'
          ∧ size (ingredients_matching (request_user request) (dict_name ingredient) s) ≤ 1.
Proof.
  intros Hrun.
  cut (∀ r, _get_and_create_ingredients request ingredients0 recipe s = (r, s') → r = Ok tt →
         ∀ ingredient, ingredient ∈ ingredients0 →
           ∃ pk, ingredients_matching (request_user request) (dict_name ingredient) s'
                   = {[ pk := ingredient_row (request_user request) (dict_name ingredient) ]}
                 ∧ (id recipe, pk) ∈ recipe_ingredients s'
                 ∧ size (ingredients_matching (request_user request) (dict_name ingredient) s) ≤ 1);
    [by eauto|].
  clear Hrun. intros r Hrun. revert ingredients0 s r s' Hrun.
  apply (_get_and_create_ingredients_ind request recipe
    (λ ingredients0 s r s',
       r = Ok tt → ∀ ingredient, ingredient ∈ ingredients0 →
         ∃ pk, ingredients_matching (request_user request) (dict_name ingredient) s'
                 = {[ pk := ingredient_row (request_user request) (dict_name ingredient) ]}
               ∧ (id recipe, pk) ∈ recipe_ingredients s'
               ∧ size (ingredients_matching (request_user request) (dict_name ingredient) s) ≤ 1)).
  - intros s _ ingredient Hin. by apply elem_of_nil in Hin.
  - done.
  - intros ingredient ingredients0 s s1 pk r s' _ Heff Hm Hpair Hsize Hrest IH -> ingredient' Hin.
    apply elem_of_cons in Hin as [->|Hin].
    + exists pk. split_and!; [|..|done].
      * rewrite <- Hm. eapply _get_and_create_ingredients_matching; [done|].
        left. rewrite Hm. apply insert_non_empty.
      * by apply (_get_and_create_ingredients_pairs _ _ _ _ _ _ Hrest).
    + destruct (IH eq_refl ingredient' Hin) as (pk' & ? & ? & Hsize').
      exists pk'. split_and!; [done..|].
      destruct (decide (size (ingredients_matching (request_user request)
                                 (dict_name ingredient') s) ≤ 1)) as [|Hbig]; [done|].
      assert (ingredients_matching (request_user request) (dict_name ingredient') s ≠ ∅) as Hne.
      { intros E. rewrite E, map_size_empty in Hbig. lia. }
      rewrite (ingredient_step_effect_matching _ _ _ _ _ _ _ Heff) in Hsize'
        by (by left). done.
Qed.

(** *** Running the loop again *)

Lemma Ingredient_objects_get_or_create_found (owner : nat) (n : string) (s : DB) (pk : nat) :
  ingredients_matching owner n s = {[ pk := ingredient_row owner n ]} →
  Ingredient_objects_get_or_create owner n s = (Ok (pk, false), s).
Proof.
  intros Hm.
  destruct (Ingredient_objects_get_or_create_spec owner n s) as [pk' Hm'|Hm' _|Hm' _|Hm'].
  - rewrite Hm in Hm'. apply (f_equal dom) in Hm'.
    rewrite !dom_singleton_L in Hm'. apply singleton_inj in Hm'. by subst.
  - rewrite Hm in Hm'. by apply map_non_empty_singleton in Hm'.
  - rewrite Hm in Hm'. by apply map_non_empty_singleton in Hm'.
  - rewrite Hm, map_size_singleton in Hm'. lia.
Qed.



Lemma ingredient_step_stable (request : Request) (recipe : Recipe) (ingredient : NameDict)
    (s : DB) (pk : nat) :
  ingredients_matching (request_user request) (dict_name ingredient) s
    = {[ pk := ingredient_row (request_user request) (dict_name ingredient) ]} →
  (id recipe, pk) ∈ recipe_ingredients s →
  ingredient_step request recipe ingredient s = (Ok tt, s).
Proof.
  intros Hm Hpair. unfold ingredient_step.
  erewrite bind_Ok by (by apply Ingredient_objects_get_or_create_found).
  cbn [fst]. rewrite ingredients_add_Ok by (by left).
  by rewrite set_recipe_ingredients_absorb.
Qed.




(** Why the loop raises: a submitted name matches several rows, or the
    user's or the recipe's row is missing. *)
Lemma _get_and_create_ingredients_Raise (request : Request) (recipe : Recipe)
    (ingredients0 : list NameDict) (s s' : DB) (e : exn) :
  _get_and_create_ingredients request ingredients0 recipe s = (Raise e, s') →
  (e = MultipleObjectsReturned
     ∧ ∃ ingredient, ingredient ∈ ingredients0
        ∧ 2 ≤ size (ingredients_matching (request_user request) (dict_name ingredient) s))
  ∨ (e = IntegrityError
     ∧ (request_user request ∉ dom (users s) ∨ id recipe ∉ dom (recipes s))).
Proof.
  intros Hrun.
  cut (∀ r, _get_and_create_ingredients request ingredients0 recipe s = (r, s') → r = Raise e →
    (e = MultipleObjectsReturned
       ∧ ∃ ingredient, ingredient ∈ ingredients0
          ∧ 2 ≤ size (ingredients_matching (request_user request) (dict_name ingredient) s))
    ∨ (e = IntegrityError
       ∧ (request_user request ∉ dom (users s) ∨ id recipe ∉ dom (recipes s))));
    [by eauto|].
  clear Hrun. intros r Hrun. revert ingredients0 s r s' Hrun.
  apply (_get_and_create_ingredients_ind request recipe
    (λ ingredients0 s r _,
       r = Raise e →
       (e = MultipleObjectsReturned
          ∧ ∃ ingredient, ingredient ∈ ingredients0
             ∧ 2 ≤ size (ingredients_matching (request_user request) (dict_name ingredient) s))
       ∨ (e = IntegrityError
          ∧ (request_user request ∉ dom (users s)
             ∨ id recipe ∉ dom (recipes s))))).
  - done.
  - intros ingredient ingredients0 s e' s1 _ _ Hwhy [= ->].
    destruct Hwhy as [[-> ?]|?]; [left|by right].
    split; [done|]. exists ingredient. split; [apply list_elem_of_here|done].
  - intros ingredient ingredients0 s s1 pk r s' _ Heff _ _ _ _ IH Hr.
    destruct (IH Hr) as [(-> & ingredient' & Hin & Hbig)|(-> & Hmiss)].
    + left. split; [done|]. exists ingredient'. split; [by apply list_elem_of_further|].
      destruct (decide (2 ≤ size (ingredients_matching (request_user request)
                                    (dict_name ingredient') s))) as [|Hsmall]; [done|].
      assert (size (ingredients_matching (request_user request) (dict_name ingredient') s1) ≤ 1);
        [|lia].
      eapply ingredient_step_effect_size; [done|lia].
    + right. split; [done|]. destruct Heff as [Eu Er _ _ _ _].
      by rewrite Eu, Er in Hmiss.
Qed.

(** A loop that raises stopped at one name: the names before it are
    resolved and attached, and the round of that name raised. *)
Lemma _get_and_create_ingredients_stopped (request : Request) (recipe : Recipe)
    (ingredients0 : list NameDict) (s s' : DB) (e : exn) :
  _get_and_create_ingredients request ingredients0 recipe s = (Raise e, s') →
  ∃ pre failing rest,
    ingredients0 = pre ++ failing :: rest
    ∧ (∀ ingredient, ingredient ∈ pre →
         ∃ pk, ingredients_matching (request_user request) (dict_name ingredient) s'
                 = {[ pk := ingredient_row (request_user request) (dict_name ingredient) ]}
               ∧ (id recipe, pk) ∈ recipe_ingredients s')
    ∧ ((e = MultipleObjectsReturned
        ∧ 2 ≤ size (ingredients_matching (request_user request) (dict_name failing) s))
       ∨ (e = IntegrityError
          ∧ (request_user request ∉ dom (users s) ∨ id recipe ∉ dom (recipes s)))).
Proof.
  intros Hrun.
  cut (∀ r, _get_and_create_ingredients request ingredients0 recipe s = (r, s') → r = Raise e →
    ∃ pre failing rest,
      ingredients0 = pre ++ failing :: rest
      ∧ (∀ ingredient, ingredient ∈ pre →
           ∃ pk, ingredients_matching (request_user request) (dict_name ingredient) s'
                   = {[ pk := ingredient_row (request_user request) (dict_name ingredient) ]}
                 ∧ (id recipe, pk) ∈ recipe_ingredients s')
      ∧ ((e = MultipleObjectsReturned
          ∧ 2 ≤ size (ingredients_matching (request_user request) (dict_name failing) s))
         ∨ (e = IntegrityError
            ∧ (request_user request ∉ dom (users s)
               ∨ id recipe ∉ dom (recipes s)))));
    [by eauto|].
  clear Hrun. intros r Hrun. revert ingredients0 s r s' Hrun.
  apply (_get_and_create_ingredients_ind request recipe
    (λ ingredients0 s r s',
       r = Raise e →
       ∃ pre failing rest,
         ingredients0 = pre ++ failing :: rest
         ∧ (∀ ingredient, ingredient ∈ pre →
              ∃ pk, ingredients_matching (request_user request) (dict_name ingredient) s'
                      = {[ pk := ingredient_row (request_user request) (dict_name ingredient) ]}
                    ∧ (id recipe, pk) ∈ recipe_ingredients s')
         ∧ ((e = MultipleObjectsReturned
             ∧ 2 ≤ size (ingredients_matching (request_user request)
                           (dict_name failing) s))
            ∨ (e = IntegrityError
               ∧ (request_user request ∉ dom (users s)
                  ∨ id recipe ∉ dom (recipes s)))))).
  - done.
  - intros ingredient ingredients0 s e' s1 _ _ Hwhy [= ->].
    exists [], ingredient, ingredients0. split; [done|]. split; [|done].
    by intros ingredient' ?%elem_of_nil.
  - intros ingredient ingredients0 s s1 pk r s' _ Heff Hm Hpair _ Hrest IH Hr.
    destruct (IH Hr) as (pre & failing & rest & -> & Hatt & Hwhy).
    exists (ingredient :: pre), failing, rest. split; [done|]. split.
    + intros ingredient' Hin. apply elem_of_cons in Hin as [->|Hin]; [|by apply Hatt].
      exists pk. split.
      * rewrite <- Hm. eapply _get_and_create_ingredients_matching; [done|].
        left. rewrite Hm. apply insert_non_empty.
      * by apply (_get_and_create_ingredients_pairs _ _ _ _ _ _ Hrest).
    + destruct Hwhy as [[-> Hbig]|[-> Hmiss]]; [left|right]; (split; [done|]).
      * destruct (decide (2 ≤ size (ingredients_matching (request_user request)
                                      (dict_name failing) s))) as [|Hsmall]; [done|].
        assert (size (ingredients_matching (request_user request) (dict_name failing) s1)
                ≤ 1); [|lia].
        eapply ingredient_step_effect_size; [done|lia].
      * destruct Heff as [Eu Er _ _ _ _]. by rewrite Eu, Er in Hmiss.
Qed.

(** The loop returns when the user and the recipe are in the store and no
    submitted name matches more than one row. *)
Lemma _get_and_create_ingredients_returns (request : Request) (recipe : Recipe)
    (ingredients0 : list NameDict) (s : DB) :
  request_user request ∈ dom (users s) →
  id recipe ∈ dom (recipes s) →
  (∀ ingredient, ingredient ∈ ingredients0 →
     size (ingredients_matching (request_user request) (dict_name ingredient) s) ≤ 1) →
  ∃ s', _get_and_create_ingredients request ingredients0 recipe s = (Ok tt, s').
Proof.
  intros Hu Hr Hone.
  destruct (_get_and_create_ingredients request ingredients0 recipe s) as [[[]|e] s'] eqn:Hrun;
    [by eauto|].
  apply _get_and_create_ingredients_Raise in Hrun
    as [(_ & ingredient & Hin & Hbig)|(_ & [?|?])]; [|done..].
  specialize (Hone ingredient Hin). lia.
Qed.

(** [instance.ingredients.clear()] empties the recipe's set and nothing else. *)
Lemma ingredients_clear_spec (instance : Recipe) (s : DB) :
  ∃ s1, ingredients_clear instance s = (Ok tt, s1)
        ∧ users s1 = users s ∧ recipes s1 = recipes s ∧ ingredients s1 = ingredients s
        ∧ tags s1 = tags s
        ∧ recipe_tags s1 = recipe_tags s
        ∧ (∀ rid pk, (rid, pk) ∈ recipe_ingredients s1
                     ↔ (rid, pk) ∈ recipe_ingredients s ∧ rid ≠ id instance).
Proof.
  eexists. split; [reflexivity|]. simpl. split_and!; try done.
  intros rid pk. rewrite elem_of_filter. simpl. tauto.
Qed.

End IngredientFacts.

(** ** Part VII. Facts about recipes *)

Section RecipeFacts.
Import Models Serializers.
Local Open Scope nat_scope.

Lemma setattr_id (instance : Recipe) (fv : field_value) :
  id (setattr instance fv) = id instance.
Proof. by destruct fv. Qed.

Lemma fold_setattr_id (kwargs : list field_value) (instance : Recipe) :
  id (fold_left setattr kwargs instance) = id instance.
Proof.
  revert instance. induction kwargs as [|fv kwargs IH]; intros instance; [done|].
  simpl. by rewrite IH, setattr_id.
Qed.

(** Reading an attribute after an assignment. *)
Lemma getattr_setattr (instance : Recipe) (fv : field_value) (attr : string) :
  getattr (setattr instance fv) attr
  = if decide (attr_name fv = attr) then Some fv else getattr instance attr.
Proof.
  destruct fv; simpl attr_name; case_decide as Hattr;
    try (subst attr; reflexivity);
    unfold getattr;
    match type of Hattr with
    | ?name ≠ _ =>
        assert (String.eqb attr name = false) as Hb
          by (apply String.eqb_neq; congruence)
    end;
    simpl; rewrite ?Hb; reflexivity.
Qed.

Lemma lookup_attr_snoc (attr : string) (kwargs : list field_value) (fv : field_value) :
  lookup_attr attr (kwargs ++ [fv])
  = if decide (attr_name fv = attr) then Some fv else lookup_attr attr kwargs.
Proof.
  unfold lookup_attr. rewrite filter_app, filter_cons, filter_nil.
  case_decide; [by rewrite last_snoc | by rewrite app_nil_r].
Qed.

(** The loop [for attr, value in validated_data.items(): setattr(...)],
    attribute by attribute. *)
Lemma getattr_fold_setattr (kwargs : list field_value) (instance : Recipe)
    (attr : string) :
  getattr (fold_left setattr kwargs instance) attr
  = match lookup_attr attr kwargs with
    | Some fv => Some fv
    | None => getattr instance attr
    end.
Proof.
  induction kwargs as [|fv kwargs IH] using rev_ind; [done|].
  rewrite fold_left_app. simpl.
  rewrite getattr_setattr, lookup_attr_snoc.
  case_decide; [done | apply IH].
Qed.

Lemma lookup_attr_name (attr : string) (kwargs : list field_value) (fv : field_value) :
  lookup_attr attr kwargs = Some fv → attr_name fv = attr ∧ fv ∈ kwargs.
Proof.
  unfold lookup_attr. intros H%last_Some_elem_of.
  by apply list_elem_of_filter in H as [? ?].
Qed.

(** What [Recipe.objects.create] does. *)
Lemma Recipe_objects_create_spec (kwargs : list field_value) (s : DB) :
  (∃ owner,
     lookup_attr "user" kwargs = Some (F_user owner)
     ∧ owner ∈ dom (users s)
     ∧ let recipe :=
         fold_left setattr kwargs (default_recipe (new_pk (recipes s)) owner) in
       Recipe_objects_create kwargs s
       = (Ok recipe, set_recipes (insert (new_pk (recipes s)) recipe) s))
  ∨ Recipe_objects_create kwargs s = (Raise IntegrityError, s).
Proof.
  unfold Recipe_objects_create.
  destruct (lookup_attr "user" kwargs) as [fv|] eqn:E; [|by right].
  pose proof (lookup_attr_name _ _ _ E) as [Hname _].
  destruct fv; try done.
  unfold bind, get_db. destruct (decide (v ∈ dom (users s))); [|by right].
  left. exists v. split_and!; [done..|].
  simpl. unfold modify_db, ret. by rewrite fold_setattr_id.
Qed.

Lemma Recipe_objects_create_Ok (kwargs : list field_value) (s s1 : DB) (recipe : Recipe) :
  Recipe_objects_create kwargs s = (Ok recipe, s1) →
  id recipe = new_pk (recipes s)
  ∧ recipes s !! id recipe = None
  ∧ s1 = set_recipes (insert (id recipe) recipe) s
  ∧ user recipe ∈ dom (users s)
  ∧ ∃ owner, recipe = fold_left setattr kwargs (default_recipe (id recipe) owner).
Proof.
  destruct (Recipe_objects_create_spec kwargs s) as [(owner & Hl & Hu & Heq)|Heq];
    rewrite Heq; [|done].
  intros [= <- <-]. rewrite fold_setattr_id. simpl.
  split_and!; [done | apply new_pk_fresh | done | | by exists owner].
  pose proof (getattr_fold_setattr kwargs
                (default_recipe (new_pk (recipes s)) owner) "user") as Hg.
  rewrite Hl in Hg. by injection Hg as ->.
Qed.

Lemma Recipe_objects_create_Raise (kwargs : list field_value) (s s1 : DB) (e : exn) :
  Recipe_objects_create kwargs s = (Raise e, s1) → s1 = s ∧ e = IntegrityError.
Proof.
  destruct (Recipe_objects_create_spec kwargs s) as [(owner & Hl & Hu & Heq)|Heq];
    rewrite Heq; [done|]. by intros [= <- <-].
Qed.

Lemma Recipe_save_spec (instance : Recipe) (s : DB) :
  Recipe_save instance s
  = if decide (user instance ∈ dom (users s))
    then (Ok tt, set_recipes (insert (id instance) instance) s)
    else (Raise IntegrityError, s).
Proof. unfold Recipe_save, bind, get_db. by case_decide. Qed.

End RecipeFacts.

Section TagPhase.
Import Models Serializers.
Local Open Scope nat_scope.

(** What the block leaves when it returns. *)
Lemma update_tags_Ok (request : Request) (instance : Recipe)
    (tags0 : option (list NameDict)) (s s1 : DB) :
  update_tags request instance tags0 s = (Ok tt, s1) →
  users s1 = users s ∧ recipes s1 = recipes s
  ∧ ingredients s1 = ingredients s
  ∧ recipe_ingredients s1 = recipe_ingredients s
  ∧ match tags0 with
    | None => s1 = s
    | Some l =>
        (∀ pk, pk ∈ tags_of (id instance) s1 ↔
               ∃ tag, tag ∈ l
                 ∧ tags s1 !! pk
                   = Some (tag_row (request_user request) (dict_name tag)))
        ∧ (∀ tag, tag ∈ l →
             ∃ pk, tags_matching (request_user request) (dict_name tag) s1
                   = {[ pk := tag_row (request_user request) (dict_name tag) ]})
    end.
Proof.
  destruct tags0 as [l|]; simpl; [|by intros [= <-]].
  destruct (tags_clear_spec instance s)
    as (s0 & Hclear & Hu & Hr & Ht & Hi & Hri & Hpairs).
  unfold bind. rewrite Hclear. intros Hrun.
  destruct (_get_and_create_tags_frame _ _ _ _ _ _ Hrun) as (-> & -> & -> & ->).
  split_and!; [done..| |].
  - intros pk. rewrite elem_of_tags_of. split.
    + intros Hin.
      apply (_get_and_create_tags_pairs _ _ _ _ _ _ Hrun) in Hin
        as [Hold|(tag & pk' & Hin & [= <-] & Hrow)].
      * apply Hpairs in Hold as [_ Hne]. done.
      * by exists tag.
    + intros (tag & Hin & Hrow).
      destruct (_get_and_create_tags_Ok _ _ _ _ _ Hrun tag Hin)
        as (pk' & Hm & Hpair & _).
      assert (tags_matching (request_user request) (dict_name tag) s1 !! pk
              = Some (tag_row (request_user request) (dict_name tag))) as Hpk
        by (by apply tags_matching_lookup).
      rewrite Hm in Hpk. apply lookup_singleton_Some in Hpk as [<- _]. done.
  - intros tag Hin.
    destruct (_get_and_create_tags_Ok _ _ _ _ _ Hrun tag Hin) as (pk & Hm & _).
    by exists pk.
Qed.

(** Whatever its outcome, the block writes only [tags] and the recipe-tag
    pairs. *)
Lemma update_tags_frame (request : Request) (instance : Recipe)
    (tags0 : option (list NameDict)) (s s1 : DB) (r : result unit) :
  update_tags request instance tags0 s = (r, s1) →
  users s1 = users s ∧ recipes s1 = recipes s
  ∧ ingredients s1 = ingredients s
  ∧ recipe_ingredients s1 = recipe_ingredients s.
Proof.
  destruct tags0 as [l|]; simpl; [|by intros [= <- <-]].
  destruct (tags_clear_spec instance s)
    as (s0 & Hclear & Hu & Hr & Ht & Hi & Hri & Hpairs).
  unfold bind. rewrite Hclear. intros Hrun.
  by destruct (_get_and_create_tags_frame _ _ _ _ _ _ Hrun) as (-> & -> & -> & ->).
Qed.

End TagPhase.

Section IngredientPhase.
Import Models Serializers.
Local Open Scope nat_scope.

(** What the block leaves when it returns. *)
Lemma update_ingredients_Ok (request : Request) (instance : Recipe)
    (ingredients0 : option (list NameDict)) (s s1 : DB) :
  update_ingredients request instance ingredients0 s = (Ok tt, s1) →
  users s1 = users s ∧ recipes s1 = recipes s
  ∧ tags s1 = tags s
  ∧ recipe_tags s1 = recipe_tags s
  ∧ match ingredients0 with
    | None => s1 = s
    | Some l =>
        (∀ pk, pk ∈ ingredients_of (id instance) s1 ↔
               ∃ ingredient, ingredient ∈ l
                 ∧ ingredients s1 !! pk
                   = Some (ingredient_row (request_user request) (dict_name ingredient)))
        ∧ (∀ ingredient, ingredient ∈ l →
             ∃ pk, ingredients_matching (request_user request) (dict_name ingredient) s1
                   = {[ pk := ingredient_row (request_user request) (dict_name ingredient) ]})
    end.
Proof.
  destruct ingredients0 as [l|]; simpl; [|by intros [= <-]].
  destruct (ingredients_clear_spec instance s)
    as (s0 & Hclear & Hu & Hr & Ht & Hi & Hri & Hpairs).
  unfold bind. rewrite Hclear. intros Hrun.
  destruct (_get_and_create_ingredients_frame _ _ _ _ _ _ Hrun) as (-> & -> & -> & ->).
  split_and!; [done..| |].
  - intros pk. rewrite elem_of_ingredients_of. split.
    + intros Hin.
      apply (_get_and_create_ingredients_pairs _ _ _ _ _ _ Hrun) in Hin
        as [Hold|(ingredient & pk' & Hin & [= <-] & Hrow)].
      * apply Hpairs in Hold as [_ Hne]. done.
      * by exists ingredient.
    + intros (ingredient & Hin & Hrow).
      destruct (_get_and_create_ingredients_Ok _ _ _ _ _ Hrun ingredient Hin)
        as (pk' & Hm & Hpair & _).
      assert (ingredients_matching (request_user request) (dict_name ingredient) s1 !! pk
              = Some (ingredient_row (request_user request) (dict_name ingredient))) as Hpk
        by (by apply ingredients_matching_lookup).
      rewrite Hm in Hpk. apply lookup_singleton_Some in Hpk as [<- _]. done.
  - intros ingredient Hin.
    destruct (_get_and_create_ingredients_Ok _ _ _ _ _ Hrun ingredient Hin) as (pk & Hm & _).
    by exists pk.
Qed.

(** Whatever its outcome, the block writes only [ingredients] and the recipe-ingredient
    pairs. *)
Lemma update_ingredients_frame (request : Request) (instance : Recipe)
    (ingredients0 : option (list NameDict)) (s s1 : DB) (r : result unit) :
  update_ingredients request instance ingredients0 s = (r, s1) →
  users s1 = users s ∧ recipes s1 = recipes s
  ∧ tags s1 = tags s
  ∧ recipe_tags s1 = recipe_tags s.
Proof.
  destruct ingredients0 as [l|]; simpl; [|by intros [= <- <-]].
  destruct (ingredients_clear_spec instance s)
    as (s0 & Hclear & Hu & Hr & Ht & Hi & Hri & Hpairs).
  unfold bind. rewrite Hclear. intros Hrun.
  by destruct (_get_and_create_ingredients_frame _ _ _ _ _ _ Hrun) as (-> & -> & -> & ->).
Qed.

End IngredientPhase.

(** ** Part VIII. The serializer's writes *)

Section CreateFacts.
Import Models Serializers.
Local Open Scope nat_scope.

Lemma create_unfold (request : Request) (validated_data : ValidatedData) (s : DB) :
  create request validated_data s
  = match Recipe_objects_create (vd_fields validated_data) s with
    | (Raise e, s1) => (Raise e, s1)
    | (Ok recipe, s1) =>
        match _get_and_create_tags request
                (default [] (vd_tags validated_data)) recipe s1 with
        | (Raise e, s2) => (Raise e, s2)
        | (Ok _, s2) =>
            match _get_and_create_ingredients request
                    (default [] (vd_ingredients validated_data)) recipe s2 with
            | (Raise e, s3) => (Raise e, s3)
            | (Ok _, s3) => (Ok recipe, s3)
            end
        end
    end.
Proof.
  unfold create, bind.
  destruct (Recipe_objects_create _ s) as [[recipe|e] s1]; [|done].
  destruct (_get_and_create_tags _ _ recipe s1) as [[[]|e] s2]; [|done].
  by destruct (_get_and_create_ingredients _ _ recipe s2) as [[[]|e] s3].
Qed.

(** A [create] that returns went through its three steps. *)
Lemma create_Ok (request : Request) (validated_data : ValidatedData)
    (s s' : DB) (recipe : Recipe) :
  create request validated_data s = (Ok recipe, s') →
  ∃ s1 s2,
    Recipe_objects_create (vd_fields validated_data) s = (Ok recipe, s1)
    ∧ _get_and_create_tags request
        (default [] (vd_tags validated_data)) recipe s1 = (Ok tt, s2)
    ∧ _get_and_create_ingredients request
        (default [] (vd_ingredients validated_data)) recipe s2 = (Ok tt, s').
Proof.
  rewrite create_unfold.
  destruct (Recipe_objects_create _ s) as [[recipe'|e] s1]; [|done].
  destruct (_get_and_create_tags _ _ recipe' s1) as [[[]|e] s2] eqn:Ht; [|done].
  destruct (_get_and_create_ingredients _ _ recipe' s2) as [[[]|e] s3] eqn:Hi;
    [|done].
  intros [= -> ->]. by exists s1, s2.
Qed.

(** The tables after a [create] that returns. *)
Lemma create_Ok_store (request : Request) (validated_data : ValidatedData)
    (s s' : DB) (recipe : Recipe) :
  create request validated_data s = (Ok recipe, s') →
  users s' = users s
  ∧ recipes s !! id recipe = None
  ∧ recipes s' = <[id recipe := recipe]> (recipes s)
  ∧ tags s ⊆ tags s' ∧ ingredients s ⊆ ingredients s'
  ∧ recipe_tags s ⊆ recipe_tags s'
  ∧ recipe_ingredients s ⊆ recipe_ingredients s'
  ∧ (∀ tag, tag ∈ default [] (vd_tags validated_data) →
       ∃ pk, tags_matching (request_user request) (dict_name tag) s'
               = {[ pk := tag_row (request_user request) (dict_name tag) ]}
             ∧ pk ∈ tags_of (id recipe) s')
  ∧ (∀ ingredient, ingredient ∈ default [] (vd_ingredients validated_data) →
       ∃ pk, ingredients_matching (request_user request) (dict_name ingredient) s'
               = {[ pk := ingredient_row (request_user request)
                             (dict_name ingredient) ]}
             ∧ pk ∈ ingredients_of (id recipe) s').
Proof.
  intros (s1 & s2 & Hc & Ht & Hi)%create_Ok.
  apply Recipe_objects_create_Ok in Hc as (_ & Hfresh & -> & _ & _).
  destruct (_get_and_create_tags_frame _ _ _ _ _ _ Ht) as (Hu2 & Hr2 & Hi2 & Hri2).
  destruct (_get_and_create_ingredients_frame _ _ _ _ _ _ Hi)
    as (Hu3 & Hr3 & Ht3 & Hrt3).
  destruct (_get_and_create_tags_rows _ _ _ _ _ _ Ht) as [Hrows2 _].
  destruct (_get_and_create_ingredients_rows _ _ _ _ _ _ Hi) as [Hrows3 _].
  destruct (_get_and_create_tags_pairs _ _ _ _ _ _ Ht) as [Hp2 _].
  destruct (_get_and_create_ingredients_pairs _ _ _ _ _ _ Hi) as [Hp3 _].
  simpl in *. split_and!.
  - by rewrite Hu3, Hu2.
  - done.
  - by rewrite Hr3, Hr2.
  - by rewrite Ht3.
  - by rewrite Hi2 in Hrows3.
  - by rewrite Hrt3.
  - by rewrite Hri2 in Hp3.
  - intros tag Hin.
    destruct (_get_and_create_tags_Ok _ _ _ _ _ Ht tag Hin) as (pk & Hm & Hpair & _).
    exists pk. split.
    + rewrite <- Hm. by apply tags_matching_ext.
    + apply elem_of_tags_of. by rewrite Hrt3.
  - intros ingredient Hin.
    destruct (_get_and_create_ingredients_Ok _ _ _ _ _ Hi ingredient Hin)
      as (pk & Hm & Hpair & _).
    exists pk. split; [done|]. by apply elem_of_ingredients_of.
Qed.

End CreateFacts.

Section UpdateFacts.
Import Models Serializers.
Local Open Scope nat_scope.

Lemma update_unfold (request : Request) (instance : Recipe)
    (validated_data : ValidatedData) (s : DB) :
  update request instance validated_data s
  = match update_tags request instance (vd_tags validated_data) s with
    | (Raise e, s1) => (Raise e, s1)
    | (Ok _, s1) =>
        match update_ingredients request instance
                (vd_ingredients validated_data) s1 with
        | (Raise e, s2) => (Raise e, s2)
        | (Ok _, s2) =>
            let instance := fold_left setattr (vd_fields validated_data) instance in
            if decide (user instance ∈ dom (users s2))
            then (Ok instance, set_recipes (insert (id instance) instance) s2)
            else (Raise IntegrityError, s2)
        end
    end.
Proof.
  unfold update.
  change (match vd_tags validated_data with
          | Some tags =>
              tags_clear instance ;;; _get_and_create_tags request tags instance
          | None => ret tt
          end) with (update_tags request instance (vd_tags validated_data)).
  change (match vd_ingredients validated_data with
          | Some ingredients =>
              ingredients_clear instance ;;;
              _get_and_create_ingredients request ingredients instance
          | None => ret tt
          end)
    with (update_ingredients request instance (vd_ingredients validated_data)).
  unfold bind.
  destruct (update_tags _ _ _ s) as [[[]|e] s1]; [|done].
  destruct (update_ingredients _ _ _ s1) as [[[]|e] s2]; [|done].
  rewrite Recipe_save_spec. by case_decide.
Qed.

(** An [update] that returns went through its two blocks and the save. *)
Lemma update_Ok (request : Request) (instance : Recipe)
    (validated_data : ValidatedData) (s s' : DB) (r : Recipe) :
  update request instance validated_data s = (Ok r, s') →
  ∃ s1 s2,
    update_tags request instance (vd_tags validated_data) s = (Ok tt, s1)
    ∧ update_ingredients request instance (vd_ingredients validated_data) s1
      = (Ok tt, s2)
    ∧ r = fold_left setattr (vd_fields validated_data) instance
    ∧ user r ∈ dom (users s)
    ∧ s' = set_recipes (insert (id instance) r) s2.
Proof.
  rewrite update_unfold.
  destruct (update_tags _ _ _ s) as [[[]|e] s1] eqn:Ht; [|done].
  destruct (update_ingredients _ _ _ s1) as [[[]|e] s2] eqn:Hi; [|done].
  simpl. case_decide as Hu; [|done]. intros [= <- <-].
  exists s1, s2. split_and!; [done..| |by rewrite fold_setattr_id].
  destruct (update_tags_frame _ _ _ _ _ _ Ht) as (Hu1 & _).
  destruct (update_ingredients_frame _ _ _ _ _ _ Hi) as (Hu2 & _).
  by rewrite <- Hu1, <- Hu2.
Qed.

(** Whatever its outcome, [update] writes no row of [recipes] but, when it
    returns, the instance's. *)
Lemma update_recipes (request : Request) (instance : Recipe)
    (validated_data : ValidatedData) (s : DB) :
  let out := update request instance validated_data s in
  users out.2 = users s
  ∧ match out.1 with
    | Ok r =>
        r = fold_left setattr (vd_fields validated_data) instance
        ∧ recipes out.2 = <[id instance := r]> (recipes s)
    | Raise _ => recipes out.2 = recipes s
    end.
Proof.
  simpl. rewrite update_unfold.
  destruct (update_tags _ _ _ s) as [rt s1] eqn:Ht.
  destruct (update_tags_frame _ _ _ _ _ _ Ht) as (Hu1 & Hr1 & _).
  destruct rt as [[]|e]; [|by simpl; rewrite Hu1, Hr1].
  destruct (update_ingredients _ _ _ s1) as [ri s2] eqn:Hi.
  destruct (update_ingredients_frame _ _ _ _ _ _ Hi) as (Hu2 & Hr2 & _).
  destruct ri as [[]|e]; [|by simpl; rewrite Hu2, Hr2, Hu1, Hr1].
  simpl. case_decide; simpl; by rewrite Hu2, Hr2, Hu1, Hr1, ?fold_setattr_id.
Qed.

(** Whatever its outcome, [create] writes no row of [recipes] but the new
    one. *)
Lemma create_recipes (request : Request) (validated_data : ValidatedData) (s : DB) :
  let out := create request validated_data s in
  users out.2 = users s
  ∧ (recipes out.2 = recipes s
     ∨ ∃ owner,
         recipes s !! new_pk (recipes s) = None
         ∧ recipes out.2
           = <[new_pk (recipes s) :=
                 fold_left setattr (vd_fields validated_data)
                   (default_recipe (new_pk (recipes s)) owner)]> (recipes s)).
Proof.
  simpl. rewrite create_unfold.
  destruct (Recipe_objects_create _ s) as [[recipe|e] s1] eqn:Hc.
  2: { apply Recipe_objects_create_Raise in Hc as [-> _]. auto. }
  apply Recipe_objects_create_Ok in Hc as (Hid & Hfresh & -> & _ & owner & Hrec).
  set (s1 := set_recipes (insert (id recipe) recipe) s).
  assert (∀ s3, users s3 = users s1 → recipes s3 = recipes s1 →
            users s3 = users s
            ∧ (recipes s3 = recipes s
               ∨ ∃ owner,
                  recipes s !! new_pk (recipes s) = None
                  ∧ recipes s3
                    = <[new_pk (recipes s) :=
                          fold_left setattr (vd_fields validated_data)
                            (default_recipe (new_pk (recipes s)) owner)]>
                        (recipes s))) as Hgoal.
  { intros s3 -> ->. split; [done|]. right. exists owner.
    rewrite <- Hid. split; [done|]. simpl. by rewrite <- Hrec. }
  destruct (_get_and_create_tags _ _ recipe s1) as [rt s2] eqn:Ht.
  destruct (_get_and_create_tags_frame _ _ _ _ _ _ Ht) as (Hu2 & Hr2 & _).
  destruct rt as [[]|e]; [|by apply Hgoal].
  destruct (_get_and_create_ingredients _ _ recipe s2) as [ri s3] eqn:Hi.
  destruct (_get_and_create_ingredients_frame _ _ _ _ _ _ Hi) as (Hu3 & Hr3 & _).
  destruct ri as [[]|e]; apply Hgoal; cbn [snd]; congruence.
Qed.

(** When [update] returns: the requester and the recipe are in the store,
    the owner the instance ends with is too, and no submitted name matches
    more than one of the requester's rows. *)
Lemma update_returns (request : Request) (instance : Recipe)
    (validated_data : ValidatedData) (s : DB) :
  request_user request ∈ dom (users s) →
  id instance ∈ dom (recipes s) →
  user (fold_left setattr (vd_fields validated_data) instance) ∈ dom (users s) →
  (∀ tag, tag ∈ default [] (vd_tags validated_data) →
     size (tags_matching (request_user request) (dict_name tag) s) ≤ 1) →
  (∀ ingredient, ingredient ∈ default [] (vd_ingredients validated_data) →
     size (ingredients_matching (request_user request)
             (dict_name ingredient) s) ≤ 1) →
  ∃ s', update request instance validated_data s
        = (Ok (fold_left setattr (vd_fields validated_data) instance), s').
Proof.
  intros Hu Hr Hown Htags Hingredients. rewrite update_unfold.
  assert (∃ s1, update_tags request instance (vd_tags validated_data) s
                = (Ok tt, s1)) as [s1 Ht].
  { destruct (vd_tags validated_data) as [l|]; simpl; [|by eexists].
    unfold bind, tags_clear, modify_db.
    apply _get_and_create_tags_returns; [done..|].
    intros tag Hin. rewrite (tags_matching_ext _ _ s) by done. by apply Htags. }
  rewrite Ht.
  destruct (update_tags_frame _ _ _ _ _ _ Ht) as (Hu1 & Hr1 & Hi1 & _).
  assert (∃ s2, update_ingredients request instance
                  (vd_ingredients validated_data) s1 = (Ok tt, s2)) as [s2 Hi].
  { destruct (vd_ingredients validated_data) as [l|]; simpl; [|by eexists].
    unfold bind, ingredients_clear, modify_db.
    apply _get_and_create_ingredients_returns; simpl; [by rewrite Hu1 | by rewrite Hr1 |].
    intros ingredient Hin.
    rewrite (ingredients_matching_ext _ _ s) by done. by apply Hingredients. }
  rewrite Hi.
  destruct (update_ingredients_frame _ _ _ _ _ _ Hi) as (Hu2 & _).
  simpl. rewrite decide_True by (by rewrite Hu2, Hu1). by eexists.
Qed.

(** Whatever the outcome of [update]: with the [tags] key absent the
    recipe's tags are untouched, and with the empty list they are cleared;
    with the [ingredients] key absent the recipe's ingredients are
    untouched. *)
Lemma update_keys_any_outcome (request : Request) (instance : Recipe)
    (validated_data : ValidatedData) (s : DB) :
  let s' := (update request instance validated_data s).2 in
  (vd_tags validated_data = None →
     tags_of (id instance) s' = tags_of (id instance) s)
  ∧ (vd_tags validated_data = Some [] → tags_of (id instance) s' = ∅)
  ∧ (vd_ingredients validated_data = None →
       ingredients_of (id instance) s' = ingredients_of (id instance) s).
Proof.
  simpl. rewrite update_unfold.
  destruct (update_tags _ _ _ s) as [rt s1] eqn:Ht.
  destruct (update_tags_frame _ _ _ _ _ _ Ht) as (_ & _ & _ & Hri1).
  destruct (update_ingredients request instance
              (vd_ingredients validated_data) s1) as [ri s2] eqn:Hi.
  destruct (update_ingredients_frame _ _ _ _ _ _ Hi) as (_ & _ & _ & Hrt2).
  assert (recipe_tags
            (match rt with
             | Ok _ =>
                 match ri with
                 | Ok _ =>
                     let instance0 :=
                       fold_left setattr (vd_fields validated_data) instance in
                     if decide (user instance0 ∈ dom (users s2))
                     then (Ok instance0,
                           set_recipes (insert (id instance0) instance0) s2)
                     else (Raise IntegrityError, s2)
                 | Raise e => (Raise e, s2)
                 end
             | Raise e => (Raise e, s1)
             end).2 = recipe_tags s1) as Hrt.
  { destruct rt as [[]|?]; [|done]. destruct ri as [[]|?]; [|done].
    simpl. by case_decide. }
  split_and!.
  - intros Hnone. rewrite Hnone in Ht. injection Ht as <- <-.
    apply tags_of_ext. by rewrite Hrt.
  - intros Hnil. rewrite Hnil in Ht. injection Ht as <- <-.
    rewrite (tags_of_ext _ _ _ Hrt).
    apply set_eq. intros pk. rewrite elem_of_tags_of. simpl.
    rewrite elem_of_filter. simpl. split; [by intros [? _]|].
    by intros ?%not_elem_of_empty.
  - intros Hnone. rewrite Hnone in Hi. injection Hi as <- <-.
    apply ingredients_of_ext.
    destruct rt as [[]|?]; [|done]. simpl. by case_decide.
Qed.

(** A name that matches some row keeps exactly its rows through a
    [create]. *)
Lemma create_tags_matching (request : Request) (validated_data : ValidatedData)
    (s s' : DB) (r : result Recipe) (owner : nat) (n : string) :
  create request validated_data s = (r, s') →
  tags_matching owner n s ≠ ∅ →
  tags_matching owner n s' = tags_matching owner n s.
Proof.
  rewrite create_unfold. intros Hrun Hne.
  destruct (Recipe_objects_create _ s) as [[recipe|e] s1] eqn:Hc.
  2: { apply Recipe_objects_create_Raise in Hc as [-> _]. by injection Hrun as _ <-. }
  apply Recipe_objects_create_Ok in Hc as (_ & _ & -> & _).
  set (s1 := set_recipes (insert (id recipe) recipe) s) in *.
  destruct (_get_and_create_tags _ _ recipe s1) as [rt s2] eqn:Ht.
  assert (tags_matching owner n s2 = tags_matching owner n s) as E2.
  { rewrite (_get_and_create_tags_matching _ _ _ _ _ _ owner n Ht); [done|].
    by left. }
  destruct rt as [[]|e]; [|by injection Hrun as _ <-].
  destruct (_get_and_create_ingredients _ _ recipe s2) as [ri s3] eqn:Hi.
  destruct (_get_and_create_ingredients_frame _ _ _ _ _ _ Hi) as (_ & _ & Ht3 & _).
  assert (s' = s3) as -> by (destruct ri as [[]|?]; by injection Hrun).
  rewrite <- E2. by apply tags_matching_ext.
Qed.

End UpdateFacts.

(** ** Part IX. The properties *)

Section LocaleProjection.
Import Models Serializers.

(** C1.  Reading a logical field gives the Arabic column when the request's
    language code is [ar] and the English column for every other code, so
    any code other than [ar] reads as [en] does.  The getters are functions
    of the request and the recipe alone: they return a value and have no
    store or instance to write. *)
Theorem locale_projection (request : Request) (obj : Recipe) :
  (LANGUAGE_CODE request = "ar" →
     get_title request obj = title_ar obj
     ∧ get_description request obj = description_ar obj
     ∧ get_time_minutes request obj = time_minutes_ar obj
     ∧ get_price request obj = price_ar obj
     ∧ get_link request obj = link_ar obj)
  ∧ (LANGUAGE_CODE request ≠ "ar" →
     get_title request obj = title_en obj
     ∧ get_description request obj = description_en obj
     ∧ get_time_minutes request obj = time_minutes_en obj
     ∧ get_price request obj = price_en obj
     ∧ get_link request obj = link_en obj)
  ∧ (∀ en_request,
       LANGUAGE_CODE en_request = "en" → LANGUAGE_CODE request ≠ "ar" →
       get_title request obj = get_title en_request obj
       ∧ get_description request obj = get_description en_request obj
       ∧ get_time_minutes request obj = get_time_minutes en_request obj
       ∧ get_price request obj = get_price en_request obj
       ∧ get_link request obj = get_link en_request obj).
Proof.
  unfold get_title, get_description, get_time_minutes, get_price, get_link.
  split_and!.
  - intros ->. done.
  - intros Hne. apply String.eqb_neq in Hne. by rewrite Hne.
  - intros en_request -> Hne. apply String.eqb_neq in Hne. by rewrite Hne.
Qed.

(** A recipe titled in both languages, read under [ar], [en] and [fr]. *)
Lemma locale_projection_witness :
  let obj := with_title_ar (Some "shurba") (with_title_en (Some "soup")
               (default_recipe 0 0)) in
  let reading code := get_title {| LANGUAGE_CODE := code; request_user := 0 |} obj in
  reading "ar" = Some "shurba"
  ∧ reading "en" = Some "soup"
  ∧ reading "fr" = reading "en".
Proof.
  intros obj reading. split_and!.
  - apply (locale_projection {| LANGUAGE_CODE := "ar"; request_user := 0 |} obj).
    reflexivity.
  - apply (locale_projection {| LANGUAGE_CODE := "en"; request_user := 0 |} obj).
    discriminate.
  - apply (locale_projection {| LANGUAGE_CODE := "fr"; request_user := 0 |} obj);
      [reflexivity | discriminate].
Defined.

End LocaleProjection.

Section Accounts.
Import Models.
Context `{Auth}.

Lemma user_setattr_email (u : User) (f : user_field) :
  email (user_setattr u f) = email u.
Proof. by destruct f. Qed.

Lemma fold_user_setattr_email (extra_fields : list user_field) (u : User) :
  email (fold_left user_setattr extra_fields u) = email u.
Proof.
  revert u. induction extra_fields as [|f l IH]; intros u; [done|].
  simpl. by rewrite IH, user_setattr_email.
Qed.

Lemma create_user_falsy (salt : Z) (e password : option string)
    (extra_fields : list user_field) (s : DB) :
  falsy e = true →
  create_user salt e password extra_fields s
  = (Raise (ValueError "User must have an email address."), s).
Proof. unfold create_user. by intros ->. Qed.

Lemma create_user_truthy (salt : Z) (e : string) (password : option string)
    (extra_fields : list user_field) (s : DB) :
  e ≠ EmptyString →
  let user := set_password salt password (new_user (normalize_email e) extra_fields) in
  create_user salt (Some e) password extra_fields s
  = if decide (users_with_email (normalize_email e) s = ∅)
    then (Ok (new_pk (users s), user), set_users (insert (new_pk (users s)) user) s)
    else (Raise IntegrityError, s).
Proof.
  intros Hne user. unfold create_user. simpl.
  apply String.eqb_neq in Hne. rewrite Hne.
  unfold User_insert, bind, get_db. fold user.
  assert (email user = normalize_email e) as ->
    by (unfold user, new_user; simpl; apply fold_user_setattr_email).
  by case_decide.
Qed.

(** C7.  [create_user] raises [ValueError] for an empty (or absent) e-mail
    address and leaves the store as it was.  For any other address it
    either inserts one user, whose stored password is what the hasher made
    of the raw password, or raises on a duplicate address and writes
    nothing.  No row reaches the users table with anything but the hashed
    password. *)
Theorem create_user_email_and_password (salt : Z) (e password : option string)
    (extra_fields : list user_field) (s : DB) :
  let r := create_user salt e password extra_fields s in
  (e = None ∨ e = Some EmptyString →
     r = (Raise (ValueError "User must have an email address."), s))
  ∧ (∀ address, e = Some address → address ≠ EmptyString →
       (users_with_email (normalize_email address) s ≠ ∅ →
          r = (Raise IntegrityError, s))
       ∧ (users_with_email (normalize_email address) s = ∅ →
            ∃ pk user,
              r = (Ok (pk, user), set_users (insert pk user) s)
              ∧ users s !! pk = None
              ∧ email user = normalize_email address
              ∧ Models.password user = make_password salt password))
  ∧ (∀ pk user, users r.2 !! pk = Some user →
       users s !! pk = Some user
       ∨ Models.password user = make_password salt password).
Proof.
  intros r. split_and!.
  - intros [->| ->]; by apply create_user_falsy.
  - intros address -> Hne. unfold r. rewrite create_user_truthy by done.
    split; intros Hdup.
    + by rewrite decide_False.
    + rewrite decide_True by done. eexists _, _. split_and!; [done|..].
      * apply new_pk_fresh.
      * simpl. unfold new_user. apply fold_user_setattr_email.
      * done.
  - intros pk user. unfold r.
    destruct e as [address|]; [|by rewrite create_user_falsy; auto].
    destruct (decide (address = EmptyString)) as [->|Hne];
      [by rewrite create_user_falsy; auto|].
    rewrite create_user_truthy by done.
    case_decide; [|by auto]. simpl.
    intros [[_ <-]|[_ ?]]%lookup_insert_Some; auto.
Qed.

End Accounts.

Section AccountsExample.
Import Models.

(** With the example hasher: an empty address is refused and nothing is
    stored; a first account is stored with its password hashed. *)
Lemma create_user_email_and_password_witness :
  create_user (H := demo_auth) 0 (Some EmptyString) (Some "pw") [] empty_db
    = (Raise (ValueError "User must have an email address."), empty_db)
  ∧ ∃ pk user,
      create_user (H := demo_auth) 0 (Some "cook@example.com") (Some "pw") []
          empty_db
        = (Ok (pk, user), set_users (insert pk user) empty_db)
      ∧ Models.password user = make_password (Auth := demo_auth) 0 (Some "pw").
Proof.
  split.
  - apply (@create_user_email_and_password demo_auth 0 (Some EmptyString)
             (Some "pw") [] empty_db). by right.
  - destruct (@create_user_email_and_password demo_auth 0
                (Some "cook@example.com") (Some "pw") [] empty_db)
      as (_ & Hstored & _).
    destruct (Hstored "cook@example.com" eq_refl) as [_ Hnew]; [done|].
    destruct Hnew as (pk & user & Hrun & _ & _ & Hpw); [reflexivity|].
    by exists pk, user.
Defined.

End AccountsExample.

Section CreateAtomicity.
Import Models Serializers.
Local Open Scope nat_scope.

(** C2, as the claim words it, fails.  In a store where the requester owns
    two tags named [veg] (reached above through the serializers alone),
    creating a recipe tagged [veg] raises [MultipleObjectsReturned] after
    the recipe's row has been written: the call neither completes nor
    leaves the store unchanged. *)
Lemma create_not_atomic_counterexample :
  (create cook_request veg_recipe two_veg_tags).1 = Raise MultipleObjectsReturned
  ∧ recipes two_veg_tags !! 1 = None
  ∧ recipes (create cook_request veg_recipe two_veg_tags).2 !! 1
    = Some (default_recipe 1 0)
  ∧ (create cook_request veg_recipe two_veg_tags).2 ≠ two_veg_tags.
Proof.
  split_and!; [by vm_compute..|].
  intros E. apply (f_equal (λ s, recipes s !! 1)) in E. by vm_compute in E.
Qed.

(** The store after the first step of [create] and a run of the tag
    loop. *)
Lemma create_tags_attached (request : Request) (recipe : Recipe)
    (names : list NameDict) (s s' : DB) :
  (∀ tag, tag ∈ names →
     ∃ pk, tags_matching (request_user request) (dict_name tag) s
             = {[ pk := tag_row (request_user request) (dict_name tag) ]}
           ∧ (id recipe, pk) ∈ recipe_tags s) →
  tags s' = tags s → recipe_tags s' = recipe_tags s →
  tags_attached (request_user request) (id recipe) names s'.
Proof.
  intros Hatt Et Ep tag Hin. destruct (Hatt tag Hin) as (pk & Hm & Hpair).
  exists pk. split.
  - rewrite <- Hm. by apply tags_matching_ext.
  - apply elem_of_tags_of. by rewrite Ep.
Qed.

Lemma create_ingredients_attached (request : Request) (recipe : Recipe)
    (names : list NameDict) (s s' : DB) :
  (∀ ingredient, ingredient ∈ names →
     ∃ pk, ingredients_matching (request_user request) (dict_name ingredient) s
             = {[ pk := ingredient_row (request_user request)
                           (dict_name ingredient) ]}
           ∧ (id recipe, pk) ∈ recipe_ingredients s) →
  ingredients s' = ingredients s → recipe_ingredients s' = recipe_ingredients s →
  ingredients_attached (request_user request) (id recipe) names s'.
Proof.
  intros Hatt Et Ep ingredient Hin. destruct (Hatt ingredient Hin) as (pk & Hm & Hpair).
  exists pk. split.
  - rewrite <- Hm. by apply ingredients_matching_ext.
  - apply elem_of_ingredients_of. by rewrite Ep.
Qed.

(** C2, amended.  For validated data the tables store as given.  When
    writing the recipe's row fails, [create] raises the same exception and
    the store is unchanged: no tag or ingredient row, no attachment.  When
    the row is written it stays, whatever happens next, and no row or pair
    that was in the store is removed.  [create] then returns if the
    requester is in the store and no submitted name matches more than one
    of the requester's rows; when it returns, every submitted tag and
    ingredient name has exactly one row of the requester's and that row is
    attached to the recipe.  Otherwise it raises at one submitted name,
    which matches several rows ([MultipleObjectsReturned]) or is new while
    the requester's row is missing ([IntegrityError]), and what was done
    before stays: the names submitted before that one are attached to the
    recipe, the tags all of them if the failure is at an ingredient. *)
Theorem create_failure_modes (request : Request) (validated_data : ValidatedData)
    (s : DB) :
  let tags0 := default [] (vd_tags validated_data) in
  let ingredients0 := default [] (vd_ingredients validated_data) in
  let owner := request_user request in
  let out := create request validated_data s in
  storable_data validated_data = true →
  match Recipe_objects_create (vd_fields validated_data) s with
  | (Raise e, _) => out = (Raise e, s)
  | (Ok recipe, _) =>
      recipes s !! id recipe = None
      ∧ users out.2 = users s
      ∧ recipes out.2 = <[id recipe := recipe]> (recipes s)
      ∧ (tags s ⊆ tags out.2 ∧ ingredients s ⊆ ingredients out.2
         ∧ recipe_tags s ⊆ recipe_tags out.2
         ∧ recipe_ingredients s ⊆ recipe_ingredients out.2)
      ∧ (owner ∈ dom (users s) →
         (∀ tag, tag ∈ tags0 →
            size (tags_matching owner (dict_name tag) s) ≤ 1) →
         (∀ ingredient, ingredient ∈ ingredients0 →
            size (ingredients_matching owner (dict_name ingredient) s) ≤ 1) →
         ∃ s', out = (Ok recipe, s'))
      ∧ (∀ r s', out = (Ok r, s') →
           r = recipe
           ∧ tags_attached owner (id recipe) tags0 s'
           ∧ ingredients_attached owner (id recipe) ingredients0 s')
      ∧ (∀ e s', out = (Raise e, s') →
           ∃ pre failing rest,
             (tags0 = pre ++ failing :: rest
              ∧ tags_attached owner (id recipe) pre s'
              ∧ ingredients s' = ingredients s
              ∧ recipe_ingredients s' = recipe_ingredients s
              ∧ ((e = MultipleObjectsReturned
                  ∧ 2 ≤ size (tags_matching owner (dict_name failing) s))
                 ∨ (e = IntegrityError ∧ owner ∉ dom (users s))))
             ∨ (ingredients0 = pre ++ failing :: rest
                ∧ tags_attached owner (id recipe) tags0 s'
                ∧ ingredients_attached owner (id recipe) pre s'
                ∧ ((e = MultipleObjectsReturned
                    ∧ 2 ≤ size (ingredients_matching owner (dict_name failing) s))
                   ∨ (e = IntegrityError ∧ owner ∉ dom (users s)))))
  end.
Proof.
  intros tags0 ingredients0 owner out _. unfold out. rewrite !create_unfold.
  destruct (Recipe_objects_create _ s) as [[recipe|e] s1] eqn:Hc.
  2: { by apply Recipe_objects_create_Raise in Hc as [-> _]. }
  apply Recipe_objects_create_Ok in Hc as (_ & Hfresh & -> & _ & _).
  set (s1 := set_recipes (insert (id recipe) recipe) s).
  fold tags0 ingredients0.
  assert (id recipe ∈ dom (recipes s1)) as Hin
    by (apply elem_of_dom; simpl; rewrite lookup_insert_eq; eauto).
  destruct (_get_and_create_tags request tags0 recipe s1) as [rt s2] eqn:Ht.
  destruct (_get_and_create_tags_frame _ _ _ _ _ _ Ht) as (Hu2 & Hr2 & Hi2 & Hri2).
  destruct (_get_and_create_tags_rows _ _ _ _ _ _ Ht) as [Hrows2 _].
  destruct (_get_and_create_tags_pairs _ _ _ _ _ _ Ht) as [Hp2 _].
  destruct rt as [[]|et].
  - destruct (_get_and_create_ingredients request ingredients0 recipe s2)
      as [ri s3] eqn:Hi.
    destruct (_get_and_create_ingredients_frame _ _ _ _ _ _ Hi)
      as (Hu3 & Hr3 & Ht3 & Hrt3).
    destruct (_get_and_create_ingredients_rows _ _ _ _ _ _ Hi) as [Hrows3 _].
    destruct (_get_and_create_ingredients_pairs _ _ _ _ _ _ Hi) as [Hp3 _].
    assert (users s3 = users s ∧ recipes s3 = <[id recipe:=recipe]> (recipes s))
      as [Hu Hr] by (by rewrite Hu3, Hu2, Hr3, Hr2).
    assert (tags s ⊆ tags s3 ∧ ingredients s ⊆ ingredients s3
            ∧ recipe_tags s ⊆ recipe_tags s3
            ∧ recipe_ingredients s ⊆ recipe_ingredients s3)
      as (Hk1 & Hk2 & Hk3 & Hk4).
    { split_and!.
      - by rewrite Ht3.
      - by rewrite Hi2 in Hrows3.
      - by rewrite Hrt3.
      - by rewrite Hri2 in Hp3. }
    assert (tags_attached owner (id recipe) tags0 s3) as Htags.
    { apply (create_tags_attached request recipe tags0 s2); [|done..].
      intros tag Htag.
      destruct (_get_and_create_tags_Ok _ _ _ _ _ Ht tag Htag) as (pk & ? & ? & _).
      by exists pk. }
    destruct ri as [[]|ei]; simpl; (split_and!; [done..| | |]).
    + eauto.
    + intros r s' [= <- <-]. split_and!; [done..|].
      apply (create_ingredients_attached request recipe ingredients0 s3); [|done..].
      intros ingredient Hing.
      destruct (_get_and_create_ingredients_Ok _ _ _ _ _ Hi ingredient Hing)
        as (pk & ? & ? & _).
      by exists pk.
    + done.
    + intros Hown _ Hone.
      destruct (_get_and_create_ingredients_returns request recipe ingredients0 s2)
        as [s' Hs']; [by rewrite Hu2 | by rewrite Hr2 | | congruence].
      intros ingredient Hing.
      rewrite (ingredients_matching_ext _ _ s s2) by (by rewrite Hi2). auto.
    + done.
    + intros e s' [= <- <-].
      destruct (_get_and_create_ingredients_stopped _ _ _ _ _ _ Hi)
        as (pre & failing & rest & Hsplit & Hatt & Hwhy).
      exists pre, failing, rest. right. split_and!; [done..| |].
      * by apply (create_ingredients_attached request recipe pre s3).
      * destruct Hwhy as [[-> Hbig]|[-> [Hmiss|Hmiss]]].
        -- left. split; [done|].
           by rewrite (ingredients_matching_ext _ _ s s2) in Hbig by (by rewrite Hi2).
        -- right. split; [done|]. by rewrite Hu2 in Hmiss.
        -- by rewrite Hr2 in Hmiss.
  - simpl. split_and!; [done..| | | | | |].
    + by rewrite Hi2.
    + done.
    + by rewrite Hri2.
    + intros Hown Hone _.
      destruct (_get_and_create_tags_returns request recipe tags0 s1)
        as [s' Hs']; [done..| |congruence].
      intros tag Htag. by apply Hone.
    + done.
    + intros e s' [= <- <-].
      destruct (_get_and_create_tags_stopped _ _ _ _ _ _ Ht)
        as (pre & failing & rest & Hsplit & Hatt & Hwhy).
      exists pre, failing, rest. left. split_and!; [done| |done..|].
      * by apply (create_tags_attached request recipe pre s2).
      * destruct Hwhy as [[-> Hbig]|[-> [Hmiss|Hmiss]]].
        -- left. by split.
        -- right. by split.
        -- done.
Qed.

(** On the store with one user: a recipe with no owner fails at the row
    and writes nothing; the recipe tagged [veg], [veg] is created in full,
    its tag attached.  On [two_veg_tags]: a recipe tagged [hot], [veg]
    stops at [veg], and [hot] stays attached to the recipe's row. *)
Lemma create_failure_modes_witness :
  let no_owner := {| vd_tags := Some [named "veg"]; vd_ingredients := None;
                     vd_fields := [] |} in
  let hot_veg := {| vd_tags := Some [named "hot"; named "veg"];
                    vd_ingredients := None; vd_fields := [F_user 0] |} in
  create cook_request no_owner one_user = (Raise IntegrityError, one_user)
  ∧ (∃ s', create cook_request veg_recipe one_user = (Ok (default_recipe 0 0), s')
           ∧ tags_attached 0 0 [named "veg"; named "veg"] s')
  ∧ (∃ s', create cook_request hot_veg two_veg_tags
           = (Raise MultipleObjectsReturned, s')
           ∧ recipes s' !! 1 = Some (default_recipe 1 0)
           ∧ tags_attached 0 1 [named "hot"] s').
Proof.
  intros no_owner hot_veg. split_and!.
  - apply (create_failure_modes cook_request no_owner one_user eq_refl).
  - destruct (create_failure_modes cook_request veg_recipe one_user eq_refl)
      as (_ & _ & _ & _ & Hreturns & Hfull & _).
    destruct Hreturns as [s' Hs'].
    + apply elem_of_dom. by eexists.
    + intros tag _. apply Nat.le_0_l.
    + intros ingredient _. apply Nat.le_0_l.
    + exists s'. split; [done|]. by apply (Hfull _ _ Hs').
  - destruct (create_failure_modes cook_request hot_veg two_veg_tags eq_refl)
      as (_ & _ & Hrow & _ & _ & _ & Hstops).
    exists (create cook_request hot_veg two_veg_tags).2.
    split; [reflexivity|]. split; [by rewrite Hrow|].
    destruct (Hstops MultipleObjectsReturned _ eq_refl)
      as (pre & failing & rest & [(Hsplit & Hatt & _ & _ & Hwhy)|(Hsplit & _)]).
    + destruct Hwhy as [[_ Hbig]|[? _]]; [|done].
      destruct pre as [|x [|y pre]].
      * injection Hsplit as Hf _. subst failing. vm_compute in Hbig. lia.
      * injection Hsplit as Hx _ _. by subst x.
      * injection Hsplit as _ _ Hnil. by destruct pre.
    + by destruct pre.
Defined.

End CreateAtomicity.

Section TagResolution.
Import Models Serializers.
Local Open Scope nat_scope.


End TagResolution.

Section IngredientResolution.
Import Models Serializers.
Local Open Scope nat_scope.


End IngredientResolution.

Section Resolution.
Import Models Serializers.
Local Open Scope nat_scope.



End Resolution.

Section UpdateClaims.
Import Models Serializers.
Local Open Scope nat_scope.

(** C4.  For an [update] that returns.  With the [tags] key absent the
    recipe's tags are what they were.  With the key present they are
    exactly the rows of the requester named in the list, one row per name,
    and so none when the list is empty.  The same holds for
    [ingredients], each key on its own. *)
Theorem update_associations (request : Request) (instance : Recipe)
    (validated_data : ValidatedData) (s s' : DB) (r : Recipe) :
  update request instance validated_data s = (Ok r, s') →
  let owner := request_user request in
  match vd_tags validated_data with
  | None => tags_of (id instance) s' = tags_of (id instance) s
  | Some tags0 =>
      (tags0 = [] → tags_of (id instance) s' = ∅)
      ∧ (∀ pk, pk ∈ tags_of (id instance) s' ↔
               ∃ tag, tag ∈ tags0
                 ∧ tags s' !! pk = Some (tag_row owner (dict_name tag)))
      ∧ (∀ tag, tag ∈ tags0 →
           ∃ pk, tags_matching owner (dict_name tag) s'
                 = {[ pk := tag_row owner (dict_name tag) ]})
  end
  ∧ match vd_ingredients validated_data with
    | None => ingredients_of (id instance) s' = ingredients_of (id instance) s
    | Some ingredients0 =>
        (ingredients0 = [] → ingredients_of (id instance) s' = ∅)
        ∧ (∀ pk, pk ∈ ingredients_of (id instance) s' ↔
                 ∃ ingredient, ingredient ∈ ingredients0
                   ∧ ingredients s' !! pk
                     = Some (ingredient_row owner (dict_name ingredient)))
        ∧ (∀ ingredient, ingredient ∈ ingredients0 →
             ∃ pk, ingredients_matching owner (dict_name ingredient) s'
                   = {[ pk := ingredient_row owner (dict_name ingredient) ]})
    end.
Proof.
  intros (s1 & s2 & Ht & Hi & _ & _ & ->)%update_Ok owner. subst owner.
  apply update_tags_Ok in Ht as (_ & _ & Hi1 & Hri1 & Htags).
  apply update_ingredients_Ok in Hi as (_ & _ & Ht2 & Hrt2 & Hingredients).
  split.
  - destruct (vd_tags validated_data) as [tags0|].
    + destruct Htags as [Hiff Hone].
      assert (∀ pk, pk ∈ tags_of (id instance)
                      (set_recipes (insert (id instance) r) s2) ↔
                ∃ tag, tag ∈ tags0
                  ∧ tags s2 !! pk
                    = Some (tag_row (request_user request) (dict_name tag)))
        as Hiff'.
      { intros pk. rewrite (tags_of_ext _ s1) by done. rewrite Ht2. apply Hiff. }
      split_and!.
      * intros ->. apply set_eq. intros pk. rewrite Hiff'.
        split; [|by intros ?%not_elem_of_empty].
        by intros (tag & ?%elem_of_nil & _).
      * done.
      * intros tag Hin. destruct (Hone tag Hin) as [pk Hm]. exists pk.
        rewrite <- Hm. by apply tags_matching_ext.
    + subst s1. by apply tags_of_ext.
  - destruct (vd_ingredients validated_data) as [ingredients0|].
    + destruct Hingredients as [Hiff Hone]. split_and!.
      * intros ->. apply set_eq. intros pk.
        rewrite (ingredients_of_ext _ s2) by done. rewrite Hiff.
        split; [|by intros ?%not_elem_of_empty].
        by intros (ingredient & ?%elem_of_nil & _).
      * intros pk. rewrite (ingredients_of_ext _ s2) by done. apply Hiff.
      * done.
    + subst s2. rewrite (ingredients_of_ext _ s1) by done.
      by apply ingredients_of_ext.
Qed.

(** The recipe of [tagged_store] updated with [tags = [hot]] and no
    [ingredients] key. *)
Lemma update_associations_witness :
  let recipe := default_recipe 0 0 in
  let validated_data :=
    {| vd_tags := Some [named "hot"]; vd_ingredients := None; vd_fields := [] |} in
  let s' := (update cook_request recipe validated_data tagged_store).2 in
  elements (tags_of 0 tagged_store) = [1; 0]
  ∧ update cook_request recipe validated_data tagged_store = (Ok recipe, s')
  ∧ (∀ pk, pk ∈ tags_of 0 s' ↔
           ∃ tag, tag ∈ [named "hot"]
             ∧ tags s' !! pk = Some (tag_row 0 (dict_name tag)))
  ∧ ingredients_of 0 s' = ingredients_of 0 tagged_store.
Proof.
  intros recipe validated_data s'.
  pose proof (update_associations cook_request recipe validated_data
                tagged_store s' recipe eq_refl) as [Ht Hi].
  split_and!; [reflexivity | reflexivity | apply Ht | apply Hi].
Defined.

End UpdateClaims.

Section SharedTags.
Import Models Serializers.
Local Open Scope nat_scope.

(** C8.  Two recipes created by the same user that both name a tag share
    one [Tag] row: the requester has exactly one row of that name and it is
    attached to both recipes.  Deleting a recipe writes neither the [Tag]
    nor the [Ingredient] table: the recipe's row and its own memberships
    go, and the memberships of every other recipe stay. *)
Theorem recipes_share_tags (request : Request) :
  (∀ vd1 vd2 s s1 s2 recipe1 recipe2 tag1 tag2,
     create request vd1 s = (Ok recipe1, s1) →
     create request vd2 s1 = (Ok recipe2, s2) →
     tag1 ∈ default [] (vd_tags vd1) →
     tag2 ∈ default [] (vd_tags vd2) →
     dict_name tag1 = dict_name tag2 →
     id recipe1 ≠ id recipe2
     ∧ ∃ pk, tags_matching (request_user request) (dict_name tag1) s2
               = {[ pk := tag_row (request_user request) (dict_name tag1) ]}
             ∧ pk ∈ tags_of (id recipe1) s2
             ∧ pk ∈ tags_of (id recipe2) s2)
  ∧ (∀ rid s,
       let s' := (Recipe_delete rid s).2 in
       (Recipe_delete rid s).1 = Ok tt
       ∧ users s' = users s
       ∧ tags s' = tags s
       ∧ ingredients s' = ingredients s
       ∧ recipes s' = delete rid (recipes s)
       ∧ tags_of rid s' = ∅
       ∧ ingredients_of rid s' = ∅
       ∧ ∀ other, other ≠ rid →
           tags_of other s' = tags_of other s
           ∧ ingredients_of other s' = ingredients_of other s).
Proof.
  split.
  - intros vd1 vd2 s s1 s2 recipe1 recipe2 tag1 tag2 Hc1 Hc2 Hin1 Hin2 Hname.
    destruct (create_Ok_store _ _ _ _ _ Hc1)
      as (_ & _ & Hrec1 & _ & _ & _ & _ & Htags1 & _).
    destruct (create_Ok_store _ _ _ _ _ Hc2)
      as (_ & Hfresh2 & _ & _ & _ & Hpairs2 & _ & Htags2 & _).
    split.
    + intros E. rewrite <- E, Hrec1, lookup_insert_eq in Hfresh2. done.
    + destruct (Htags1 tag1 Hin1) as (pk & Hm1 & Hat1).
      destruct (Htags2 tag2 Hin2) as (pk2 & Hm2 & Hat2).
      rewrite <- Hname in Hm2.
      assert (tags_matching (request_user request) (dict_name tag1) s2
              = tags_matching (request_user request) (dict_name tag1) s1) as E.
      { eapply create_tags_matching; [done|].
        rewrite Hm1. apply map_non_empty_singleton. }
      assert (pk2 = pk) as ->.
      { rewrite Hm1, Hm2 in E. apply (f_equal dom) in E.
        rewrite !dom_singleton_L in E. by apply singleton_inj in E. }
      exists pk. split_and!; [done| |done].
      apply elem_of_tags_of, Hpairs2. by apply elem_of_tags_of.
  - intros rid s. simpl. split_and!; try done.
    + apply set_eq. intros pk. rewrite elem_of_tags_of. simpl.
      rewrite elem_of_filter. simpl. split; [by intros [? _]|].
      by intros ?%not_elem_of_empty.
    + apply set_eq. intros pk. rewrite elem_of_ingredients_of. simpl.
      rewrite elem_of_filter. simpl. split; [by intros [? _]|].
      by intros ?%not_elem_of_empty.
    + intros other Hne. split; apply set_eq; intros pk.
      * rewrite !elem_of_tags_of. simpl. rewrite elem_of_filter. simpl. tauto.
      * rewrite !elem_of_ingredients_of. simpl. rewrite elem_of_filter. simpl.
        tauto.
Qed.

(** Two recipes of user 0 tagged [veg]: one row, attached to both; after
    the first recipe is deleted the row is still there, attached to the
    second. *)
Lemma recipes_share_tags_witness :
  let vd := {| vd_tags := Some [named "veg"]; vd_ingredients := None;
               vd_fields := [F_user 0] |} in
  let s1 := (create cook_request vd one_user).2 in
  let s2 := (create cook_request vd s1).2 in
  let s3 := (Recipe_delete 0 s2).2 in
  (∃ pk, pk ∈ tags_of 0 s2 ∧ pk ∈ tags_of 1 s2
         ∧ tags_matching 0 "veg" s2 = {[ pk := tag_row 0 "veg" ]})
  ∧ tags s3 = tags s2
  ∧ elements (tags_of 1 s3) = [0]
  ∧ elements (tags_of 0 s3) = [].
Proof.
  intros vd s1 s2 s3.
  destruct (recipes_share_tags cook_request) as [Hshare Hdelete].
  split_and!.
  - destruct (Hshare vd vd one_user s1 s2 (default_recipe 0 0) (default_recipe 1 0)
                (named "veg") (named "veg"))
      as (_ & pk & Hm & H0 & H1);
      [reflexivity | reflexivity | apply list_elem_of_here
      | apply list_elem_of_here | reflexivity |].
    by exists pk.
  - apply (Hdelete 0 s2).
  - reflexivity.
  - reflexivity.
Defined.

End SharedTags.

Section ReadOnlyFields.
Import Models Serializers.
Local Open Scope nat_scope.
Context `{Validators raw}.

(** Validation yields items only for the names declared as model fields. *)
Lemma to_internal_value_fields (fields : list (string * declared))
    (data : gmap string raw) (acc vd : ValidatedData) (fv : field_value) :
  to_internal_value fields data acc = Some vd →
  fv ∈ vd_fields vd →
  fv ∈ vd_fields acc
  ∨ ∃ field_name, (field_name, ModelField) ∈ fields ∧ attr_name fv = field_name.
Proof.
  revert acc. induction fields as [|[field_name decl] fields IH]; intros acc.
  - intros [= <-]. auto.
  - assert (∀ acc', vd_fields acc' = vd_fields acc →
              to_internal_value fields data acc' = Some vd →
              fv ∈ vd_fields vd →
              fv ∈ vd_fields acc
              ∨ ∃ field_name0,
                  (field_name0, ModelField) ∈ (field_name, decl) :: fields
                  ∧ attr_name fv = field_name0) as Hskip.
    { intros acc' Hacc Hv Hin.
      destruct (IH acc' Hv Hin) as [?|(n & ? & ?)]; [left; congruence|].
      right. exists n. split; [by apply list_elem_of_further|done]. }
    simpl. destruct decl, (data !! field_name) as [v|]; try (by apply Hskip).
    + destruct (validate_names v); [|done]. by apply Hskip.
    + destruct (validate_names v); [|done]. by apply Hskip.
    + destruct (validate_column field_name v) as [fv'|] eqn:Hcol; [|done].
      intros Hv Hin.
      destruct (IH _ Hv Hin) as [Hacc|(n & ? & ?)].
      * simpl in Hacc. apply elem_of_app in Hacc as [? | ->%list_elem_of_singleton];
          [by left|].
        right. exists field_name. split; [apply list_elem_of_here|].
        by apply validate_column_name in Hcol.
      * right. exists n. split; [by apply list_elem_of_further|done].
Qed.

(** Validation reads the request data only at the writable names. *)
Lemma to_internal_value_ext (fields : list (string * declared))
    (data data' : gmap string raw) (acc : ValidatedData) :
  (∀ field_name decl, (field_name, decl) ∈ fields →
     decl = NestedTags ∨ decl = NestedIngredients ∨ decl = ModelField →
     data' !! field_name = data !! field_name) →
  to_internal_value fields data' acc = to_internal_value fields data acc.
Proof.
  revert acc. induction fields as [|[field_name decl] fields IH]; intros acc Hagree;
    [done|].
  assert (∀ acc', to_internal_value fields data' acc'
                  = to_internal_value fields data acc') as IH'.
  { intros acc'. apply IH. intros n d Hin. apply Hagree.
    by apply list_elem_of_further. }
  simpl. destruct decl; try apply IH';
    rewrite (Hagree field_name _ (list_elem_of_here _ _)) by auto;
    (destruct (data !! field_name) as [v|]; [|apply IH']).
  - destruct (validate_names v); [apply IH' | done].
  - destruct (validate_names v); [apply IH' | done].
  - destruct (validate_column field_name v); [apply IH' | done].
Qed.

Lemma RecipeSerializer_model_fields (fields : list (string * declared))
    (field_name : string) :
  fields = RecipeSerializer_fields ∨ fields = RecipeDetailSerializer_fields →
  (field_name, ModelField) ∈ fields → field_name = "image"%string.
Proof.
  intros [-> | ->] Hin;
    unfold RecipeDetailSerializer_fields, RecipeSerializer_fields in Hin;
    simpl in Hin;
    repeat (apply elem_of_cons in Hin as [Heq|Hin]; [by simplify_eq|]);
    by apply elem_of_nil in Hin.
Qed.

Lemma RecipeSerializer_writable (fields : list (string * declared))
    (field_name : string) (decl : declared) :
  fields = RecipeSerializer_fields ∨ fields = RecipeDetailSerializer_fields →
  (field_name, decl) ∈ fields →
  decl = NestedTags ∨ decl = NestedIngredients ∨ decl = ModelField →
  field_name = "tags"%string ∨ field_name = "ingredients"%string
  ∨ field_name = "image"%string.
Proof.
  intros [-> | ->] Hin Hdecl;
    unfold RecipeDetailSerializer_fields, RecipeSerializer_fields in Hin;
    simpl in Hin;
    repeat (apply elem_of_cons in Hin as [Heq|Hin];
            [by (destruct Hdecl as [?|[?|?]]; simplify_eq; auto)|]);
    by apply elem_of_nil in Hin.
Qed.

Lemma default_recipe_locale (pk owner : nat) (attr : string) :
  attr ∈ locale_attrs →
  getattr (default_recipe pk owner) attr = getattr (default_recipe pk 0) attr.
Proof.
  intros Hin. unfold locale_attrs in Hin.
  repeat (apply elem_of_cons in Hin as [-> | Hin]; [done|]).
  by apply elem_of_nil in Hin.
Qed.

Lemma row_kept (m : gmap nat Recipe) (pk : nat) (attr : string) :
  match m !! pk with
  | Some row' =>
      getattr row' attr = getattr (default (default_recipe pk 0) (m !! pk)) attr
  | None => m !! pk = None
  end.
Proof. by destruct (m !! pk). Qed.

End ReadOnlyFields.

Section ReadOnlyClaim.
Import Models Serializers.
Local Open Scope nat_scope.
Context `{Validators raw}.

Lemma no_locale_item (vd : ValidatedData) (fields : list (string * declared))
    (data : gmap string raw) (kwargs : list field_value) (attr : string) :
  fields = RecipeSerializer_fields ∨ fields = RecipeDetailSerializer_fields →
  (∀ fv, fv ∈ kwargs → attr_name fv ∉ locale_attrs) →
  to_internal_value fields data empty_data = Some vd →
  attr ∈ locale_attrs →
  lookup_attr attr (vd_fields vd ++ kwargs) = None.
Proof.
  intros Hfields Hkwargs Hv Hattr.
  destruct (lookup_attr attr (vd_fields vd ++ kwargs)) as [fv|] eqn:E; [|done].
  apply lookup_attr_name in E as [<- [Hin|Hin]%elem_of_app].
  - destruct (to_internal_value_fields _ _ _ _ _ Hv Hin)
      as [?%elem_of_nil|(n & Hn & Hname)]; [done|].
    apply (RecipeSerializer_model_fields _ _ Hfields) in Hn. subst n.
    rewrite Hname in Hattr. unfold locale_attrs in Hattr.
    repeat (apply elem_of_cons in Hattr as [?|Hattr]; [done|]).
    by apply elem_of_nil in Hattr.
  - by apply Hkwargs in Hin.
Qed.

(** C9.  A write through [RecipeSerializer] or [RecipeDetailSerializer],
    whatever the request data and whatever its outcome, with keyword
    arguments to [save] that name no locale column and (for an update) an
    instance that is the recipe's stored row: every row of [recipes]
    afterwards has in each locale column what it had before, a new row has
    the column's default, and no row is lost.  The users table is not
    written.  The request data is read only at [tags], [ingredients] and
    [image]: what it holds under [title], [description], [time_minutes],
    [price], [link] or any other name changes nothing. *)
Theorem serializer_writes_keep_locale_columns
    (fields : list (string * declared)) (request : Request)
    (instance : option Recipe) (data : gmap string raw)
    (kwargs : list field_value) (s : DB) :
  fields = RecipeSerializer_fields ∨ fields = RecipeDetailSerializer_fields →
  (∀ fv, fv ∈ kwargs → attr_name fv ∉ locale_attrs) →
  (∀ i, instance = Some i → recipes s !! id i = Some i) →
  let out := save fields request instance data kwargs s in
  users out.2 = users s
  ∧ (∀ pk attr, attr ∈ locale_attrs →
       match recipes out.2 !! pk with
       | Some row' =>
           getattr row' attr
           = getattr (default (default_recipe pk 0) (recipes s !! pk)) attr
       | None => recipes s !! pk = None
       end)
  ∧ (∀ data',
       data' !! "tags"%string = data !! "tags"%string →
       data' !! "ingredients"%string = data !! "ingredients"%string →
       data' !! "image"%string = data !! "image"%string →
       save fields request instance data' kwargs s = out).
Proof.
  intros Hfields Hkwargs Hstored out. split_and!.
  - unfold out, save.
    destruct (to_internal_value fields data empty_data) as [vd|]; [|done].
    destruct instance as [i|].
    + pose proof (update_recipes request i
        {| vd_tags := vd_tags vd; vd_ingredients := vd_ingredients vd;
           vd_fields := vd_fields vd ++ kwargs |} s) as [Hu _].
      by destruct (update _ _ _ s).
    + pose proof (create_recipes request
        {| vd_tags := vd_tags vd; vd_ingredients := vd_ingredients vd;
           vd_fields := vd_fields vd ++ kwargs |} s) as [Hu _].
      by destruct (create _ _ s).
  - intros pk attr Hattr. unfold out, save.
    destruct (to_internal_value fields data empty_data) as [vd|] eqn:Hv;
      [|apply row_kept].
    pose proof (no_locale_item vd fields data kwargs attr Hfields Hkwargs Hv Hattr)
      as Hno.
    destruct instance as [i|].
    + pose proof (update_recipes request i
        {| vd_tags := vd_tags vd; vd_ingredients := vd_ingredients vd;
           vd_fields := vd_fields vd ++ kwargs |} s) as [_ Hrec].
      destruct (update _ _ _ s) as [[r|e] s']; simpl in *.
      * destruct Hrec as [-> ->].
        destruct (decide (pk = id i)) as [->|Hne].
        -- rewrite lookup_insert_eq, (Hstored i eq_refl). simpl.
           by rewrite getattr_fold_setattr, Hno.
        -- rewrite lookup_insert_ne by done. apply row_kept.
      * rewrite Hrec. apply row_kept.
    + pose proof (create_recipes request
        {| vd_tags := vd_tags vd; vd_ingredients := vd_ingredients vd;
           vd_fields := vd_fields vd ++ kwargs |} s) as [_ Hrec].
      destruct (create _ _ s) as [r s']; simpl in *.
      destruct Hrec as [->|(owner & Hfresh & ->)]; [apply row_kept|].
      destruct (decide (pk = new_pk (recipes s))) as [->|Hne].
      * rewrite lookup_insert_eq, Hfresh. simpl.
        rewrite getattr_fold_setattr, Hno. by apply default_recipe_locale.
      * rewrite lookup_insert_ne by done. apply row_kept.
  - intros data' Ht Hi Him. unfold out, save.
    rewrite (to_internal_value_ext fields data data'); [done|].
    intros n d Hin Hd.
    destruct (RecipeSerializer_writable _ _ _ Hfields Hin Hd) as [-> | [-> | ->]];
      done.
Qed.

End ReadOnlyClaim.

Section ReadOnlyExample.
Import Models Serializers.
Local Open Scope nat_scope.

(** An update of the recipe of [tagged_store] whose request data carries a
    [title] and an [image]: the image is stored, no title column moves. *)
Lemma serializer_writes_keep_locale_columns_witness :
  let recipe := default_recipe 0 0 in
  let data : gmap string string :=
    {[ "title"%string := "Soup"%string; "image"%string := "soup.png"%string ]} in
  let out := save (H := demo_validators) RecipeDetailSerializer_fields
               cook_request (Some recipe) data [] tagged_store in
  (image <$> recipes out.2 !! 0) = Some (Some "soup.png"%string)
  ∧ (∀ attr, attr ∈ locale_attrs →
       (λ row, getattr row attr) <$> recipes out.2 !! 0
       = Some (getattr recipe attr)).
Proof.
  intros recipe data out. split; [reflexivity|].
  intros attr Hattr.
  destruct (serializer_writes_keep_locale_columns (H := demo_validators)
              RecipeDetailSerializer_fields cook_request (Some recipe) data []
              tagged_store) as (_ & Hrows & _).
  - by right.
  - by intros fv ?%elem_of_nil.
  - by intros i [= <-].
  - specialize (Hrows 0 attr Hattr). fold out in Hrows.
    destruct (recipes out.2 !! 0) as [row'|] eqn:E; [|by vm_compute in E].
    simpl. by rewrite Hrows.
Defined.

End ReadOnlyExample.

(** ** Part X. Accounts *)

Section AccountFacts.
Import Models.
Context `{Auth}.

Lemma create_superuser_unfold (salt : Z) (e password : option string) (s : DB) :
  create_superuser salt e password s
  = match create_user salt e password [] s with
    | (Ok r, s1) =>
        let user :=
          user_setattr (user_setattr r.2 (U_is_staff true)) (U_is_superuser true) in
        (Ok (r.1, user), set_users (insert r.1 user) s1)
    | (Raise e, s1) => (Raise e, s1)
    end.
Proof.
  unfold create_superuser, bind.
  by destruct (create_user salt e password [] s) as [[r|e0] s1].
Qed.

Lemma set_users_insert_twice (pk : nat) (u u' : User) (s : DB) :
  set_users (insert pk u') (set_users (insert pk u) s) = set_users (insert pk u') s.
Proof. unfold set_users. simpl. f_equal. apply insert_insert_eq. Qed.

Lemma users_with_email_None (e : string) (s : DB) :
  users_with_email e s = ∅ ↔ ∀ pk u, users s !! pk = Some u → email u ≠ e.
Proof.
  unfold users_with_email. rewrite map_empty. split.
  - intros Hnone pk u Hu He. specialize (Hnone pk).
    apply eq_None_not_Some in Hnone. apply Hnone. exists u.
    by apply map_lookup_filter_Some.
  - intros Hne pk. apply eq_None_not_Some. intros [u [Hu He]%map_lookup_filter_Some].
    by apply (Hne pk u).
Qed.

Lemma create_user_step (salt : Z) (e password : option string)
    (extra_fields : list user_field) (s : DB) :
  account_step s (create_user salt e password extra_fields s).2.
Proof.
  destruct e as [address|]; [|rewrite create_user_falsy by done; constructor].
  destruct (decide (address = EmptyString)) as [->|Hne];
    [rewrite create_user_falsy by done; constructor|].
  rewrite create_user_truthy by done.
  case_decide as Hdup; [|constructor]. simpl. constructor.
  simpl. unfold new_user. by rewrite fold_user_setattr_email.
Qed.

Lemma create_superuser_step (salt : Z) (e password : option string) (s : DB) :
  account_step s (create_superuser salt e password s).2.
Proof.
  rewrite create_superuser_unfold.
  destruct e as [address|]; [|rewrite create_user_falsy by done; constructor].
  destruct (decide (address = EmptyString)) as [->|Hne];
    [rewrite create_user_falsy by done; constructor|].
  rewrite create_user_truthy by done.
  case_decide as Hdup; [|constructor]. cbn [fst snd].
  rewrite set_users_insert_twice. constructor. done.
Qed.

Lemma account_step_unique (s s' : DB) :
  account_step s s' → unique_emails s → unique_emails s'.
Proof.
  intros [|u Hnew] Huniq; [done|].
  pose proof (proj1 (users_with_email_None _ _) Hnew) as Hne.
  intros pk1 pk2 u1 u2. simpl.
  intros [[<- <-]|[? Hu1]]%lookup_insert_Some [[<- <-]|[? Hu2]]%lookup_insert_Some He;
    [done| | |by eapply Huniq].
  - by destruct (Hne pk2 u2).
  - by destruct (Hne pk1 u1).
Qed.

Lemma account_step_frame (s s' : DB) :
  account_step s s' →
  users s ⊆ users s' ∧ recipes s' = recipes s ∧ tags s' = tags s
  ∧ ingredients s' = ingredients s ∧ recipe_tags s' = recipe_tags s
  ∧ recipe_ingredients s' = recipe_ingredients s.
Proof.
  intros [|u _]; [done|]. simpl. split_and!; try done.
  apply insert_subseteq, new_pk_fresh.
Qed.

End AccountFacts.

Section AccountProperties.
Import Models.
Local Open Scope nat_scope.
Context `{Auth}.

(** X1.  [create_superuser] refuses an empty or absent address with
    [ValueError] and a taken address with [IntegrityError], writing nothing
    in either case.  Otherwise it leaves exactly one new row: the address
    normalised, the password hashed, active, staff and superuser. *)
Theorem create_superuser_row (salt : Z) (e password : option string) (s : DB) :
  let r := create_superuser salt e password s in
  (e = None ∨ e = Some EmptyString →
     r = (Raise (ValueError "User must have an email address."), s))
  ∧ (∀ address, e = Some address → address ≠ EmptyString →
       (users_with_email (normalize_email address) s ≠ ∅ →
          r = (Raise IntegrityError, s))
       ∧ (users_with_email (normalize_email address) s = ∅ →
            ∃ pk,
              users s !! pk = None
              ∧ let user :=
                  {| email := normalize_email address;
                     Models.password := make_password salt password;
                     name := EmptyString; is_active := true;
                     is_staff := true; is_superuser := true |} in
                r = (Ok (pk, user), set_users (insert pk user) s))).
Proof.
  intros r. unfold r. rewrite create_superuser_unfold. split.
  - intros [-> | ->]; by rewrite create_user_falsy.
  - intros address -> Hne. rewrite create_user_truthy by done.
    split; intros Hdup.
    + by rewrite decide_False.
    + rewrite decide_True by done. cbn [fst snd].
      rewrite set_users_insert_twice.
      exists (new_pk (users s)). split; [apply new_pk_fresh|done].
Qed.

(** X2.  If no two accounts share an address, none do after [create_user]
    or [create_superuser], whatever the call's outcome. *)
Theorem accounts_keep_unique_emails (salt : Z) (e password : option string)
    (extra_fields : list user_field) (s : DB) :
  unique_emails s →
  unique_emails (create_user salt e password extra_fields s).2
  ∧ unique_emails (create_superuser salt e password s).2.
Proof.
  intros Huniq. split; eapply account_step_unique; try done.
  - apply create_user_step.
  - apply create_superuser_step.
Qed.

(** X3.  Neither [create_user] nor [create_superuser] changes or removes
    an account that exists, adds more than one, or writes another table,
    whatever the outcome. *)
Theorem accounts_only_add (salt : Z) (e password : option string)
    (extra_fields : list user_field) (s : DB) :
  let kept s' :=
    users s ⊆ users s'
    ∧ size (users s') ≤ size (users s) + 1
    ∧ recipes s' = recipes s ∧ tags s' = tags s
    ∧ ingredients s' = ingredients s ∧ recipe_tags s' = recipe_tags s
    ∧ recipe_ingredients s' = recipe_ingredients s in
  kept (create_user salt e password extra_fields s).2
  ∧ kept (create_superuser salt e password s).2.
Proof.
  assert (∀ s', account_step s s' →
            users s ⊆ users s'
            ∧ size (users s') ≤ size (users s) + 1
            ∧ recipes s' = recipes s ∧ tags s' = tags s
            ∧ ingredients s' = ingredients s ∧ recipe_tags s' = recipe_tags s
            ∧ recipe_ingredients s' = recipe_ingredients s) as Hkept.
  { intros s' Hstep.
    destruct (account_step_frame _ _ Hstep) as (? & ? & ? & ? & ? & ?).
    split_and!; try done.
    destruct Hstep as [|u _]; [lia|]. simpl.
    rewrite map_size_insert_None by apply new_pk_fresh. lia. }
  split; apply Hkept; [apply create_user_step|apply create_superuser_step].
Qed.

(** X4.  Once [create_user] has stored an account, signing up again with
    an address that normalises to the same string raises [IntegrityError]
    and writes nothing, through [create_user] and [create_superuser]
    alike. *)
Theorem create_user_twice (salt : Z) (address : string) (password : option string)
    (extra_fields : list user_field) (s s1 : DB) (r : nat * User) :
  create_user salt (Some address) password extra_fields s = (Ok r, s1) →
  ∀ salt' address' password' extra_fields',
    address' ≠ EmptyString →
    normalize_email address' = normalize_email address →
    create_user salt' (Some address') password' extra_fields' s1
      = (Raise IntegrityError, s1)
    ∧ create_superuser salt' (Some address') password' s1
      = (Raise IntegrityError, s1).
Proof.
  intros Hrun salt' address' password' extra_fields' Hne' Hsame.
  assert (users_with_email (normalize_email address') s1 ≠ ∅) as Hdup.
  { destruct (decide (address = EmptyString)) as [->|Hne];
      [by rewrite create_user_falsy in Hrun|].
    rewrite create_user_truthy in Hrun by done.
    case_decide; [|done]. injection Hrun as <- <-.
    rewrite users_with_email_None. intros Hnone.
    eapply (Hnone (new_pk (users s))); [simpl; apply lookup_insert_eq|].
    simpl. unfold new_user. by rewrite fold_user_setattr_email. }
  rewrite create_superuser_unfold, !create_user_truthy by done.
  by rewrite !decide_False.
Qed.

End AccountProperties.

Section AccountExamples.
Import Models.

Lemma accounts_keep_unique_emails_witness :
  unique_emails empty_db
  ∧ unique_emails
      (create_user (H := demo_auth) 0 (Some "cook@example.com") (Some "pw") []
         empty_db).2.
Proof.
  assert (unique_emails empty_db) as Hempty by (intros pk1 pk2 u1 u2; done).
  split; [done|].
  apply (@accounts_keep_unique_emails demo_auth 0 (Some "cook@example.com")
           (Some "pw") [] empty_db Hempty).
Defined.

Lemma create_user_twice_witness :
  create_user (H := demo_auth) 1 (Some "cook@example.com") None [U_is_staff true]
    one_user
  = (Raise IntegrityError, one_user).
Proof.
  refine (proj1 (@create_user_twice demo_auth 0 "cook@example.com" (Some "pw") []
                   empty_db one_user _ eq_refl 1 "cook@example.com" None
                   [U_is_staff true] _ eq_refl)).
  done.
Defined.

End AccountExamples.

(** ** Part XI. The generated file name *)

Section GeneratedName.
Import Paths.

Lemma basename_app_sep (pre f : string) :
  has sep f = false → basename (pre +:+ String sep f) = f.
Proof.
  intros Hf. induction pre as [|a pre IH].
  - rewrite str_app_nil_l. simpl. by rewrite Hf.
  - rewrite str_app_cons. simpl. rewrite has_app. simpl.
    by rewrite orb_true_r.
Qed.

Lemma from_last_app (c : ascii) (a b : string) :
  has c a = false → from_last c (a +:+ b) = from_last c b.
Proof.
  induction a as [|x a IH]; [done|]. simpl.
  intros [Hx Ha]%orb_false_iff.
  rewrite has_app, Ha, Hx. simpl.
  destruct (has c b) eqn:Hb; [by apply IH|].
  symmetry. by apply from_last_nil_iff.
Qed.

Lemma str_app_cancel_r (a b c : string) : a +:+ c = b +:+ c → a = b.
Proof.
  intros E. apply (str_app_inj_length a b c c); [|done].
  apply (f_equal String.length) in E. rewrite !str_length_app in E. lia.
Qed.

Lemma splitext_length (p : string) :
  (String.length (splitext p).2 ≤ String.length p)%nat.
Proof.
  rewrite <- (splitext_app p) at 2. rewrite str_length_app. lia.
Qed.

(** The generated name: the UUID, then the extension. *)
Lemma generated_name (rnd : Z) (filename : string) :
  let name := uuid_str (uuid4 rnd) +:+ (splitext filename).2 in
  has sep name = false
  ∧ lstrip_dots name = name
  ∧ from_last_dot name = (splitext filename).2.
Proof.
  intros name. unfold name. split_and!.
  - rewrite has_app, uuid_str_no_sep. simpl.
    destruct (splitext_ext_shape filename) as [->|(e & -> & _ & He)]; [done|].
    simpl. by rewrite He.
  - apply lstrip_dots_id.
    pose proof (uuid_str_length (uuid4 rnd)) as Hlen.
    pose proof (uuid_str_no_dot (uuid4 rnd)) as Hdot.
    destruct (uuid_str (uuid4 rnd)) as [|c u]; [done|].
    rewrite str_app_cons. simpl in *.
    apply orb_false_iff in Hdot as [-> _]. done.
  - unfold from_last_dot. rewrite from_last_app by apply uuid_str_no_dot.
    destruct (splitext_ext_shape filename) as [->|(e & -> & He & _)]; [done|].
    simpl. rewrite He. done.
Qed.

End GeneratedName.

Section GeneratedPath.
Import Paths.

(** X5.  Whatever the client's file name holds, the file lands directly in
    [uploads/recipe/]: the generated name has no separator, it is the
    path's final component, and the path is 51 characters and the
    extension, which is no longer than the name it came from. *)
Theorem recipe_image_file_path_directory (rnd : Z) (filename : string) :
  let name := uuid_str (uuid4 rnd) +:+ (splitext filename).2 in
  let path := recipe_image_file_path rnd filename in
  path = "uploads/recipe/" +:+ name
  ∧ has sep name = false
  ∧ basename path = name
  ∧ String.length path = (51 + String.length (splitext filename).2)%nat
  ∧ (String.length (splitext filename).2 ≤ String.length filename)%nat.
Proof.
  intros name path.
  destruct (generated_name rnd filename) as (Hsep & _ & _). fold name in Hsep.
  assert (path = "uploads/recipe/" +:+ name) as Hpath
    by apply recipe_image_file_path_eq.
  split_and!; [done..| | |].
  - rewrite Hpath. by apply (basename_app_sep "uploads/recipe" name).
  - rewrite Hpath. unfold name.
    by rewrite !str_length_app, uuid_str_length.
  - apply splitext_length.
Qed.

(** X6.  The stored path keeps the upload's extension: [os.path.splitext]
    of the generated path gives the directory and UUID as root and the
    very extension of the original name, so a file name that is itself a
    generated path gets the path its original name would get. *)
Theorem recipe_image_file_path_splitext (rnd : Z) (filename : string) :
  splitext (recipe_image_file_path rnd filename)
    = ("uploads/recipe/" +:+ uuid_str (uuid4 rnd), (splitext filename).2)
  ∧ ∀ rnd', recipe_image_file_path rnd' (recipe_image_file_path rnd filename)
            = recipe_image_file_path rnd' filename.
Proof.
  destruct (generated_name rnd filename) as (Hsep & Hstrip & Hext).
  assert ((splitext (recipe_image_file_path rnd filename)).2
          = (splitext filename).2) as E2.
  { rewrite splitext_ext, recipe_image_file_path_eq.
    assert (basename ("uploads/recipe/" +:+ uuid_str (uuid4 rnd)
                        +:+ (splitext filename).2)
            = uuid_str (uuid4 rnd) +:+ (splitext filename).2) as ->
      by apply (basename_app_sep "uploads/recipe" _ Hsep).
    by rewrite Hstrip. }
  split.
  - pose proof (splitext_app (recipe_image_file_path rnd filename)) as Happ.
    destruct (splitext (recipe_image_file_path rnd filename)) as [root ext].
    cbn [fst snd] in Happ, E2. subst ext. f_equal.
    rewrite recipe_image_file_path_eq in Happ.
    apply (str_app_cancel_r _ _ (splitext filename).2).
    by rewrite str_app_assoc.
  - intros rnd'. by rewrite !(recipe_image_file_path_eq rnd'), E2.
Qed.

End GeneratedPath.

Section Uuid4Bits.
Import Paths.

(** A constant of [w] bits shifted left by [k] has no bit outside
    [k .. k + w - 1]. *)
Lemma testbit_shiftl_outside (a k w n : Z) :
  0 ≤ a < 2 ^ w → 0 ≤ w → n < k ∨ k + w ≤ n →
  Z.testbit (Z.shiftl a k) n = false.
Proof.
  intros Ha Hw Hn.
  destruct (Z.lt_ge_cases n 0) as [?|Hn0]; [by apply Z.testbit_neg_r|].
  rewrite Z.shiftl_spec by done.
  destruct Hn as [Hn|Hn]; [apply Z.testbit_neg_r; lia|].
  destruct (decide (a = 0)) as [->|Hne]; [apply Z.bits_0|].
  apply Z.bits_above_log2; [lia|].
  assert (Z.log2 a < w) by (apply Z.log2_lt_pow2; lia). lia.
Qed.

(** The bits [uuid4] takes from the random bytes: every bit below 128 but
    the variant bits 62 and 63 and the version bits 76 to 79. *)
Lemma uuid4_testbit_free (rnd n : Z) :
  0 ≤ n < 128 → ¬ (62 ≤ n ≤ 63) → ¬ (76 ≤ n ≤ 79) →
  Z.testbit (uuid4 rnd) n = Z.testbit rnd n.
Proof.
  intros Hn Hvar Hver. unfold uuid4.
  rewrite Z.lor_spec, Z.land_spec, Z.lor_spec, Z.land_spec, !Z.lnot_spec by lia.
  change (Z.shiftl 49152 48) with (Z.shiftl 3 62).
  change (Z.shiftl 32768 48) with (Z.shiftl 1 63).
  change (Z.shiftl 61440 64) with (Z.shiftl 15 76).
  change (Z.shiftl 4 76) with (Z.shiftl 1 78).
  rewrite (testbit_shiftl_outside 3 62 2), (testbit_shiftl_outside 1 63 1),
    (testbit_shiftl_outside 15 76 4), (testbit_shiftl_outside 1 78 1) by lia.
  rewrite Z.mod_pow2_bits_low by lia.
  by rewrite !andb_true_r, !orb_false_r.
Qed.

Lemma uuid4_testbit_high (rnd n : Z) : 128 ≤ n → Z.testbit (uuid4 rnd) n = false.
Proof.
  intros Hn. pose proof (uuid4_range rnd) as Hr.
  destruct (decide (uuid4 rnd = 0)) as [->|Hne]; [apply Z.bits_0|].
  apply Z.bits_above_log2; [lia|].
  assert (Z.log2 (uuid4 rnd) < 128) by (apply Z.log2_lt_pow2; lia). lia.
Qed.

(** The six bits [uuid4] sets itself. *)
Lemma uuid4_testbit_fixed (rnd : Z) :
  Z.testbit (uuid4 rnd) 62 = false ∧ Z.testbit (uuid4 rnd) 63 = true
  ∧ Z.testbit (uuid4 rnd) 76 = false ∧ Z.testbit (uuid4 rnd) 77 = false
  ∧ Z.testbit (uuid4 rnd) 78 = true ∧ Z.testbit (uuid4 rnd) 79 = false.
Proof.
  unfold uuid4. generalize (rnd mod 2 ^ 128). intros int.
  repeat first [ rewrite Z.lor_spec | rewrite Z.land_spec
               | rewrite Z.lnot_spec by lia ].
  split_and!.
  all: match goal with
       | |- context [Z.testbit ?i ?n] =>
           is_var i; destruct (Z.testbit i n); reflexivity
       end.
Qed.

(** Bits 62 and 63 of a version-4 UUID spell the RFC 4122 variant. *)
Lemma uuid4_variant_nibble (rnd : Z) : 8 ≤ (uuid4 rnd / 16 ^ 15) mod 16 ≤ 11.
Proof.
  destruct (uuid4_testbit_fixed rnd) as (H62 & H63 & _).
  pose proof (uuid4_range rnd) as Hr.
  apply Z.testbit_false in H62; [|lia]. apply Z.testbit_true in H63; [|lia].
  set (n := uuid4 rnd) in *.
  change (16 ^ 15) with (2 ^ 60).
  assert (n / 2 ^ 62 = (n / 2 ^ 60) / 4) as E62
    by (rewrite Z.div_div by lia; done).
  assert (n / 2 ^ 63 = (n / 2 ^ 60) / 8) as E63
    by (rewrite Z.div_div by lia; done).
  rewrite E62 in H62. rewrite E63 in H63.
  revert H62 H63. generalize (n / 2 ^ 60). intros q H62 H63.
  Z.div_mod_to_equations. lia.
Qed.

End Uuid4Bits.

Section HexStrings.
Import Paths.

Lemma all_hex_app (a b : string) : all_hex (a +:+ b) = all_hex a && all_hex b.
Proof.
  induction a as [|c a IH]; [done|]. rewrite str_app_cons. simpl.
  by rewrite IH, andb_assoc.
Qed.

Lemma is_hex_hex_digit (d : Z) : 0 ≤ d < 16 → is_hex (hex_digit d) = true.
Proof.
  intros H.
  assert (d = 0 ∨ d = 1 ∨ d = 2 ∨ d = 3 ∨ d = 4 ∨ d = 5 ∨ d = 6 ∨ d = 7 ∨
          d = 8 ∨ d = 9 ∨ d = 10 ∨ d = 11 ∨ d = 12 ∨ d = 13 ∨ d = 14 ∨ d = 15)
    as Hd by lia.
  repeat destruct Hd as [->|Hd]; try subst d; by vm_compute.
Qed.

Lemma all_hex_hex (k : nat) (n : Z) : all_hex (hex k n) = true.
Proof.
  revert n. induction k as [|k IH]; intros n; [done|]. simpl.
  rewrite all_hex_app, IH. simpl.
  rewrite is_hex_hex_digit; [done|]. by apply Z.mod_pos_bound.
Qed.

(** The leading digit of four. *)
Lemma hex_4_split (n : Z) :
  hex 4 n = String (hex_digit ((n / 16 ^ 3) mod 16)) (hex 3 n).
Proof.
  pose proof (hex_add 1 3 n) as E. change (1 + 3)%nat with 4%nat in E.
  rewrite E. done.
Qed.

End HexStrings.

Section UuidText.
Import Paths.

(** X8.  [uuid.uuid4] takes 122 of the 128 random bits: two draws give the
    same UUID exactly when they agree on every bit below 128 other than
    the variant bits 62 and 63 and the version bits 76 to 79. *)
Theorem uuid4_free_bits (rnd rnd' : Z) :
  uuid4 rnd = uuid4 rnd'
  ↔ ∀ n, 0 ≤ n < 128 → ¬ (62 ≤ n ≤ 63) → ¬ (76 ≤ n ≤ 79) →
         Z.testbit rnd n = Z.testbit rnd' n.
Proof.
  split.
  - intros E n Hn Hvar Hver.
    by rewrite <- (uuid4_testbit_free rnd), <- (uuid4_testbit_free rnd'), E.
  - intros Hbits. apply Z.bits_inj'. intros n Hn.
    destruct (Z.lt_ge_cases n 128) as [Hlt|Hge];
      [|by rewrite !uuid4_testbit_high].
    destruct (decide (62 ≤ n ≤ 63 ∨ 76 ≤ n ≤ 79)) as [Hfixed|Hfree].
    + destruct (uuid4_testbit_fixed rnd) as (A1 & A2 & A3 & A4 & A5 & A6).
      destruct (uuid4_testbit_fixed rnd') as (B1 & B2 & B3 & B4 & B5 & B6).
      assert (n = 62 ∨ n = 63 ∨ n = 76 ∨ n = 77 ∨ n = 78 ∨ n = 79) as Hc by lia.
      destruct Hc as [-> | [-> | [-> | [-> | [-> | ->]]]]]; congruence.
    + rewrite !uuid4_testbit_free by lia. apply Hbits; lia.
Qed.

(** X7.  The name begins with the UUID in its canonical text: groups of 8,
    4, 4, 4 and 12 lower-case hexadecimal digits joined by dashes, the
    third group led by the version [4] and the fourth by a variant digit
    [8], [9], [a] or [b]. *)
Theorem uuid4_str_canonical (rnd : Z) :
  ∃ a b c v d e,
    uuid_str (uuid4 rnd)
      = a +:+ "-" +:+ b +:+ "-" +:+ String "4" c +:+ "-" +:+ String v d
          +:+ "-" +:+ e
    ∧ String.length a = 8%nat ∧ String.length b = 4%nat
    ∧ String.length c = 3%nat ∧ String.length d = 3%nat
    ∧ String.length e = 12%nat
    ∧ all_hex (a +:+ b +:+ c +:+ d +:+ e) = true
    ∧ (v = "8" ∨ v = "9" ∨ v = "a" ∨ v = "b")%char.
Proof.
  set (n := uuid4 rnd).
  exists (hex 8 (n / 16 ^ 24)), (hex 4 (n / 16 ^ 20)), (hex 3 (n / 16 ^ 16)),
    (hex_digit ((n / 16 ^ 15) mod 16)), (hex 3 (n / 16 ^ 12)), (hex 12 n).
  split_and!; try apply hex_length.
  - rewrite uuid_str_groups.
    rewrite (hex_4_split (n / 16 ^ 16)), (hex_4_split (n / 16 ^ 12)).
    rewrite !Z.div_div by lia.
    change (16 ^ 16 * 16 ^ 3) with (16 ^ 19).
    change (16 ^ 12 * 16 ^ 3) with (16 ^ 15).
    unfold n at 3. rewrite uuid4_version_nibble. done.
  - by rewrite !all_hex_app, !all_hex_hex.
  - pose proof (uuid4_variant_nibble rnd) as Hv. fold n in Hv.
    assert ((n / 16 ^ 15) mod 16 = 8 ∨ (n / 16 ^ 15) mod 16 = 9
            ∨ (n / 16 ^ 15) mod 16 = 10 ∨ (n / 16 ^ 15) mod 16 = 11)
      as Hc by lia.
    destruct Hc as [-> | [-> | [-> | ->]]]; auto.
Qed.

End UuidText.

Section Uuid4Collisions.
Import Paths.

(** Two draws that agree on the bits [uuid4] keeps give the same UUID. *)
Lemma uuid4_ext (rnd rnd' : Z) :
  (∀ n, 0 ≤ n < 128 → ¬ (62 ≤ n ≤ 63) → ¬ (76 ≤ n ≤ 79) →
        Z.testbit rnd n = Z.testbit rnd' n) →
  uuid4 rnd = uuid4 rnd'.
Proof.
  intros Hbits. apply Z.bits_inj'. intros n Hn.
  destruct (Z.lt_ge_cases n 128) as [Hlt|Hge];
    [|by rewrite !uuid4_testbit_high].
  destruct (decide (62 ≤ n ≤ 63 ∨ 76 ≤ n ≤ 79)) as [Hfixed|Hfree].
  - destruct (uuid4_testbit_fixed rnd) as (A1 & A2 & A3 & A4 & A5 & A6).
    destruct (uuid4_testbit_fixed rnd') as (B1 & B2 & B3 & B4 & B5 & B6).
    assert (n = 62 ∨ n = 63 ∨ n = 76 ∨ n = 77 ∨ n = 78 ∨ n = 79) as Hc by lia.
    destruct Hc as [-> | [-> | [-> | [-> | [-> | ->]]]]]; congruence.
  - rewrite !uuid4_testbit_free by lia. apply Hbits; lia.
Qed.

(** Sixteen bytes with bit 62 turned over: other bytes, the same UUID. *)
Lemma uuid4_flip_variant_bit (rnd : Z) :
  0 ≤ rnd < 2 ^ 128 →
  0 ≤ Z.lxor rnd (2 ^ 62) < 2 ^ 128
  ∧ Z.lxor rnd (2 ^ 62) ≠ rnd
  ∧ uuid4 (Z.lxor rnd (2 ^ 62)) = uuid4 rnd.
Proof.
  intros Hr. split; [|split].
  - assert (0 ≤ Z.lxor rnd (2 ^ 62)) as Hpos by (apply Z.lxor_nonneg; lia).
    split; [done|].
    destruct (decide (Z.lxor rnd (2 ^ 62) = 0)) as [->|Hne]; [lia|].
    apply Z.log2_lt_pow2; [lia|].
    pose proof (Z.log2_lxor rnd (2 ^ 62)) as Hl.
    assert (Z.log2 rnd < 128).
    { destruct (decide (rnd = 0)) as [->|?]; [done|]. apply Z.log2_lt_pow2; lia. }
    rewrite Z.log2_pow2 in Hl by lia. lia.
  - intros E. apply (f_equal (λ z, Z.testbit z 62)) in E.
    rewrite Z.lxor_spec, Z.pow2_bits_true in E by lia.
    by destruct (Z.testbit rnd 62).
  - apply uuid4_ext. intros n Hn Hvar _.
    rewrite Z.lxor_spec, Z.pow2_bits_false by lia. apply xorb_false_r.
Qed.

End Uuid4Collisions.

Section ImagePathFormat.
Import Paths.

(** C6, as the claim words it, fails: a fresh draw does not make a fresh
    path.  [uuid.uuid4] overwrites six of the 128 random bits, so two
    uploads of [pic.JPG] whose sixteen random bytes differ (here in bit 62
    alone) are given the same path. *)
Lemma recipe_image_file_path_collision_counterexample :
  2 ^ 62 ≠ 0 ∧ 0 ≤ 2 ^ 62 < 2 ^ 128
  ∧ recipe_image_file_path (2 ^ 62) "pic.JPG"
    = recipe_image_file_path 0 "pic.JPG".
Proof. split; [done|]. split; [done|reflexivity]. Qed.

(** C6, amended.  For every upload, the stored path is [uploads/recipe/],
    then the 36 characters of a version-4 UUID, then the extension of the
    original file name exactly as [os.path.splitext] gives it: what follows
    the last dot of the name's final component once its leading dots are
    set aside, a verbatim suffix of the name, empty (and then the path has
    no dot) or beginning with its dot.  Two uploads get the same path
    exactly when their UUIDs are equal and their extensions are: nothing
    but the random draw keeps two uploads of one kind of file apart, and
    for every draw of sixteen bytes there is another draw that gives the
    same path. *)
Theorem recipe_image_file_path_format (rnd : Z) (filename : string) :
  let ext := (splitext filename).2 in
  recipe_image_file_path rnd filename
    = "uploads/recipe/" +:+ uuid_str (uuid4 rnd) +:+ ext
  ∧ String.length (uuid_str (uuid4 rnd)) = 36%nat
  ∧ (∃ a b, uuid_str (uuid4 rnd) = a +:+ "4" +:+ b ∧ String.length a = 14%nat)
  ∧ (∃ root, filename = root +:+ ext)
  ∧ ext = from_last_dot (lstrip_dots (basename filename))
  ∧ (ext = EmptyString
     ∨ ∃ e, ext = String extsep e ∧ has extsep e = false ∧ has sep e = false)
  ∧ (∀ rnd' filename',
       recipe_image_file_path rnd' filename'
       = recipe_image_file_path rnd filename
       ↔ uuid4 rnd' = uuid4 rnd ∧ (splitext filename').2 = ext)
  ∧ (0 ≤ rnd < 2 ^ 128 →
     ∃ rnd', 0 ≤ rnd' < 2 ^ 128 ∧ rnd' ≠ rnd
       ∧ recipe_image_file_path rnd' filename
         = recipe_image_file_path rnd filename).
Proof.
  intros ext. split_and!.
  - apply recipe_image_file_path_eq.
  - apply uuid_str_length.
  - apply uuid4_str_version.
  - exists (splitext filename).1. symmetry. apply splitext_app.
  - apply splitext_ext.
  - apply splitext_ext_shape.
  - intros rnd' filename'. rewrite !recipe_image_file_path_eq. split.
    + intros Heq. apply (inj (String.append "uploads/recipe/")) in Heq.
      apply str_app_inj_length in Heq as [Heq Hext];
        [|by rewrite !uuid_str_length].
      split; [|done]. apply uuid_str_inj; [apply uuid4_range..|done].
    + intros [-> ->]. done.
  - intros Hr.
    destruct (uuid4_flip_variant_bit rnd Hr) as (Hr' & Hne & Hu).
    exists (Z.lxor rnd (2 ^ 62)). split; [done|]. split; [done|].
    by rewrite !recipe_image_file_path_eq, Hu.
Qed.

(** Uploads of [pic.JPG]: the extension keeps its case; the draws 1 and 2
    give different paths, and some other draw gives the path of draw 1. *)
Lemma recipe_image_file_path_format_witness :
  recipe_image_file_path 1 "pic.JPG"
    = "uploads/recipe/00000000-0000-4000-8000-000000000001.JPG"
  ∧ recipe_image_file_path 2 "pic.JPG" ≠ recipe_image_file_path 1 "pic.JPG"
  ∧ ∃ rnd', 0 ≤ rnd' < 2 ^ 128 ∧ rnd' ≠ 1
      ∧ recipe_image_file_path rnd' "pic.JPG" = recipe_image_file_path 1 "pic.JPG".
Proof.
  destruct (recipe_image_file_path_format 1 "pic.JPG")
    as (_ & _ & _ & _ & _ & _ & Hsame & Hother).
  split_and!.
  - reflexivity.
  - intros [Hu _]%Hsame. by vm_compute in Hu.
  - apply Hother. lia.
Defined.

End ImagePathFormat.

(** ** Part XII. Invariants and frames of the writes *)

Section StoreFacts.
Import Models.

(** Two stores with the same six tables are the same store. *)
Lemma DB_ext (s t : DB) :
  users s = users t → recipes s = recipes t → tags s = tags t →
  ingredients s = ingredients t → recipe_tags s = recipe_tags t →
  recipe_ingredients s = recipe_ingredients t → s = t.
Proof. destruct s, t. simpl. by intros -> -> -> -> -> ->. Qed.

End StoreFacts.

Section LoopFacts.
Import Models.

Lemma for_each_app {A} (l1 l2 : list A) (body : A → M unit) (s : DB) :
  for_each (l1 ++ l2) body s
  = match for_each l1 body s with
    | (Ok _, s1) => for_each l2 body s1
    | (Raise e, s1) => (Raise e, s1)
    end.
Proof.
  revert s. induction l1 as [|x l1 IH]; intros s; [done|].
  simpl. unfold bind. destruct (body x s) as [[[]|e] s1]; [apply IH|done].
Qed.

End LoopFacts.

Section TagIntegrity.
Import Models Serializers.
Local Open Scope nat_scope.

(** A round adds a pair only for a recipe whose row is there. *)
Lemma tag_step_recipe (request : Request) (recipe : Recipe) (tag : NameDict)
    (s s1 : DB) (r : result unit) :
  tag_step request recipe tag s = (r, s1) →
  recipe_tags s1 = recipe_tags s ∨ id recipe ∈ dom (recipes s).
Proof.
  unfold tag_step, bind.
  assert (∀ a s0, Tag_objects_get_or_create (request_user request)
                    (dict_name tag) s = (a, s0) →
            recipes s0 = recipes s ∧ recipe_tags s0 = recipe_tags s) as Hget.
  { intros a s0 E.
    destruct (Tag_objects_get_or_create_spec (request_user request)
                (dict_name tag) s) as [pk Hm|Hm Hu|Hm Hu|Hm];
      by injection E as <- <-. }
  destruct (Tag_objects_get_or_create (request_user request) (dict_name tag) s)
    as [[a|e] s0]; destruct (Hget _ _ eq_refl) as [Er Ep];
    [|intros [= _ <-]; by left].
  unfold tags_add, bind, get_db.
  destruct (decide ((id recipe, a.1) ∈ recipe_tags s0));
    [intros [= _ <-]; by left|].
  destruct (decide (id recipe ∈ dom (recipes s0))) as [Hin|];
    [|intros [= _ <-]; by left].
  intros _. right. by rewrite <- Er.
Qed.

Lemma tags_integrity_ext (s s1 : DB) :
  dom (users s) ⊆ dom (users s1) → dom (recipes s) ⊆ dom (recipes s1) →
  tags s1 = tags s → recipe_tags s1 = recipe_tags s →
  tags_integrity s → tags_integrity s1.
Proof.
  intros Hu Hr Ht Hp [Hown Hpair]. split.
  - intros pk t. rewrite Ht. intros Hpk. apply Hu. by eapply Hown.
  - intros rid pk. rewrite Hp, Ht. intros Hin.
    destruct (Hpair rid pk Hin) as [? ?]. split; [by apply Hr|done].
Qed.

Lemma tag_step_integrity (request : Request) (recipe : Recipe) (tag : NameDict)
    (s s1 : DB) (r : result unit) :
  tag_step request recipe tag s = (r, s1) →
  tags_integrity s → tags_integrity s1.
Proof.
  intros Hstep [Hown Hpair].
  destruct (tag_step_spec request recipe tag s) as (r' & s1' & Hstep' & Heff & _).
  rewrite Hstep in Hstep'. injection Hstep' as <- <-.
  destruct Heff as [Eu Er _ _ Et Ep].
  assert (tags s ⊆ tags s1) as Hsub.
  { destruct Et as [->|(_ & _ & ->)]; [done|].
    apply insert_subseteq, new_pk_fresh. }
  split.
  - intros pk t Hpk. rewrite Eu.
    destruct Et as [Et|(_ & Hu & Et)]; rewrite Et in Hpk; [by eapply Hown|].
    apply lookup_insert_Some in Hpk as [[_ <-]|[_ Hpk]]; [done|by eapply Hown].
  - intros rid pk Hin. rewrite Er.
    assert ((rid, pk) ∈ recipe_tags s → rid ∈ dom (recipes s) ∧ pk ∈ dom (tags s1))
      as Hold.
    { intros Hin'. destruct (Hpair rid pk Hin') as [? Hpk]. split; [done|].
      apply elem_of_dom in Hpk as [t Hpk]. apply elem_of_dom. exists t.
      by eapply lookup_weaken. }
    destruct Ep as [Ep|(pk' & Hpk' & Ep)]; rewrite Ep in Hin; [by apply Hold|].
    apply elem_of_union in Hin as [[= -> ->]%elem_of_singleton|Hin];
      [|by apply Hold].
    apply tags_matching_lookup in Hpk' as [Hpk' _].
    destruct (decide ((id recipe, pk') ∈ recipe_tags s)) as [Hin|Hnew];
      [by apply Hold|].
    split; [|by apply elem_of_dom].
    destruct (tag_step_recipe _ _ _ _ _ _ Hstep) as [E|?]; [|done].
    destruct Hnew. rewrite <- E, Ep. apply elem_of_union. left.
    by apply elem_of_singleton.
Qed.

(** The loop keeps the foreign keys of tags and recipe-tag pairs, whatever
    its outcome. *)
Lemma _get_and_create_tags_integrity (request : Request) (recipe : Recipe)
    (tags0 : list NameDict) (s s' : DB) (r : result unit) :
  _get_and_create_tags request tags0 recipe s = (r, s') →
  tags_integrity s → tags_integrity s'.
Proof.
  revert tags0 s r s'.
  apply (_get_and_create_tags_ind request recipe
           (λ _ s _ s', tags_integrity s → tags_integrity s')).
  - done.
  - intros tag tags0 s e s1 Hstep _ _. by eapply tag_step_integrity.
  - intros tag tags0 s s1 pk r s' Hstep _ _ _ _ _ IH Hs.
    apply IH. by eapply tag_step_integrity.
Qed.

(** The loop leaves the tags of every other recipe as they were. *)
Lemma _get_and_create_tags_others (request : Request) (recipe : Recipe)
    (tags0 : list NameDict) (s s' : DB) (r : result unit) (rid : nat) :
  _get_and_create_tags request tags0 recipe s = (r, s') →
  rid ≠ id recipe → tags_of rid s' = tags_of rid s.
Proof.
  intros Hrun Hne.
  destruct (_get_and_create_tags_pairs _ _ _ _ _ _ Hrun) as [Hsub Hnew].
  apply set_eq. intros pk. rewrite !elem_of_tags_of. split.
  - intros Hin. destruct (Hnew _ Hin) as [?|(tag & pk' & _ & [= -> _] & _)]; done.
  - apply Hsub.
Qed.

(** The block of [update] for tags, in its two cases. *)
Lemma update_tags_run (request : Request) (instance : Recipe)
    (tags0 : option (list NameDict)) (s s1 : DB) (r : result unit) :
  update_tags request instance tags0 s = (r, s1) →
  (tags0 = None ∧ r = Ok tt ∧ s1 = s)
  ∨ ∃ l, tags0 = Some l
      ∧ _get_and_create_tags request l instance
          (set_recipe_tags (filter (λ p, p.1 ≠ id instance)) s) = (r, s1).
Proof.
  destruct tags0 as [l|]; simpl.
  - intros Hrun. right. by exists l.
  - intros [= <- <-]. by left.
Qed.

Lemma update_tags_integrity (request : Request) (instance : Recipe)
    (tags0 : option (list NameDict)) (s s1 : DB) (r : result unit) :
  update_tags request instance tags0 s = (r, s1) →
  tags_integrity s → tags_integrity s1.
Proof.
  intros [(_ & _ & ->)|(l & _ & Hrun)]%update_tags_run Hs; [done|].
  apply (_get_and_create_tags_integrity _ _ _ _ _ _ Hrun).
  destruct Hs as [Hown Hpair]. split; [done|].
  intros rid pk [_ Hin]%elem_of_filter. by apply Hpair.
Qed.

(** Whatever its outcome, the block deletes no tag, keeps names that had
    one row at most so, and leaves the tags of other recipes alone. *)
Lemma update_tags_rows (request : Request) (instance : Recipe)
    (tags0 : option (list NameDict)) (s s1 : DB) (r : result unit) :
  update_tags request instance tags0 s = (r, s1) →
  tags s ⊆ tags s1
  ∧ (∀ owner n, size (tags_matching owner n s) ≤ 1 →
                size (tags_matching owner n s1) ≤ 1)
  ∧ (∀ rid, rid ≠ id instance → tags_of rid s1 = tags_of rid s).
Proof.
  intros [(_ & _ & ->)|(l & _ & Hrun)]%update_tags_run; [done|].
  split_and!.
  - by destruct (_get_and_create_tags_rows _ _ _ _ _ _ Hrun) as [Hsub _].
  - intros owner n Hsize.
    by apply (_get_and_create_tags_size _ _ _ _ _ _ owner n Hrun).
  - intros rid Hne.
    rewrite (_get_and_create_tags_others _ _ _ _ _ _ rid Hrun Hne).
    apply set_eq. intros pk. rewrite !elem_of_tags_of. simpl.
    rewrite elem_of_filter. simpl. tauto.
Qed.

(** After the block, for a list that was given, every tag of the recipe is
    a row of a submitted name, whatever the outcome. *)
Lemma update_tags_replaced (request : Request) (instance : Recipe)
    (l : list NameDict) (s s1 : DB) (r : result unit) :
  update_tags request instance (Some l) s = (r, s1) →
  ∀ pk, pk ∈ tags_of (id instance) s1 →
    ∃ tag, tag ∈ l
      ∧ tags s1 !! pk = Some (tag_row (request_user request) (dict_name tag)).
Proof.
  intros [(? & _)|(l' & [= <-] & Hrun)]%update_tags_run; [done|].
  intros pk Hin%elem_of_tags_of.
  destruct (_get_and_create_tags_pairs _ _ _ _ _ _ Hrun) as [_ Hnew].
  destruct (Hnew _ Hin) as [Hold|(tag & pk' & ? & [= <-] & ?)]; [|by exists tag].
  simpl in Hold. apply elem_of_filter in Hold as [Hne _]. done.
Qed.

End TagIntegrity.

Section IngredientIntegrity.
Import Models Serializers.
Local Open Scope nat_scope.

(** A round adds a pair only for a recipe whose row is there. *)
Lemma ingredient_step_recipe (request : Request) (recipe : Recipe) (ingredient : NameDict)
    (s s1 : DB) (r : result unit) :
  ingredient_step request recipe ingredient s = (r, s1) →
  recipe_ingredients s1 = recipe_ingredients s ∨ id recipe ∈ dom (recipes s).
Proof.
  unfold ingredient_step, bind.
  assert (∀ a s0, Ingredient_objects_get_or_create (request_user request)
                    (dict_name ingredient) s = (a, s0) →
            recipes s0 = recipes s ∧ recipe_ingredients s0 = recipe_ingredients s) as Hget.
  { intros a s0 E.
    destruct (Ingredient_objects_get_or_create_spec (request_user request)
                (dict_name ingredient) s) as [pk Hm|Hm Hu|Hm Hu|Hm];
      by injection E as <- <-. }
  destruct (Ingredient_objects_get_or_create (request_user request) (dict_name ingredient) s)
    as [[a|e] s0]; destruct (Hget _ _ eq_refl) as [Er Ep];
    [|intros [= _ <-]; by left].
  unfold ingredients_add, bind, get_db.
  destruct (decide ((id recipe, a.1) ∈ recipe_ingredients s0));
    [intros [= _ <-]; by left|].
  destruct (decide (id recipe ∈ dom (recipes s0))) as [Hin|];
    [|intros [= _ <-]; by left].
  intros _. right. by rewrite <- Er.
Qed.

Lemma ingredients_integrity_ext (s s1 : DB) :
  dom (users s) ⊆ dom (users s1) → dom (recipes s) ⊆ dom (recipes s1) →
  ingredients s1 = ingredients s → recipe_ingredients s1 = recipe_ingredients s →
  ingredients_integrity s → ingredients_integrity s1.
Proof.
  intros Hu Hr Ht Hp [Hown Hpair]. split.
  - intros pk t. rewrite Ht. intros Hpk. apply Hu. by eapply Hown.
  - intros rid pk. rewrite Hp, Ht. intros Hin.
    destruct (Hpair rid pk Hin) as [? ?]. split; [by apply Hr|done].
Qed.

Lemma ingredient_step_integrity (request : Request) (recipe : Recipe) (ingredient : NameDict)
    (s s1 : DB) (r : result unit) :
  ingredient_step request recipe ingredient s = (r, s1) →
  ingredients_integrity s → ingredients_integrity s1.
Proof.
  intros Hstep [Hown Hpair].
  destruct (ingredient_step_spec request recipe ingredient s) as (r' & s1' & Hstep' & Heff & _).
  rewrite Hstep in Hstep'. injection Hstep' as <- <-.
  destruct Heff as [Eu Er _ _ Et Ep].
  assert (ingredients s ⊆ ingredients s1) as Hsub.
  { destruct Et as [->|(_ & _ & ->)]; [done|].
    apply insert_subseteq, new_pk_fresh. }
  split.
  - intros pk t Hpk. rewrite Eu.
    destruct Et as [Et|(_ & Hu & Et)]; rewrite Et in Hpk; [by eapply Hown|].
    apply lookup_insert_Some in Hpk as [[_ <-]|[_ Hpk]]; [done|by eapply Hown].
  - intros rid pk Hin. rewrite Er.
    assert ((rid, pk) ∈ recipe_ingredients s → rid ∈ dom (recipes s) ∧ pk ∈ dom (ingredients s1))
      as Hold.
    { intros Hin'. destruct (Hpair rid pk Hin') as [? Hpk]. split; [done|].
      apply elem_of_dom in Hpk as [t Hpk]. apply elem_of_dom. exists t.
      by eapply lookup_weaken. }
    destruct Ep as [Ep|(pk' & Hpk' & Ep)]; rewrite Ep in Hin; [by apply Hold|].
    apply elem_of_union in Hin as [[= -> ->]%elem_of_singleton|Hin];
      [|by apply Hold].
    apply ingredients_matching_lookup in Hpk' as [Hpk' _].
    destruct (decide ((id recipe, pk') ∈ recipe_ingredients s)) as [Hin|Hnew];
      [by apply Hold|].
    split; [|by apply elem_of_dom].
    destruct (ingredient_step_recipe _ _ _ _ _ _ Hstep) as [E|?]; [|done].
    destruct Hnew. rewrite <- E, Ep. apply elem_of_union. left.
    by apply elem_of_singleton.
Qed.

(** The loop keeps the foreign keys of ingredients and recipe-ingredient pairs, whatever
    its outcome. *)
Lemma _get_and_create_ingredients_integrity (request : Request) (recipe : Recipe)
    (ingredients0 : list NameDict) (s s' : DB) (r : result unit) :
  _get_and_create_ingredients request ingredients0 recipe s = (r, s') →
  ingredients_integrity s → ingredients_integrity s'.
Proof.
  revert ingredients0 s r s'.
  apply (_get_and_create_ingredients_ind request recipe
           (λ _ s _ s', ingredients_integrity s → ingredients_integrity s')).
  - done.
  - intros ingredient ingredients0 s e s1 Hstep _ _. by eapply ingredient_step_integrity.
  - intros ingredient ingredients0 s s1 pk r s' Hstep _ _ _ _ _ IH Hs.
    apply IH. by eapply ingredient_step_integrity.
Qed.

(** The loop leaves the ingredients of every other recipe as they were. *)
Lemma _get_and_create_ingredients_others (request : Request) (recipe : Recipe)
    (ingredients0 : list NameDict) (s s' : DB) (r : result unit) (rid : nat) :
  _get_and_create_ingredients request ingredients0 recipe s = (r, s') →
  rid ≠ id recipe → ingredients_of rid s' = ingredients_of rid s.
Proof.
  intros Hrun Hne.
  destruct (_get_and_create_ingredients_pairs _ _ _ _ _ _ Hrun) as [Hsub Hnew].
  apply set_eq. intros pk. rewrite !elem_of_ingredients_of. split.
  - intros Hin. destruct (Hnew _ Hin) as [?|(ingredient & pk' & _ & [= -> _] & _)]; done.
  - apply Hsub.
Qed.

(** The block of [update] for ingredients, in its two cases. *)
Lemma update_ingredients_run (request : Request) (instance : Recipe)
    (ingredients0 : option (list NameDict)) (s s1 : DB) (r : result unit) :
  update_ingredients request instance ingredients0 s = (r, s1) →
  (ingredients0 = None ∧ r = Ok tt ∧ s1 = s)
  ∨ ∃ l, ingredients0 = Some l
      ∧ _get_and_create_ingredients request l instance
          (set_recipe_ingredients (filter (λ p, p.1 ≠ id instance)) s) = (r, s1).
Proof.
  destruct ingredients0 as [l|]; simpl.
  - intros Hrun. right. by exists l.
  - intros [= <- <-]. by left.
Qed.

Lemma update_ingredients_integrity (request : Request) (instance : Recipe)
    (ingredients0 : option (list NameDict)) (s s1 : DB) (r : result unit) :
  update_ingredients request instance ingredients0 s = (r, s1) →
  ingredients_integrity s → ingredients_integrity s1.
Proof.
  intros [(_ & _ & ->)|(l & _ & Hrun)]%update_ingredients_run Hs; [done|].
  apply (_get_and_create_ingredients_integrity _ _ _ _ _ _ Hrun).
  destruct Hs as [Hown Hpair]. split; [done|].
  intros rid pk [_ Hin]%elem_of_filter. by apply Hpair.
Qed.

(** Whatever its outcome, the block deletes no ingredient, keeps names that had
    one row at most so, and leaves the ingredients of other recipes alone. *)
Lemma update_ingredients_rows (request : Request) (instance : Recipe)
    (ingredients0 : option (list NameDict)) (s s1 : DB) (r : result unit) :
  update_ingredients request instance ingredients0 s = (r, s1) →
  ingredients s ⊆ ingredients s1
  ∧ (∀ owner n, size (ingredients_matching owner n s) ≤ 1 →
                size (ingredients_matching owner n s1) ≤ 1)
  ∧ (∀ rid, rid ≠ id instance → ingredients_of rid s1 = ingredients_of rid s).
Proof.
  intros [(_ & _ & ->)|(l & _ & Hrun)]%update_ingredients_run; [done|].
  split_and!.
  - by destruct (_get_and_create_ingredients_rows _ _ _ _ _ _ Hrun) as [Hsub _].
  - intros owner n Hsize.
    by apply (_get_and_create_ingredients_size _ _ _ _ _ _ owner n Hrun).
  - intros rid Hne.
    rewrite (_get_and_create_ingredients_others _ _ _ _ _ _ rid Hrun Hne).
    apply set_eq. intros pk. rewrite !elem_of_ingredients_of. simpl.
    rewrite elem_of_filter. simpl. tauto.
Qed.

(** After the block, for a list that was given, every ingredient of the recipe is
    a row of a submitted name, whatever the outcome. *)
Lemma update_ingredients_replaced (request : Request) (instance : Recipe)
    (l : list NameDict) (s s1 : DB) (r : result unit) :
  update_ingredients request instance (Some l) s = (r, s1) →
  ∀ pk, pk ∈ ingredients_of (id instance) s1 →
    ∃ ingredient, ingredient ∈ l
      ∧ ingredients s1 !! pk = Some (ingredient_row (request_user request) (dict_name ingredient)).
Proof.
  intros [(? & _)|(l' & [= <-] & Hrun)]%update_ingredients_run; [done|].
  intros pk Hin%elem_of_ingredients_of.
  destruct (_get_and_create_ingredients_pairs _ _ _ _ _ _ Hrun) as [_ Hnew].
  destruct (Hnew _ Hin) as [Hold|(ingredient & pk' & ? & [= <-] & ?)]; [|by exists ingredient].
  simpl in Hold. apply elem_of_filter in Hold as [Hne _]. done.
Qed.

End IngredientIntegrity.

Section RunFacts.
Import Models Serializers.
Local Open Scope nat_scope.

(** A property of the store [create] leaves, by the step it stopped at. *)
Lemma create_runs (R : DB → Prop) (request : Request)
    (validated_data : ValidatedData) (s : DB) :
  R s →
  (∀ recipe s1 r2 s2,
     Recipe_objects_create (vd_fields validated_data) s = (Ok recipe, s1) →
     _get_and_create_tags request (default [] (vd_tags validated_data)) recipe s1
       = (r2, s2) →
     R s2
     ∧ ∀ r3 s3,
         _get_and_create_ingredients request
           (default [] (vd_ingredients validated_data)) recipe s2 = (r3, s3) →
         R s3) →
  R (create request validated_data s).2.
Proof.
  intros H0 H. rewrite create_unfold.
  destruct (Recipe_objects_create _ s) as [[recipe|e] s1] eqn:Hc.
  2: { by apply Recipe_objects_create_Raise in Hc as [-> _]. }
  destruct (_get_and_create_tags _ _ recipe s1) as [r2 s2] eqn:Ht.
  destruct (H _ _ _ _ eq_refl Ht) as [H2 H3].
  destruct r2 as [[]|]; [|done].
  destruct (_get_and_create_ingredients _ _ recipe s2) as [r3 s3] eqn:Hi.
  specialize (H3 _ _ eq_refl). by destruct r3 as [[]|].
Qed.

(** A property of the store [update] leaves, by the step it stopped at. *)
Lemma update_runs (R : DB → Prop) (request : Request) (instance : Recipe)
    (validated_data : ValidatedData) (s : DB) :
  (∀ r1 s1,
     update_tags request instance (vd_tags validated_data) s = (r1, s1) →
     R s1
     ∧ ∀ r2 s2,
         update_ingredients request instance (vd_ingredients validated_data) s1
           = (r2, s2) →
         R s2
         ∧ (user (fold_left setattr (vd_fields validated_data) instance)
              ∈ dom (users s2) →
            R (set_recipes
                 (insert (id instance)
                    (fold_left setattr (vd_fields validated_data) instance)) s2))) →
  R (update request instance validated_data s).2.
Proof.
  intros H. rewrite update_unfold.
  destruct (update_tags _ _ _ s) as [r1 s1] eqn:Ht.
  destruct (H _ _ eq_refl) as [H1 H2].
  destruct r1 as [[]|]; [|done].
  destruct (update_ingredients _ _ _ s1) as [r2 s2] eqn:Hi.
  destruct (H2 _ _ eq_refl) as [H3 H4].
  destruct r2 as [[]|]; [|done].
  simpl. case_decide; [|done]. simpl. rewrite fold_setattr_id. by apply H4.
Qed.

Lemma recipes_integrity_ext (s s1 : DB) :
  dom (users s) ⊆ dom (users s1) → recipes s1 = recipes s →
  recipes_integrity s → recipes_integrity s1.
Proof.
  intros Hu Hr Hs pk row. rewrite Hr. intros Hrow.
  destruct (Hs pk row Hrow) as [? ?]. split; [done|by apply Hu].
Qed.

(** Writing a recipe's row under its key keeps the foreign keys. *)
Lemma referential_integrity_row (pk : nat) (row : Recipe) (s : DB) :
  id row = pk → user row ∈ dom (users s) →
  referential_integrity s →
  referential_integrity (set_recipes (insert pk row) s).
Proof.
  intros Hid Hu (Hr & Ht & Hi). split_and!.
  - intros pk' row'. simpl.
    intros [[<- <-]|[_ Hrow]]%lookup_insert_Some; [done|by apply Hr].
  - eapply tags_integrity_ext; [..|done]; try done.
    simpl. rewrite dom_insert_L. apply union_subseteq_r.
  - eapply ingredients_integrity_ext; [..|done]; try done.
    simpl. rewrite dom_insert_L. apply union_subseteq_r.
Qed.

Lemma _get_and_create_tags_referential (request : Request) (recipe : Recipe)
    (tags0 : list NameDict) (s s' : DB) (r : result unit) :
  _get_and_create_tags request tags0 recipe s = (r, s') →
  referential_integrity s → referential_integrity s'.
Proof.
  intros Hrun (Hr & Ht & Hi).
  destruct (_get_and_create_tags_frame _ _ _ _ _ _ Hrun) as (Eu & Er & Ei & Ep).
  split_and!.
  - eapply recipes_integrity_ext; [..|done]; [by rewrite Eu|done].
  - by eapply _get_and_create_tags_integrity.
  - eapply ingredients_integrity_ext; [..|done]; try done; by rewrite ?Eu, ?Er.
Qed.

Lemma _get_and_create_ingredients_referential (request : Request) (recipe : Recipe)
    (ingredients0 : list NameDict) (s s' : DB) (r : result unit) :
  _get_and_create_ingredients request ingredients0 recipe s = (r, s') →
  referential_integrity s → referential_integrity s'.
Proof.
  intros Hrun (Hr & Ht & Hi).
  destruct (_get_and_create_ingredients_frame _ _ _ _ _ _ Hrun)
    as (Eu & Er & Et & Ep).
  split_and!.
  - eapply recipes_integrity_ext; [..|done]; [by rewrite Eu|done].
  - eapply tags_integrity_ext; [..|done]; try done; by rewrite ?Eu, ?Er.
  - by eapply _get_and_create_ingredients_integrity.
Qed.

Lemma update_tags_referential (request : Request) (instance : Recipe)
    (tags0 : option (list NameDict)) (s s1 : DB) (r : result unit) :
  update_tags request instance tags0 s = (r, s1) →
  referential_integrity s → referential_integrity s1.
Proof.
  intros Hrun (Hr & Ht & Hi).
  destruct (update_tags_frame _ _ _ _ _ _ Hrun) as (Eu & Er & Ei & Ep).
  split_and!.
  - eapply recipes_integrity_ext; [..|done]; [by rewrite Eu|done].
  - by eapply update_tags_integrity.
  - eapply ingredients_integrity_ext; [..|done]; try done; by rewrite ?Eu, ?Er.
Qed.

Lemma update_ingredients_referential (request : Request) (instance : Recipe)
    (ingredients0 : option (list NameDict)) (s s1 : DB) (r : result unit) :
  update_ingredients request instance ingredients0 s = (r, s1) →
  referential_integrity s → referential_integrity s1.
Proof.
  intros Hrun (Hr & Ht & Hi).
  destruct (update_ingredients_frame _ _ _ _ _ _ Hrun) as (Eu & Er & Et & Ep).
  split_and!.
  - eapply recipes_integrity_ext; [..|done]; [by rewrite Eu|done].
  - eapply tags_integrity_ext; [..|done]; try done; by rewrite ?Eu, ?Er.
  - by eapply update_ingredients_integrity.
Qed.

Lemma create_referential (request : Request) (validated_data : ValidatedData)
    (s : DB) :
  referential_integrity s →
  referential_integrity (create request validated_data s).2.
Proof.
  intros Hs. apply (create_runs referential_integrity); [done|].
  intros recipe s1 r2 s2 Hc Ht.
  apply Recipe_objects_create_Ok in Hc as (_ & _ & -> & Hu & _).
  assert (referential_integrity s2) as H2.
  { apply (_get_and_create_tags_referential _ _ _ _ _ _ Ht).
    by apply referential_integrity_row. }
  split; [done|]. intros r3 s3 Hi.
  by apply (_get_and_create_ingredients_referential _ _ _ _ _ _ Hi).
Qed.

Lemma update_referential (request : Request) (instance : Recipe)
    (validated_data : ValidatedData) (s : DB) :
  referential_integrity s →
  referential_integrity (update request instance validated_data s).2.
Proof.
  intros Hs. apply (update_runs referential_integrity).
  intros r1 s1 Ht.
  assert (referential_integrity s1) as H1
    by (by apply (update_tags_referential _ _ _ _ _ _ Ht)).
  split; [done|]. intros r2 s2 Hi.
  assert (referential_integrity s2) as H2
    by (by apply (update_ingredients_referential _ _ _ _ _ _ Hi)).
  split; [done|]. intros Hu.
  apply referential_integrity_row; [apply fold_setattr_id|done..].
Qed.

Lemma account_step_referential (s s' : DB) :
  account_step s s' → referential_integrity s → referential_integrity s'.
Proof.
  intros Hstep (Hr & Ht & Hi).
  destruct (account_step_frame _ _ Hstep) as (Hu & Er & Et & Ei & Ept & Epi).
  apply subseteq_dom in Hu. split_and!.
  - by eapply recipes_integrity_ext.
  - eapply tags_integrity_ext; [..|done]; try done. by rewrite Er.
  - eapply ingredients_integrity_ext; [..|done]; try done. by rewrite Er.
Qed.

(** Names stay unique through the writes. *)
Lemma create_tag_names (request : Request) (validated_data : ValidatedData)
    (s : DB) (owner : nat) (n : string) :
  size (tags_matching owner n s) ≤ 1 →
  size (tags_matching owner n (create request validated_data s).2) ≤ 1.
Proof.
  intros Hs.
  apply (create_runs (λ s', size (tags_matching owner n s') ≤ 1)); [done|].
  intros recipe s1 r2 s2 Hc Ht.
  apply Recipe_objects_create_Ok in Hc as (_ & _ & -> & _ & _).
  assert (size (tags_matching owner n s2) ≤ 1) as H2
    by (by apply (_get_and_create_tags_size _ _ _ _ _ _ owner n Ht)).
  split; [done|]. intros r3 s3 Hi.
  destruct (_get_and_create_ingredients_frame _ _ _ _ _ _ Hi) as (_ & _ & Et & _).
  by rewrite (tags_matching_ext _ _ s2).
Qed.

Lemma create_ingredient_names (request : Request) (validated_data : ValidatedData)
    (s : DB) (owner : nat) (n : string) :
  size (ingredients_matching owner n s) ≤ 1 →
  size (ingredients_matching owner n (create request validated_data s).2) ≤ 1.
Proof.
  intros Hs.
  apply (create_runs (λ s', size (ingredients_matching owner n s') ≤ 1)); [done|].
  intros recipe s1 r2 s2 Hc Ht.
  apply Recipe_objects_create_Ok in Hc as (_ & _ & -> & _ & _).
  destruct (_get_and_create_tags_frame _ _ _ _ _ _ Ht) as (_ & _ & Ei & _).
  assert (size (ingredients_matching owner n s2) ≤ 1) as H2
    by (by rewrite (ingredients_matching_ext _ _ _ s2 Ei)).
  split; [done|]. intros r3 s3 Hi.
  by apply (_get_and_create_ingredients_size _ _ _ _ _ _ owner n Hi).
Qed.

Lemma update_tag_names (request : Request) (instance : Recipe)
    (validated_data : ValidatedData) (s : DB) (owner : nat) (n : string) :
  size (tags_matching owner n s) ≤ 1 →
  size (tags_matching owner n (update request instance validated_data s).2) ≤ 1.
Proof.
  intros Hs. apply (update_runs (λ s', size (tags_matching owner n s') ≤ 1)).
  intros r1 s1 Ht.
  assert (size (tags_matching owner n s1) ≤ 1) as H1
    by (by apply (update_tags_rows _ _ _ _ _ _ Ht)).
  split; [done|]. intros r2 s2 Hi.
  destruct (update_ingredients_frame _ _ _ _ _ _ Hi) as (_ & _ & Et & _).
  assert (size (tags_matching owner n s2) ≤ 1) as H2
    by (by rewrite (tags_matching_ext _ _ s1)).
  done.
Qed.

Lemma update_ingredient_names (request : Request) (instance : Recipe)
    (validated_data : ValidatedData) (s : DB) (owner : nat) (n : string) :
  size (ingredients_matching owner n s) ≤ 1 →
  size (ingredients_matching owner n
          (update request instance validated_data s).2) ≤ 1.
Proof.
  intros Hs.
  apply (update_runs (λ s', size (ingredients_matching owner n s') ≤ 1)).
  intros r1 s1 Ht.
  destruct (update_tags_frame _ _ _ _ _ _ Ht) as (_ & _ & Ei & _).
  assert (size (ingredients_matching owner n s1) ≤ 1) as H1
    by (by rewrite (ingredients_matching_ext _ _ _ s1 Ei)).
  split; [done|]. intros r2 s2 Hi.
  assert (size (ingredients_matching owner n s2) ≤ 1) as H2
    by (by apply (update_ingredients_rows _ _ _ _ _ _ Hi)).
  done.
Qed.

End RunFacts.

Section TagSettled.
Import Models Serializers.
Local Open Scope nat_scope.

(** The loop returns when every submitted name has its one row and the
    recipe is in the store: nothing has to be made. *)
Lemma _get_and_create_tags_found (request : Request) (recipe : Recipe)
    (tags0 : list NameDict) (s : DB) :
  id recipe ∈ dom (recipes s) →
  (∀ tag, tag ∈ tags0 →
     ∃ pk, tags_matching (request_user request) (dict_name tag) s
           = {[ pk := tag_row (request_user request) (dict_name tag) ]}) →
  ∃ s', _get_and_create_tags request tags0 recipe s = (Ok tt, s').
Proof.
  revert s. induction tags0 as [|tag l IH]; intros s Hr Hm; [by eexists|].
  rewrite _get_and_create_tags_eq, for_each_cons.
  destruct (Hm tag) as [pk Hpk]; [apply list_elem_of_here|].
  unfold tag_step at 1.
  erewrite bind_Ok by (by apply Tag_objects_get_or_create_found).
  cbn [fst]. rewrite tags_add_Ok by (by right).
  apply (IH (set_recipe_tags (union {[ (id recipe, pk) ]}) s)); [done|].
  intros tag' Hin. by apply Hm, list_elem_of_further.
Qed.

(** On a store where the recipe carries exactly the rows of the submitted
    names, the block of [update] for tags changes nothing. *)
Lemma update_tags_settled (request : Request) (instance : Recipe)
    (tags0 : option (list NameDict)) (s : DB) :
  id instance ∈ dom (recipes s) →
  (∀ l, tags0 = Some l →
     (∀ tag, tag ∈ l →
        ∃ pk, tags_matching (request_user request) (dict_name tag) s
              = {[ pk := tag_row (request_user request) (dict_name tag) ]})
     ∧ (∀ pk, pk ∈ tags_of (id instance) s ↔
              ∃ tag, tag ∈ l
                ∧ tags s !! pk
                  = Some (tag_row (request_user request) (dict_name tag)))) →
  update_tags request instance tags0 s = (Ok tt, s).
Proof.
  intros Hr H. destruct tags0 as [l|]; [|done].
  destruct (H l eq_refl) as [Hm Hiff]. clear H.
  simpl. unfold bind, tags_clear, modify_db.
  set (t0 := set_recipe_tags (filter (λ p, p.1 ≠ id instance)) s).
  destruct (_get_and_create_tags_found request instance l t0 Hr Hm) as [t1 Hrun].
  rewrite Hrun. f_equal.
  destruct (_get_and_create_tags_frame _ _ _ _ _ _ Hrun) as (Eu & Er & Ei & Ep).
  destruct (_get_and_create_tags_rows _ _ _ _ _ _ Hrun) as [Hsub Hrows].
  destruct (_get_and_create_tags_pairs _ _ _ _ _ _ Hrun) as [Hpsub Hpairs].
  assert (tags t1 = tags s) as Et.
  { apply map_eq. intros pk. destruct (tags t1 !! pk) as [t|] eqn:Hpk.
    - destruct (Hrows pk t Hpk) as [?|(tag & Hin & _ & Hnone)]; [done|].
      destruct (Hm tag Hin) as [pk' Hpk'].
      change (tags_matching (request_user request) (dict_name tag) s = ∅) in Hnone.
      rewrite Hnone in Hpk'. symmetry in Hpk'.
      by apply map_non_empty_singleton in Hpk'.
    - destruct (tags s !! pk) as [t|] eqn:Hold; [|done].
      assert (tags t1 !! pk = Some t) by (by eapply lookup_weaken).
      congruence. }
  apply DB_ext; try done.
  apply set_eq. intros [rid pk]. split.
  - intros Hin. destruct (Hpairs _ Hin) as [Hold|(tag & pk' & Hl & [= -> ->] & Hrow)].
    + by apply elem_of_filter in Hold as [_ ?].
    + apply elem_of_tags_of, Hiff. exists tag. by rewrite <- Et.
  - intros Hin. destruct (decide (rid = id instance)) as [->|Hne].
    + apply elem_of_tags_of, Hiff in Hin as (tag & Hl & Hrow).
      destruct (_get_and_create_tags_Ok _ _ _ _ _ Hrun tag Hl)
        as (pk' & Hm' & Hpair & _).
      assert (tags_matching (request_user request) (dict_name tag) t1 !! pk
              = Some (tag_row (request_user request) (dict_name tag))) as Hpk.
      { apply tags_matching_lookup. by rewrite Et. }
      rewrite Hm' in Hpk. by apply lookup_singleton_Some in Hpk as [<- _].
    + apply Hpsub. by apply elem_of_filter.
Qed.

End TagSettled.

Section IngredientSettled.
Import Models Serializers.
Local Open Scope nat_scope.

(** The loop returns when every submitted name has its one row and the
    recipe is in the store: nothing has to be made. *)
Lemma _get_and_create_ingredients_found (request : Request) (recipe : Recipe)
    (ingredients0 : list NameDict) (s : DB) :
  id recipe ∈ dom (recipes s) →
  (∀ ingredient, ingredient ∈ ingredients0 →
     ∃ pk, ingredients_matching (request_user request) (dict_name ingredient) s
           = {[ pk := ingredient_row (request_user request) (dict_name ingredient) ]}) →
  ∃ s', _get_and_create_ingredients request ingredients0 recipe s = (Ok tt, s').
Proof.
  revert s. induction ingredients0 as [|ingredient l IH]; intros s Hr Hm; [by eexists|].
  rewrite _get_and_create_ingredients_eq, for_each_cons.
  destruct (Hm ingredient) as [pk Hpk]; [apply list_elem_of_here|].
  unfold ingredient_step at 1.
  erewrite bind_Ok by (by apply Ingredient_objects_get_or_create_found).
  cbn [fst]. rewrite ingredients_add_Ok by (by right).
  apply (IH (set_recipe_ingredients (union {[ (id recipe, pk) ]}) s)); [done|].
  intros ingredient' Hin. by apply Hm, list_elem_of_further.
Qed.

(** On a store where the recipe carries exactly the rows of the submitted
    names, the block of [update] for ingredients changes nothing. *)
Lemma update_ingredients_settled (request : Request) (instance : Recipe)
    (ingredients0 : option (list NameDict)) (s : DB) :
  id instance ∈ dom (recipes s) →
  (∀ l, ingredients0 = Some l →
     (∀ ingredient, ingredient ∈ l →
        ∃ pk, ingredients_matching (request_user request) (dict_name ingredient) s
              = {[ pk := ingredient_row (request_user request) (dict_name ingredient) ]})
     ∧ (∀ pk, pk ∈ ingredients_of (id instance) s ↔
              ∃ ingredient, ingredient ∈ l
                ∧ ingredients s !! pk
                  = Some (ingredient_row (request_user request) (dict_name ingredient)))) →
  update_ingredients request instance ingredients0 s = (Ok tt, s).
Proof.
  intros Hr H. destruct ingredients0 as [l|]; [|done].
  destruct (H l eq_refl) as [Hm Hiff]. clear H.
  simpl. unfold bind, ingredients_clear, modify_db.
  set (t0 := set_recipe_ingredients (filter (λ p, p.1 ≠ id instance)) s).
  destruct (_get_and_create_ingredients_found request instance l t0 Hr Hm) as [t1 Hrun].
  rewrite Hrun. f_equal.
  destruct (_get_and_create_ingredients_frame _ _ _ _ _ _ Hrun) as (Eu & Er & Ei & Ep).
  destruct (_get_and_create_ingredients_rows _ _ _ _ _ _ Hrun) as [Hsub Hrows].
  destruct (_get_and_create_ingredients_pairs _ _ _ _ _ _ Hrun) as [Hpsub Hpairs].
  assert (ingredients t1 = ingredients s) as Et.
  { apply map_eq. intros pk. destruct (ingredients t1 !! pk) as [t|] eqn:Hpk.
    - destruct (Hrows pk t Hpk) as [?|(ingredient & Hin & _ & Hnone)]; [done|].
      destruct (Hm ingredient Hin) as [pk' Hpk'].
      change (ingredients_matching (request_user request) (dict_name ingredient) s = ∅) in Hnone.
      rewrite Hnone in Hpk'. symmetry in Hpk'.
      by apply map_non_empty_singleton in Hpk'.
    - destruct (ingredients s !! pk) as [t|] eqn:Hold; [|done].
      assert (ingredients t1 !! pk = Some t) by (by eapply lookup_weaken).
      congruence. }
  apply DB_ext; try done.
  apply set_eq. intros [rid pk]. split.
  - intros Hin. destruct (Hpairs _ Hin) as [Hold|(ingredient & pk' & Hl & [= -> ->] & Hrow)].
    + by apply elem_of_filter in Hold as [_ ?].
    + apply elem_of_ingredients_of, Hiff. exists ingredient. by rewrite <- Et.
  - intros Hin. destruct (decide (rid = id instance)) as [->|Hne].
    + apply elem_of_ingredients_of, Hiff in Hin as (ingredient & Hl & Hrow).
      destruct (_get_and_create_ingredients_Ok _ _ _ _ _ Hrun ingredient Hl)
        as (pk' & Hm' & Hpair & _).
      assert (ingredients_matching (request_user request) (dict_name ingredient) t1 !! pk
              = Some (ingredient_row (request_user request) (dict_name ingredient))) as Hpk.
      { apply ingredients_matching_lookup. by rewrite Et. }
      rewrite Hm' in Hpk. by apply lookup_singleton_Some in Hpk as [<- _].
    + apply Hpsub. by apply elem_of_filter.
Qed.

End IngredientSettled.

Section FailureFacts.
Import Models Serializers.
Local Open Scope nat_scope.

(** Why [create] raises. *)
Lemma create_Raise (request : Request) (validated_data : ValidatedData)
    (s s' : DB) (e : exn) :
  create request validated_data s = (Raise e, s') →
  (e = MultipleObjectsReturned
   ∧ ((∃ tag, tag ∈ default [] (vd_tags validated_data)
         ∧ 2 ≤ size (tags_matching (request_user request) (dict_name tag) s))
      ∨ (∃ ingredient, ingredient ∈ default [] (vd_ingredients validated_data)
           ∧ 2 ≤ size (ingredients_matching (request_user request)
                         (dict_name ingredient) s))))
  ∨ e = IntegrityError.
Proof.
  rewrite create_unfold.
  destruct (Recipe_objects_create _ s) as [[recipe|e1] s1] eqn:Hc.
  2: { apply Recipe_objects_create_Raise in Hc as [_ ->]. intros [= <- _]. by right. }
  apply Recipe_objects_create_Ok in Hc as (_ & _ & -> & _ & _).
  destruct (_get_and_create_tags _ _ recipe _) as [[[]|e2] s2] eqn:Ht.
  2: { intros [= <- _].
       apply _get_and_create_tags_Raise in Ht as [(-> & tag & ? & ?)|(-> & _)];
         [left|by right].
       split; [done|]. left. by exists tag. }
  destruct (_get_and_create_tags_frame _ _ _ _ _ _ Ht) as (_ & _ & Ei & _).
  destruct (_get_and_create_ingredients _ _ recipe s2) as [[[]|e3] s3] eqn:Hi;
    [done|].
  intros [= <- _].
  apply _get_and_create_ingredients_Raise in Hi
    as [(-> & ingredient & ? & Hbig)|(-> & _)]; [left|by right].
  split; [done|]. right. exists ingredient. split; [done|].
  by rewrite (ingredients_matching_ext _ _ _ s2 Ei) in Hbig.
Qed.

(** Why [update] raises. *)
Lemma update_Raise (request : Request) (instance : Recipe)
    (validated_data : ValidatedData) (s s' : DB) (e : exn) :
  update request instance validated_data s = (Raise e, s') →
  (e = MultipleObjectsReturned
   ∧ ((∃ tag, tag ∈ default [] (vd_tags validated_data)
         ∧ 2 ≤ size (tags_matching (request_user request) (dict_name tag) s))
      ∨ (∃ ingredient, ingredient ∈ default [] (vd_ingredients validated_data)
           ∧ 2 ≤ size (ingredients_matching (request_user request)
                         (dict_name ingredient) s))))
  ∨ (e = IntegrityError
     ∧ (request_user request ∉ dom (users s)
        ∨ id instance ∉ dom (recipes s)
        ∨ user (fold_left setattr (vd_fields validated_data) instance)
            ∉ dom (users s))).
Proof.
  rewrite update_unfold.
  destruct (update_tags _ _ _ s) as [r1 s1] eqn:Ht.
  destruct (update_tags_frame _ _ _ _ _ _ Ht) as (Eu1 & Er1 & Ei1 & _).
  destruct r1 as [[]|e1].
  2: { intros [= <- _].
       apply update_tags_run in Ht as [(_ & ? & _)|(l & El & Ht)]; [done|].
       rewrite El. simpl.
       apply _get_and_create_tags_Raise in Ht
         as [(-> & tag & ? & ?)|(-> & Hmiss)]; [left|right].
       - split; [done|]. left. by exists tag.
       - split; [done|]. simpl in Hmiss. tauto. }
  destruct (update_ingredients _ _ _ s1) as [r2 s2] eqn:Hi.
  destruct (update_ingredients_frame _ _ _ _ _ _ Hi) as (Eu2 & _).
  destruct r2 as [[]|e2].
  2: { intros [= <- _].
       apply update_ingredients_run in Hi as [(_ & ? & _)|(l & El & Hi)]; [done|].
       rewrite El. simpl.
       apply _get_and_create_ingredients_Raise in Hi
         as [(-> & ingredient & ? & Hbig)|(-> & Hmiss)]; [left|right].
       - split; [done|]. right. exists ingredient. split; [done|].
         rewrite (ingredients_matching_ext _ _ s) in Hbig; [done|].
         simpl. by rewrite Ei1.
       - split; [done|]. simpl in Hmiss. rewrite Eu1, Er1 in Hmiss. tauto. }
  simpl. case_decide as Hu; [done|]. intros [= <- _]. right. split; [done|].
  rewrite Eu2, Eu1 in Hu. tauto.
Qed.

End FailureFacts.

Section StoreInvariants.
Import Models Serializers.
Local Open Scope nat_scope.
Context `{Auth}.

(** X10.  Through [create] and [update], whatever their outcome, a user who
    owns at most one tag of each name still does, and likewise for
    ingredients; from such a store neither call raises
    [MultipleObjectsReturned]. *)
Theorem writes_keep_names_unique (request : Request) (instance : Recipe)
    (validated_data : ValidatedData) (s : DB) :
  (unique_tag_names s →
     unique_tag_names (create request validated_data s).2
     ∧ unique_tag_names (update request instance validated_data s).2)
  ∧ (unique_ingredient_names s →
       unique_ingredient_names (create request validated_data s).2
       ∧ unique_ingredient_names (update request instance validated_data s).2)
  ∧ (unique_tag_names s → unique_ingredient_names s →
       (create request validated_data s).1 ≠ Raise MultipleObjectsReturned
       ∧ (update request instance validated_data s).1
         ≠ Raise MultipleObjectsReturned).
Proof.
  split_and!.
  - intros Hs. split; intros owner n.
    + by apply create_tag_names.
    + by apply update_tag_names.
  - intros Hs. split; intros owner n.
    + by apply create_ingredient_names.
    + by apply update_ingredient_names.
  - intros Ht Hi.
    assert (∀ tag, ¬ 2 ≤ size (tags_matching (request_user request)
                                 (dict_name tag) s)) as Ht'
      by (intros tag; specialize (Ht (request_user request) (dict_name tag)); lia).
    assert (∀ ingredient,
              ¬ 2 ≤ size (ingredients_matching (request_user request)
                            (dict_name ingredient) s)) as Hi'
      by (intros ingredient;
          specialize (Hi (request_user request) (dict_name ingredient)); lia).
    split.
    + destruct (create request validated_data s) as [r s'] eqn:Hrun.
      simpl. intros ->.
      apply create_Raise in Hrun as [(_ & [(tag & _ & ?)|(ingredient & _ & ?)])|?];
        [by eapply Ht'|by eapply Hi'|done].
    + destruct (update request instance validated_data s) as [r s'] eqn:Hrun.
      simpl. intros ->.
      apply update_Raise in Hrun
        as [(_ & [(tag & _ & ?)|(ingredient & _ & ?)])|[? _]];
        [by eapply Ht'|by eapply Hi'|done].
Qed.

(** X11.  The foreign keys of the schema survive every write, whatever its
    outcome: after [create], [update], [create_user] or [create_superuser]
    each recipe still sits under its key and belongs to a user, each tag
    and ingredient belongs to a user, and each pair of the two association
    tables joins rows that exist. *)
Theorem writes_keep_referential_integrity (request : Request) (instance : Recipe)
    (validated_data : ValidatedData) (salt : Z) (e password : option string)
    (extra_fields : list user_field) (s : DB) :
  referential_integrity s →
  referential_integrity (create request validated_data s).2
  ∧ referential_integrity (update request instance validated_data s).2
  ∧ referential_integrity (create_user salt e password extra_fields s).2
  ∧ referential_integrity (create_superuser salt e password s).2.
Proof.
  intros Hs. split_and!.
  - by apply create_referential.
  - by apply update_referential.
  - eapply account_step_referential; [apply create_user_step|done].
  - eapply account_step_referential; [apply create_superuser_step|done].
Qed.

End StoreInvariants.

Section WriteFrames.
Import Models Serializers.
Local Open Scope nat_scope.

(** X14.  [create] only adds, whatever its outcome: no user is written, no
    recipe, tag, ingredient or pair that was in the store is changed or
    removed, and the recipes that were there keep their tags and
    ingredients. *)
Theorem create_only_adds (request : Request) (validated_data : ValidatedData)
    (s : DB) :
  let s' := (create request validated_data s).2 in
  users s' = users s
  ∧ recipes s ⊆ recipes s' ∧ tags s ⊆ tags s' ∧ ingredients s ⊆ ingredients s'
  ∧ recipe_tags s ⊆ recipe_tags s'
  ∧ recipe_ingredients s ⊆ recipe_ingredients s'
  ∧ (∀ rid, rid ∈ dom (recipes s) →
       tags_of rid s' = tags_of rid s
       ∧ ingredients_of rid s' = ingredients_of rid s).
Proof.
  apply (create_runs
    (λ s', users s' = users s
           ∧ recipes s ⊆ recipes s' ∧ tags s ⊆ tags s'
           ∧ ingredients s ⊆ ingredients s'
           ∧ recipe_tags s ⊆ recipe_tags s'
           ∧ recipe_ingredients s ⊆ recipe_ingredients s'
           ∧ (∀ rid, rid ∈ dom (recipes s) →
                tags_of rid s' = tags_of rid s
                ∧ ingredients_of rid s' = ingredients_of rid s))); [done|].
  intros recipe s1 r2 s2 Hc Ht.
  apply Recipe_objects_create_Ok in Hc as (_ & Hfresh & -> & _ & _).
  destruct (_get_and_create_tags_frame _ _ _ _ _ _ Ht) as (Eu2 & Er2 & Ei2 & Ep2).
  destruct (_get_and_create_tags_rows _ _ _ _ _ _ Ht) as [Hrows2 _].
  destruct (_get_and_create_tags_pairs _ _ _ _ _ _ Ht) as [Hpairs2 _].
  assert (∀ rid, rid ∈ dom (recipes s) → rid ≠ id recipe) as Hother.
  { intros rid Hin ->. by apply not_elem_of_dom in Hfresh. }
  simpl in *. split.
  - rewrite Eu2, Er2, Ei2, Ep2. split_and!; try done.
    + by apply insert_subseteq.
    + intros rid Hin. split; [|by apply ingredients_of_ext].
      by rewrite (_get_and_create_tags_others _ _ _ _ _ _ rid Ht) by auto.
  - intros r3 s3 Hi.
    destruct (_get_and_create_ingredients_frame _ _ _ _ _ _ Hi)
      as (Eu3 & Er3 & Et3 & Ep3).
    destruct (_get_and_create_ingredients_rows _ _ _ _ _ _ Hi) as [Hrows3 _].
    destruct (_get_and_create_ingredients_pairs _ _ _ _ _ _ Hi) as [Hpairs3 _].
    rewrite Eu3, Er3, Et3, Ep3, Eu2, Er2. split_and!; try done.
    + by apply insert_subseteq.
    + by rewrite <- Ei2.
    + by rewrite <- Ep2.
    + intros rid Hin. split.
      * rewrite (tags_of_ext _ _ _ Ep3).
        by rewrite (_get_and_create_tags_others _ _ _ _ _ _ rid Ht) by auto.
      * rewrite (_get_and_create_ingredients_others _ _ _ _ _ _ rid Hi) by auto.
        by apply ingredients_of_ext.
Qed.

(** X15.  [update] touches one recipe, whatever its outcome: no user is
    written, no tag or ingredient is changed or deleted (a tag the recipe
    no longer carries stays in its table), and every other recipe keeps
    its row, its tags and its ingredients. *)
Theorem update_touches_one_recipe (request : Request) (instance : Recipe)
    (validated_data : ValidatedData) (s : DB) :
  let s' := (update request instance validated_data s).2 in
  users s' = users s ∧ tags s ⊆ tags s' ∧ ingredients s ⊆ ingredients s'
  ∧ (∀ rid, rid ≠ id instance →
       recipes s' !! rid = recipes s !! rid
       ∧ tags_of rid s' = tags_of rid s
       ∧ ingredients_of rid s' = ingredients_of rid s).
Proof.
  apply (update_runs
    (λ s', users s' = users s ∧ tags s ⊆ tags s' ∧ ingredients s ⊆ ingredients s'
           ∧ (∀ rid, rid ≠ id instance →
                recipes s' !! rid = recipes s !! rid
                ∧ tags_of rid s' = tags_of rid s
                ∧ ingredients_of rid s' = ingredients_of rid s))).
  intros r1 s1 Ht.
  destruct (update_tags_frame _ _ _ _ _ _ Ht) as (Eu1 & Er1 & Ei1 & Ep1).
  destruct (update_tags_rows _ _ _ _ _ _ Ht) as (Hrows1 & _ & Hothers1).
  split.
  { rewrite Eu1, Er1, Ei1. split_and!; try done.
    intros rid Hne. split_and!; [done|by apply Hothers1|].
    by apply ingredients_of_ext. }
  intros r2 s2 Hi.
  destruct (update_ingredients_frame _ _ _ _ _ _ Hi) as (Eu2 & Er2 & Et2 & Ep2).
  destruct (update_ingredients_rows _ _ _ _ _ _ Hi) as (Hrows2 & _ & Hothers2).
  assert (∀ rid, rid ≠ id instance →
            tags_of rid s2 = tags_of rid s
            ∧ ingredients_of rid s2 = ingredients_of rid s) as Hsets.
  { intros rid Hne. split.
    - rewrite (tags_of_ext _ _ _ Ep2). by apply Hothers1.
    - rewrite (Hothers2 rid Hne). by apply ingredients_of_ext. }
  split.
  { rewrite Eu2, Er2, Et2, Eu1, Er1. split_and!; try done.
    - by rewrite <- Ei1.
    - intros rid Hne. split; [done|by apply Hsets]. }
  intros _. simpl. rewrite Eu2, Et2, Eu1. split_and!; try done.
  - by rewrite <- Ei1.
  - intros rid Hne. split; [|by apply Hsets].
    rewrite lookup_insert_ne by done. by rewrite Er2, Er1.
Qed.

(** X16.  When [update] raises it has written no recipe row, but it is not
    undone: with a [tags] list given, the recipe's earlier tags are gone
    and it carries only rows of submitted names.  It raises
    [MultipleObjectsReturned] only when the requester already owns two
    rows of a submitted name, and [IntegrityError] only when the
    requester, the recipe, or the owner the instance ends with has no
    row. *)
Theorem update_failure (request : Request) (instance : Recipe)
    (validated_data : ValidatedData) (s s' : DB) (e : exn) :
  update request instance validated_data s = (Raise e, s') →
  recipes s' = recipes s
  ∧ (∀ l, vd_tags validated_data = Some l →
       ∀ pk, pk ∈ tags_of (id instance) s' →
         ∃ tag, tag ∈ l
           ∧ tags s' !! pk
             = Some (tag_row (request_user request) (dict_name tag)))
  ∧ ((e = MultipleObjectsReturned
      ∧ ((∃ tag, tag ∈ default [] (vd_tags validated_data)
            ∧ 2 ≤ size (tags_matching (request_user request) (dict_name tag) s))
         ∨ (∃ ingredient, ingredient ∈ default [] (vd_ingredients validated_data)
              ∧ 2 ≤ size (ingredients_matching (request_user request)
                            (dict_name ingredient) s))))
     ∨ (e = IntegrityError
        ∧ (request_user request ∉ dom (users s)
           ∨ id instance ∉ dom (recipes s)
           ∨ user (fold_left setattr (vd_fields validated_data) instance)
               ∉ dom (users s)))).
Proof.
  intros Hrun. split_and!; [| |by eapply update_Raise].
  - pose proof (update_recipes request instance validated_data s) as Hrec.
    simpl in Hrec. rewrite Hrun in Hrec. by destruct Hrec as [_ ?].
  - intros l El. rewrite update_unfold, El in Hrun.
    destruct (update_tags _ _ (Some l) s) as [r1 s1] eqn:Ht.
    pose proof (update_tags_replaced _ _ _ _ _ _ Ht) as Hrep.
    destruct r1 as [[]|e1]; [|by injection Hrun as _ <-].
    destruct (update_ingredients _ _ _ s1) as [r2 s2] eqn:Hi.
    destruct (update_ingredients_frame _ _ _ _ _ _ Hi) as (_ & _ & Et2 & Ep2).
    assert (s' = s2) as ->.
    { destruct r2 as [[]|e2]; [|by injection Hrun].
      simpl in Hrun. by case_decide; injection Hrun. }
    intros pk. rewrite (tags_of_ext _ _ _ Ep2), Et2. apply Hrep.
Qed.

End WriteFrames.

Section InstanceFacts.
Import Models Serializers.

(** An instance is its key and the values of its columns. *)
Lemma Recipe_ext (r1 r2 : Recipe) :
  id r1 = id r2 → (∀ attr, getattr r1 attr = getattr r2 attr) → r1 = r2.
Proof.
  intros Hid H.
  pose proof (H "user"%string) as H1. pose proof (H "title_en"%string) as H2.
  pose proof (H "title_ar"%string) as H3.
  pose proof (H "description_en"%string) as H4.
  pose proof (H "description_ar"%string) as H5.
  pose proof (H "time_minutes_en"%string) as H6.
  pose proof (H "time_minutes_ar"%string) as H7.
  pose proof (H "price_en"%string) as H8. pose proof (H "price_ar"%string) as H9.
  pose proof (H "link_en"%string) as H10. pose proof (H "link_ar"%string) as H11.
  pose proof (H "image"%string) as H12.
  destruct r1, r2. unfold getattr in *. simpl in *. congruence.
Qed.

(** Assigning a column the value it holds changes nothing. *)
Lemma setattr_same (instance : Recipe) (fv : field_value) :
  getattr instance (attr_name fv) = Some fv → setattr instance fv = instance.
Proof.
  destruct instance, fv; unfold getattr; simpl; intros [= ->]; reflexivity.
Qed.

Lemma fold_setattr_same (kwargs : list field_value) (instance : Recipe) :
  (∀ fv, fv ∈ kwargs → getattr instance (attr_name fv) = Some fv) →
  fold_left setattr kwargs instance = instance.
Proof.
  induction kwargs as [|fv l IH]; intros Hsame; [done|]. simpl.
  rewrite setattr_same by apply Hsame, list_elem_of_here.
  apply IH. intros fv' Hin. by apply Hsame, list_elem_of_further.
Qed.

(** Assigning the same items twice is assigning them once. *)
Lemma fold_setattr_twice (kwargs : list field_value) (instance : Recipe) :
  fold_left setattr kwargs (fold_left setattr kwargs instance)
  = fold_left setattr kwargs instance.
Proof.
  apply Recipe_ext; [by rewrite !fold_setattr_id|].
  intros attr. rewrite (getattr_fold_setattr kwargs (fold_left _ _ _)).
  rewrite getattr_fold_setattr. by destruct (lookup_attr attr kwargs).
Qed.

(** An attribute no item names keeps the instance's value. *)
Lemma getattr_fold_setattr_other (kwargs : list field_value) (instance : Recipe)
    (attr : string) :
  (∀ fv, fv ∈ kwargs → attr_name fv ≠ attr) →
  getattr (fold_left setattr kwargs instance) attr = getattr instance attr.
Proof.
  intros Hother. rewrite getattr_fold_setattr.
  destruct (lookup_attr attr kwargs) as [fv|] eqn:E; [|done].
  apply lookup_attr_name in E as [? ?]. by destruct (Hother fv).
Qed.

End InstanceFacts.

Section CreateProperties.
Import Models Serializers.
Local Open Scope nat_scope.

(** X12.  For validated data whose items the row stores as given (values
    within the bounds of their columns, no upload): a recipe that [create]
    returns is stored under a key no recipe had, and its owner comes from
    the [user] item, which must name an existing user.  Every column holds
    the value the validated data give it and otherwise the model's
    default: [None] for the nullable columns and the empty string for
    descriptions and links. *)
Theorem create_row (request : Request) (validated_data : ValidatedData)
    (s s' : DB) (recipe : Recipe) :
  forallb storable_item (vd_fields validated_data) = true →
  create request validated_data s = (Ok recipe, s') →
  recipes s !! id recipe = None
  ∧ recipes s' !! id recipe = Some recipe
  ∧ ∃ owner,
      lookup_attr "user" (vd_fields validated_data) = Some (F_user owner)
      ∧ owner ∈ dom (users s)
      ∧ ∀ attr,
          getattr recipe attr
          = match lookup_attr attr (vd_fields validated_data) with
            | Some fv => Some fv
            | None => getattr (default_recipe (id recipe) owner) attr
            end.
Proof.
  intros _ Hrun.
  destruct (create_Ok_store _ _ _ _ _ Hrun) as (_ & Hfresh & Hrec & _).
  apply create_Ok in Hrun as (s1 & s2 & Hc & _).
  split_and!; [done|by rewrite Hrec, lookup_insert_eq|].
  destruct (Recipe_objects_create_spec (vd_fields validated_data) s)
    as [(owner & Hlook & Hu & Hrow)|Hraise]; [|congruence].
  simpl in Hrow. rewrite Hc in Hrow. injection Hrow as Hrow _.
  exists owner. split_and!; [done..|].
  intros attr. rewrite Hrow at 1. rewrite getattr_fold_setattr.
  destruct (lookup_attr attr (vd_fields validated_data)); [done|].
  by rewrite Hrow, fold_setattr_id.
Qed.

(** X13.  In a store whose foreign keys hold, a recipe that [create] returns
    carries exactly the requester's rows of the submitted names, as tags
    and as ingredients, and nothing when the key is absent. *)
Theorem create_links (request : Request) (validated_data : ValidatedData)
    (s s' : DB) (recipe : Recipe) :
  referential_integrity s →
  create request validated_data s = (Ok recipe, s') →
  (∀ pk, pk ∈ tags_of (id recipe) s' ↔
         ∃ tag, tag ∈ default [] (vd_tags validated_data)
           ∧ tags s' !! pk
             = Some (tag_row (request_user request) (dict_name tag)))
  ∧ (∀ pk, pk ∈ ingredients_of (id recipe) s' ↔
           ∃ ingredient, ingredient ∈ default [] (vd_ingredients validated_data)
             ∧ ingredients s' !! pk
               = Some (ingredient_row (request_user request)
                         (dict_name ingredient)))
  ∧ (vd_tags validated_data = None → tags_of (id recipe) s' = ∅)
  ∧ (vd_ingredients validated_data = None → ingredients_of (id recipe) s' = ∅).
Proof.
  intros (_ & [_ Htp] & [_ Hip]) Hrun.
  destruct (create_Ok_store _ _ _ _ _ Hrun)
    as (_ & Hfresh & _ & _ & _ & _ & _ & Htags & Hingredients).
  apply not_elem_of_dom in Hfresh.
  apply create_Ok in Hrun as (s1 & s2 & Hc & Ht & Hi).
  apply Recipe_objects_create_Ok in Hc as (_ & _ & -> & _ & _).
  destruct (_get_and_create_tags_frame _ _ _ _ _ _ Ht) as (_ & _ & Ei2 & Ep2).
  destruct (_get_and_create_ingredients_frame _ _ _ _ _ _ Hi)
    as (_ & _ & Et3 & Ep3).
  assert (∀ pk, pk ∈ tags_of (id recipe) s' ↔
            ∃ tag, tag ∈ default [] (vd_tags validated_data)
              ∧ tags s' !! pk
                = Some (tag_row (request_user request) (dict_name tag))) as Hta.
  { intros pk. split.
    - rewrite elem_of_tags_of, Ep3, Et3. intros Hin.
      destruct (_get_and_create_tags_pairs _ _ _ _ _ _ Ht) as [_ Hnew].
      destruct (Hnew _ Hin) as [Hold|(tag & pk' & ? & [= <-] & ?)];
        [|by exists tag].
      destruct Hfresh. by apply (Htp _ _ Hold).
    - intros (tag & Hin & Hrow).
      destruct (Htags tag Hin) as (pk' & Hm & Hpk').
      assert (tags_matching (request_user request) (dict_name tag) s' !! pk
              = Some (tag_row (request_user request) (dict_name tag))) as Hpk
        by (by apply tags_matching_lookup).
      rewrite Hm in Hpk. by apply lookup_singleton_Some in Hpk as [<- _]. }
  assert (∀ pk, pk ∈ ingredients_of (id recipe) s' ↔
            ∃ ingredient, ingredient ∈ default [] (vd_ingredients validated_data)
              ∧ ingredients s' !! pk
                = Some (ingredient_row (request_user request)
                          (dict_name ingredient))) as Hia.
  { intros pk. split.
    - rewrite elem_of_ingredients_of. intros Hin.
      destruct (_get_and_create_ingredients_pairs _ _ _ _ _ _ Hi) as [_ Hnew].
      destruct (Hnew _ Hin) as [Hold|(ingredient & pk' & ? & [= <-] & ?)];
        [|by exists ingredient].
      rewrite Ep2 in Hold. destruct Hfresh. by apply (Hip _ _ Hold).
    - intros (ingredient & Hin & Hrow).
      destruct (Hingredients ingredient Hin) as (pk' & Hm & Hpk').
      assert (ingredients_matching (request_user request) (dict_name ingredient)
                s' !! pk
              = Some (ingredient_row (request_user request)
                        (dict_name ingredient))) as Hpk
        by (by apply ingredients_matching_lookup).
      rewrite Hm in Hpk. by apply lookup_singleton_Some in Hpk as [<- _]. }
  split_and!; [done..| |].
  - intros E. apply set_eq. intros pk. rewrite Hta, E. simpl. split.
    + by intros (tag & ?%elem_of_nil & _).
    + by intros ?%not_elem_of_empty.
  - intros E. apply set_eq. intros pk. rewrite Hia, E. simpl. split.
    + by intros (ingredient & ?%elem_of_nil & _).
    + by intros ?%not_elem_of_empty.
Qed.

(** X9.  The two loops write only for the requester and the recipe at
    hand, whatever their outcome: a row they add is the requester's and
    bears a submitted name, a pair they add joins the recipe to a row of
    the requester's, and no other recipe gains or loses a tag or an
    ingredient. *)
Theorem get_and_create_own_rows (request : Request) (recipe : Recipe)
    (names : list NameDict) (s : DB) :
  let owner := request_user request in
  let st := (_get_and_create_tags request names recipe s).2 in
  let si := (_get_and_create_ingredients request names recipe s).2 in
  ((∀ pk t, tags st !! pk = Some t → tags s !! pk = None →
      tag_user t = owner ∧ tag_name t ∈ dict_name <$> names)
   ∧ (∀ rid pk, (rid, pk) ∈ recipe_tags st → (rid, pk) ∉ recipe_tags s →
        rid = id recipe
        ∧ ∃ t, tags st !! pk = Some t ∧ tag_user t = owner
               ∧ tag_name t ∈ dict_name <$> names)
   ∧ (∀ rid, rid ≠ id recipe → tags_of rid st = tags_of rid s))
  ∧ ((∀ pk t, ingredients si !! pk = Some t → ingredients s !! pk = None →
        ingredient_user t = owner ∧ ingredient_name t ∈ dict_name <$> names)
     ∧ (∀ rid pk, (rid, pk) ∈ recipe_ingredients si →
          (rid, pk) ∉ recipe_ingredients s →
          rid = id recipe
          ∧ ∃ t, ingredients si !! pk = Some t ∧ ingredient_user t = owner
                 ∧ ingredient_name t ∈ dict_name <$> names)
     ∧ (∀ rid, rid ≠ id recipe → ingredients_of rid si = ingredients_of rid s)).
Proof.
  intros owner st si. split.
  - destruct (_get_and_create_tags request names recipe s) as [r s'] eqn:Hrun.
    subst st. simpl.
    destruct (_get_and_create_tags_rows _ _ _ _ _ _ Hrun) as [_ Hrows].
    destruct (_get_and_create_tags_pairs _ _ _ _ _ _ Hrun) as [_ Hpairs].
    split_and!.
    + intros pk t Hpk Hnew.
      destruct (Hrows pk t Hpk) as [?|(tag & Hin & -> & _)]; [congruence|].
      split; [done|]. simpl. by apply list_elem_of_fmap_2.
    + intros rid pk Hin Hnew.
      destruct (Hpairs _ Hin) as [?|(tag & pk' & Hl & [= -> ->] & Hrow)]; [done|].
      split; [done|]. eexists. split; [done|]. split; [done|].
      simpl. by apply list_elem_of_fmap_2.
    + intros rid Hne. by apply (_get_and_create_tags_others _ _ _ _ _ _ rid Hrun).
  - destruct (_get_and_create_ingredients request names recipe s)
      as [r s'] eqn:Hrun.
    subst si. simpl.
    destruct (_get_and_create_ingredients_rows _ _ _ _ _ _ Hrun) as [_ Hrows].
    destruct (_get_and_create_ingredients_pairs _ _ _ _ _ _ Hrun) as [_ Hpairs].
    split_and!.
    + intros pk t Hpk Hnew.
      destruct (Hrows pk t Hpk) as [?|(ingredient & Hin & -> & _)]; [congruence|].
      split; [done|]. simpl. by apply list_elem_of_fmap_2.
    + intros rid pk Hin Hnew.
      destruct (Hpairs _ Hin) as [?|(ingredient & pk' & Hl & [= -> ->] & Hrow)];
        [done|].
      split; [done|]. eexists. split; [done|]. split; [done|].
      simpl. by apply list_elem_of_fmap_2.
    + intros rid Hne.
      by apply (_get_and_create_ingredients_others _ _ _ _ _ _ rid Hrun).
Qed.

End CreateProperties.

Section UpdateProperties.
Import Models Serializers.
Local Open Scope nat_scope.

(** X17.  With validated data whose items the row stores as given (so no
    upload, which each save would name anew), [update] is idempotent:
    applied again to the store it left, with the instance it was given or
    the one it returned, it returns the same instance and leaves the store
    exactly as it is. *)
Theorem update_idempotent (request : Request) (instance : Recipe)
    (validated_data : ValidatedData) (s s' : DB) (r : Recipe) :
  forallb storable_item (vd_fields validated_data) = true →
  update request instance validated_data s = (Ok r, s') →
  update request instance validated_data s' = (Ok r, s')
  ∧ update request r validated_data s' = (Ok r, s').
Proof.
  intros _ (s1 & s2 & Ht & Hi & Hr & Hu & ->)%update_Ok.
  set (s' := set_recipes (insert (id instance) r) s2).
  destruct (update_tags_Ok _ _ _ _ _ Ht) as (Eu1 & _ & _ & _ & Htags).
  destruct (update_ingredients_Ok _ _ _ _ _ Hi) as (Eu2 & _ & Et2 & Ep2 & Hings).
  assert (id r = id instance) as Hid by (by rewrite Hr, fold_setattr_id).
  assert (id instance ∈ dom (recipes s')) as Hin.
  { apply elem_of_dom. exists r. apply lookup_insert_eq. }
  assert (∀ i, id i = id instance →
            update_tags request i (vd_tags validated_data) s' = (Ok tt, s'))
    as Htags'.
  { intros i Ei. apply update_tags_settled; [by rewrite Ei|].
    intros l El. rewrite El in Htags. destruct Htags as [Hiff Hm]. rewrite Ei.
    split.
    - intros tag Hl. destruct (Hm tag Hl) as [pk Hpk]. exists pk.
      rewrite <- Hpk. apply tags_matching_ext. by simpl.
    - intros pk. rewrite (tags_of_ext _ s1 s') by (by simpl).
      rewrite (Hiff pk). by simpl; rewrite Et2. }
  assert (∀ i, id i = id instance →
            update_ingredients request i (vd_ingredients validated_data) s'
            = (Ok tt, s')) as Hings'.
  { intros i Ei. apply update_ingredients_settled; [by rewrite Ei|].
    intros l El. rewrite El in Hings. destruct Hings as [Hiff Hm]. rewrite Ei.
    split.
    - intros ingredient Hl. destruct (Hm ingredient Hl) as [pk Hpk]. by exists pk.
    - intros pk. by rewrite (ingredients_of_ext _ s2 s') by (by simpl). }
  assert (user r ∈ dom (users s')) as Hu' by (simpl; by rewrite Eu2, Eu1).
  assert (set_recipes (insert (id instance) r) s' = s') as Hsame.
  { unfold s', set_recipes. simpl. f_equal. apply insert_insert_eq. }
  split.
  - rewrite update_unfold, Htags', Hings' by done. simpl.
    rewrite <- Hr. rewrite decide_True by done. by rewrite Hid, Hsame.
  - rewrite update_unfold, Htags', Hings' by done. simpl.
    assert (fold_left setattr (vd_fields validated_data) r = r) as ->
      by (rewrite Hr; apply fold_setattr_twice).
    rewrite decide_True by done. by rewrite Hid, Hsame.
Qed.

(** X18.  An [update] whose data name neither [tags] nor [ingredients] and
    give each column the value the stored instance holds, the empty
    payload among them, returns the instance and leaves the store exactly
    as it is. *)
Theorem update_same_values (request : Request) (instance : Recipe)
    (validated_data : ValidatedData) (s : DB) :
  recipes s !! id instance = Some instance →
  user instance ∈ dom (users s) →
  vd_tags validated_data = None → vd_ingredients validated_data = None →
  (∀ fv, fv ∈ vd_fields validated_data →
     getattr instance (attr_name fv) = Some fv) →
  update request instance validated_data s = (Ok instance, s).
Proof.
  intros Hrow Hu Et Ei Hsame. rewrite update_unfold, Et, Ei. simpl.
  rewrite fold_setattr_same by done. rewrite decide_True by done.
  f_equal. apply DB_ext; try done. simpl. by apply insert_id.
Qed.

(** X19.  The two languages do not interfere: after an [update] that names
    no English column every reading under a language code other than [ar]
    is what it was, and after one that names no Arabic column every
    reading under [ar] is. *)
Theorem update_languages_apart (request reader : Request) (instance : Recipe)
    (validated_data : ValidatedData) (s s' : DB) (r : Recipe) :
  update request instance validated_data s = (Ok r, s') →
  let unchanged :=
    get_title reader r = get_title reader instance
    ∧ get_description reader r = get_description reader instance
    ∧ get_time_minutes reader r = get_time_minutes reader instance
    ∧ get_price reader r = get_price reader instance
    ∧ get_link reader r = get_link reader instance in
  ((∀ fv, fv ∈ vd_fields validated_data → attr_name fv ∉ en_attrs) →
   LANGUAGE_CODE reader ≠ "ar"%string → unchanged)
  ∧ ((∀ fv, fv ∈ vd_fields validated_data → attr_name fv ∉ ar_attrs) →
     LANGUAGE_CODE reader = "ar"%string → unchanged).
Proof.
  intros (_ & _ & _ & _ & -> & _)%update_Ok. simpl.
  set (r := fold_left setattr (vd_fields validated_data) instance).
  assert (∀ (attrs : list string) attr,
            (∀ fv, fv ∈ vd_fields validated_data → attr_name fv ∉ attrs) →
            attr ∈ attrs → getattr r attr = getattr instance attr) as Hkeep.
  { intros attrs attr Hnot Hin. apply getattr_fold_setattr_other.
    intros fv Hfv E. apply (Hnot fv Hfv). by rewrite E. }
  unfold get_title, get_description, get_time_minutes, get_price, get_link.
  split; intros Hnot Hcode.
  - apply String.eqb_neq in Hcode. rewrite Hcode.
    pose proof (Hkeep en_attrs "title_en"%string Hnot) as H1.
    pose proof (Hkeep en_attrs "description_en"%string Hnot) as H2.
    pose proof (Hkeep en_attrs "time_minutes_en"%string Hnot) as H3.
    pose proof (Hkeep en_attrs "price_en"%string Hnot) as H4.
    pose proof (Hkeep en_attrs "link_en"%string Hnot) as H5.
    unfold getattr, en_attrs in *. simpl in *.
    rewrite !elem_of_cons in *.
    split_and!; [injection H1|injection H2|injection H3|injection H4|injection H5];
      tauto.
  - apply String.eqb_eq in Hcode. rewrite Hcode.
    pose proof (Hkeep ar_attrs "title_ar"%string Hnot) as H1.
    pose proof (Hkeep ar_attrs "description_ar"%string Hnot) as H2.
    pose proof (Hkeep ar_attrs "time_minutes_ar"%string Hnot) as H3.
    pose proof (Hkeep ar_attrs "price_ar"%string Hnot) as H4.
    pose proof (Hkeep ar_attrs "link_ar"%string Hnot) as H5.
    unfold getattr, ar_attrs in *. simpl in *.
    rewrite !elem_of_cons in *.
    split_and!; [injection H1|injection H2|injection H3|injection H4|injection H5];
      tauto.
Qed.

End UpdateProperties.

Section TagReturns.
Import Models Serializers.
Local Open Scope nat_scope.

(** A name met earlier in the list costs nothing the second time. *)
Lemma _get_and_create_tags_repeat (request : Request) (recipe : Recipe)
    (l rest : list NameDict) (tag : NameDict) (s : DB) :
  tag ∈ l →
  _get_and_create_tags request (l ++ tag :: rest) recipe s
  = _get_and_create_tags request (l ++ rest) recipe s.
Proof.
  intros Hin. rewrite !_get_and_create_tags_eq, !for_each_app.
  destruct (for_each l (tag_step request recipe) s) as [[[]|e] s1] eqn:Hrun;
    [|done].
  rewrite for_each_cons.
  destruct (_get_and_create_tags_Ok _ _ _ _ _ Hrun tag Hin) as (pk & Hm & Hpair & _).
  by rewrite (tag_step_stable _ _ _ _ pk Hm Hpair).
Qed.

(** A loop that returns over a list that is not empty ran for a requester
    who is in the store, where tags have owners. *)
Lemma _get_and_create_tags_owner (request : Request) (recipe : Recipe)
    (tags0 : list NameDict) (s s' : DB) :
  tags_integrity s →
  _get_and_create_tags request tags0 recipe s = (Ok tt, s') →
  tags0 ≠ [] → request_user request ∈ dom (users s).
Proof.
  destruct tags0 as [|tag l]; [done|]. intros Hs Hrun _.
  destruct (_get_and_create_tags_Ok _ _ _ _ _ Hrun tag (list_elem_of_here _ _))
    as (pk & Hm & _).
  destruct (_get_and_create_tags_integrity _ _ _ _ _ _ Hrun Hs) as [Hown _].
  destruct (_get_and_create_tags_frame _ _ _ _ _ _ Hrun) as (<- & _).
  apply (Hown pk (tag_row (request_user request) (dict_name tag))).
  eapply tags_matching_lookup. rewrite Hm. apply lookup_singleton_eq.
Qed.

(** It also found the recipe's row, or a pair of the recipe already there. *)
Lemma _get_and_create_tags_first (request : Request) (recipe : Recipe)
    (tags0 : list NameDict) (s s' : DB) :
  _get_and_create_tags request tags0 recipe s = (Ok tt, s') →
  tags0 ≠ [] →
  id recipe ∈ dom (recipes s) ∨ ∃ pk, (id recipe, pk) ∈ recipe_tags s.
Proof.
  destruct tags0 as [|tag l]; [done|]. intros Hrun _.
  rewrite _get_and_create_tags_eq, for_each_cons in Hrun.
  destruct (tag_step_spec request recipe tag s) as (r1 & s1 & Hstep & _ & Hr1).
  rewrite Hstep in Hrun. destruct r1 as [[]|e]; [|done].
  destruct Hr1 as (pk & _ & Hpair & _).
  destruct (tag_step_recipe _ _ _ _ _ _ Hstep) as [E|?]; [|by left].
  right. exists pk. by rewrite <- E.
Qed.

(** When the block of [update] for tags returns. *)
Lemma update_tags_returns_iff (request : Request) (instance : Recipe)
    (tags0 : option (list NameDict)) (s : DB) :
  tags_integrity s →
  (∃ s1, update_tags request instance tags0 s = (Ok tt, s1))
  ↔ (default [] tags0 ≠ [] →
       request_user request ∈ dom (users s) ∧ id instance ∈ dom (recipes s))
    ∧ (∀ tag, tag ∈ default [] tags0 →
         size (tags_matching (request_user request) (dict_name tag) s) ≤ 1).
Proof.
  intros Hs. destruct tags0 as [l|]; simpl.
  2: { split; [|by eexists]. intros _. split; [done|].
       by intros tag ?%elem_of_nil. }
  unfold bind, tags_clear, modify_db.
  set (t0 := set_recipe_tags (filter (λ p, p.1 ≠ id instance)) s).
  assert (tags_integrity t0) as Ht0.
  { destruct Hs as [Hown Hpair]. split; [done|].
    intros rid pk [_ Hin]%elem_of_filter. by apply Hpair. }
  split.
  - intros [s1 Hrun]. split.
    + intros Hne. split.
      * by apply (_get_and_create_tags_owner _ _ _ _ _ Ht0 Hrun).
      * destruct (_get_and_create_tags_first _ _ _ _ _ Hrun Hne)
          as [?|[pk Hpk]]; [done|].
        simpl in Hpk. by apply elem_of_filter in Hpk as [? _].
    + intros tag Hin.
      by destruct (_get_and_create_tags_Ok _ _ _ _ _ Hrun tag Hin) as (_ & _ & _ & ?).
  - intros [Hne Hone]. destruct l as [|tag l]; [by eexists|].
    destruct Hne as [Hu Hr]; [done|].
    by apply _get_and_create_tags_returns.
Qed.

End TagReturns.

Section IngredientReturns.
Import Models Serializers.
Local Open Scope nat_scope.

(** A name met earlier in the list costs nothing the second time. *)
Lemma _get_and_create_ingredients_repeat (request : Request) (recipe : Recipe)
    (l rest : list NameDict) (ingredient : NameDict) (s : DB) :
  ingredient ∈ l →
  _get_and_create_ingredients request (l ++ ingredient :: rest) recipe s
  = _get_and_create_ingredients request (l ++ rest) recipe s.
Proof.
  intros Hin. rewrite !_get_and_create_ingredients_eq, !for_each_app.
  destruct (for_each l (ingredient_step request recipe) s) as [[[]|e] s1] eqn:Hrun;
    [|done].
  rewrite for_each_cons.
  destruct (_get_and_create_ingredients_Ok _ _ _ _ _ Hrun ingredient Hin) as (pk & Hm & Hpair & _).
  by rewrite (ingredient_step_stable _ _ _ _ pk Hm Hpair).
Qed.

(** A loop that returns over a list that is not empty ran for a requester
    who is in the store, where ingredients have owners. *)
Lemma _get_and_create_ingredients_owner (request : Request) (recipe : Recipe)
    (ingredients0 : list NameDict) (s s' : DB) :
  ingredients_integrity s →
  _get_and_create_ingredients request ingredients0 recipe s = (Ok tt, s') →
  ingredients0 ≠ [] → request_user request ∈ dom (users s).
Proof.
  destruct ingredients0 as [|ingredient l]; [done|]. intros Hs Hrun _.
  destruct (_get_and_create_ingredients_Ok _ _ _ _ _ Hrun ingredient (list_elem_of_here _ _))
    as (pk & Hm & _).
  destruct (_get_and_create_ingredients_integrity _ _ _ _ _ _ Hrun Hs) as [Hown _].
  destruct (_get_and_create_ingredients_frame _ _ _ _ _ _ Hrun) as (<- & _).
  apply (Hown pk (ingredient_row (request_user request) (dict_name ingredient))).
  eapply ingredients_matching_lookup. rewrite Hm. apply lookup_singleton_eq.
Qed.

(** It also found the recipe's row, or a pair of the recipe already there. *)
Lemma _get_and_create_ingredients_first (request : Request) (recipe : Recipe)
    (ingredients0 : list NameDict) (s s' : DB) :
  _get_and_create_ingredients request ingredients0 recipe s = (Ok tt, s') →
  ingredients0 ≠ [] →
  id recipe ∈ dom (recipes s) ∨ ∃ pk, (id recipe, pk) ∈ recipe_ingredients s.
Proof.
  destruct ingredients0 as [|ingredient l]; [done|]. intros Hrun _.
  rewrite _get_and_create_ingredients_eq, for_each_cons in Hrun.
  destruct (ingredient_step_spec request recipe ingredient s) as (r1 & s1 & Hstep & _ & Hr1).
  rewrite Hstep in Hrun. destruct r1 as [[]|e]; [|done].
  destruct Hr1 as (pk & _ & Hpair & _).
  destruct (ingredient_step_recipe _ _ _ _ _ _ Hstep) as [E|?]; [|by left].
  right. exists pk. by rewrite <- E.
Qed.

(** When the block of [update] for ingredients returns. *)
Lemma update_ingredients_returns_iff (request : Request) (instance : Recipe)
    (ingredients0 : option (list NameDict)) (s : DB) :
  ingredients_integrity s →
  (∃ s1, update_ingredients request instance ingredients0 s = (Ok tt, s1))
  ↔ (default [] ingredients0 ≠ [] →
       request_user request ∈ dom (users s) ∧ id instance ∈ dom (recipes s))
    ∧ (∀ ingredient, ingredient ∈ default [] ingredients0 →
         size (ingredients_matching (request_user request) (dict_name ingredient) s) ≤ 1).
Proof.
  intros Hs. destruct ingredients0 as [l|]; simpl.
  2: { split; [|by eexists]. intros _. split; [done|].
       by intros ingredient ?%elem_of_nil. }
  unfold bind, ingredients_clear, modify_db.
  set (t0 := set_recipe_ingredients (filter (λ p, p.1 ≠ id instance)) s).
  assert (ingredients_integrity t0) as Ht0.
  { destruct Hs as [Hown Hpair]. split; [done|].
    intros rid pk [_ Hin]%elem_of_filter. by apply Hpair. }
  split.
  - intros [s1 Hrun]. split.
    + intros Hne. split.
      * by apply (_get_and_create_ingredients_owner _ _ _ _ _ Ht0 Hrun).
      * destruct (_get_and_create_ingredients_first _ _ _ _ _ Hrun Hne)
          as [?|[pk Hpk]]; [done|].
        simpl in Hpk. by apply elem_of_filter in Hpk as [? _].
    + intros ingredient Hin.
      by destruct (_get_and_create_ingredients_Ok _ _ _ _ _ Hrun ingredient Hin) as (_ & _ & _ & ?).
  - intros [Hne Hone]. destruct l as [|ingredient l]; [by eexists|].
    destruct Hne as [Hu Hr]; [done|].
    by apply _get_and_create_ingredients_returns.
Qed.

End IngredientReturns.

Section ReturnFacts.
Import Models Serializers.
Local Open Scope nat_scope.

Lemma Recipe_objects_create_returns (kwargs : list field_value) (s : DB)
    (owner : nat) :
  lookup_attr "user" kwargs = Some (F_user owner) → owner ∈ dom (users s) →
  ∃ recipe,
    id recipe = new_pk (recipes s) ∧
    Recipe_objects_create kwargs s
    = (Ok recipe, set_recipes (insert (new_pk (recipes s)) recipe) s).
Proof.
  intros Hlook Hu. unfold Recipe_objects_create. rewrite Hlook.
  unfold bind, get_db. rewrite decide_True by done.
  eexists. split; [|by rewrite fold_setattr_id]. by rewrite fold_setattr_id.
Qed.

End ReturnFacts.

Section ReturnProperties.
Import Models Serializers.
Local Open Scope nat_scope.

(** X24.  In a store whose foreign keys hold, and for validated data the
    tables store as given (values and names within the bounds of their
    columns, no upload), [create] returns exactly when the [user] item
    names an existing user, the requester is in the store if any tag or
    ingredient is submitted, and the requester owns at most one row of
    each submitted name. *)
Theorem create_returns_iff (request : Request) (validated_data : ValidatedData)
    (s : DB) :
  referential_integrity s →
  storable_data validated_data = true →
  let owner := request_user request in
  let tags0 := default [] (vd_tags validated_data) in
  let ingredients0 := default [] (vd_ingredients validated_data) in
  (∃ recipe s', create request validated_data s = (Ok recipe, s'))
  ↔ (∃ u, lookup_attr "user" (vd_fields validated_data) = Some (F_user u)
          ∧ u ∈ dom (users s))
    ∧ (tags0 ≠ [] ∨ ingredients0 ≠ [] → owner ∈ dom (users s))
    ∧ (∀ tag, tag ∈ tags0 →
         size (tags_matching owner (dict_name tag) s) ≤ 1)
    ∧ (∀ ingredient, ingredient ∈ ingredients0 →
         size (ingredients_matching owner (dict_name ingredient) s) ≤ 1).
Proof.
  intros Hs _ owner tags0 ingredients0. split.
  - intros (recipe & s' & Hrun).
    apply create_Ok in Hrun as (s1 & s2 & Hc & Ht & Hi).
    fold tags0 in Ht. fold ingredients0 in Hi.
    destruct (Recipe_objects_create_spec (vd_fields validated_data) s)
      as [(u & Hlook & Hu & _)|Hraise]; [|congruence].
    apply Recipe_objects_create_Ok in Hc as (Hid & _ & -> & Hur & _).
    assert (referential_integrity (set_recipes (insert (id recipe) recipe) s))
      as (_ & Ht1 & _) by (by apply referential_integrity_row).
    pose proof (_get_and_create_tags_referential _ _ _ _ _ _ Ht
                  (referential_integrity_row _ _ _ eq_refl Hur Hs))
      as (_ & _ & Hi2).
    destruct (_get_and_create_tags_frame _ _ _ _ _ _ Ht) as (Eu2 & _ & Ei2 & _).
    split_and!.
    + by exists u.
    + intros [Hne|Hne].
      * by apply (_get_and_create_tags_owner _ _ _ _ _ Ht1 Ht).
      * pose proof (_get_and_create_ingredients_owner _ _ _ _ _ Hi2 Hi Hne) as Hin.
        by rewrite Eu2 in Hin.
    + intros tag Hin.
      by destruct (_get_and_create_tags_Ok _ _ _ _ _ Ht tag Hin) as (_ & _ & _ & ?).
    + intros ingredient Hin.
      destruct (_get_and_create_ingredients_Ok _ _ _ _ _ Hi ingredient Hin)
        as (_ & _ & _ & Hone).
      by rewrite <- (ingredients_matching_ext _ _ s s2) by (by rewrite Ei2).
  - intros ((u & Hlook & Hu) & Hown & Htags & Hingredients).
    destruct (Recipe_objects_create_returns _ s u Hlook Hu) as (recipe & Hid & Hc).
    rewrite create_unfold, Hc. fold tags0 ingredients0.
    set (s1 := set_recipes (insert (new_pk (recipes s)) recipe) s).
    assert (id recipe ∈ dom (recipes s1)) as Hr1.
    { rewrite Hid. apply elem_of_dom. eexists. apply lookup_insert_eq. }
    assert (∃ s2, _get_and_create_tags request tags0 recipe s1 = (Ok tt, s2))
      as [s2 Ht].
    { destruct tags0 as [|tag l] eqn:E; [by eexists|]. rewrite <- E in *.
      apply _get_and_create_tags_returns; [|done..].
      apply Hown. left. by rewrite E. }
    rewrite Ht.
    destruct (_get_and_create_tags_frame _ _ _ _ _ _ Ht) as (Eu2 & Er2 & Ei2 & _).
    assert (∃ s3, _get_and_create_ingredients request ingredients0 recipe s2
                  = (Ok tt, s3)) as [s3 Hi].
    { destruct ingredients0 as [|ingredient l] eqn:E; [by eexists|].
      rewrite <- E in *.
      apply _get_and_create_ingredients_returns.
      - rewrite Eu2. apply Hown. right. by rewrite E.
      - by rewrite Er2.
      - intros ingredient' Hin.
        rewrite (ingredients_matching_ext _ _ s) by done. by apply Hingredients. }
    rewrite Hi. by eexists _, _.
Qed.

(** X25.  In a store whose foreign keys hold, for an instance whose
    columns are within their bounds and validated data the tables store as
    given (values and names within the bounds of their columns, no
    upload), [update] returns exactly when the owner the instance ends
    with is in the store, the requester and the recipe are in the store if
    any tag or ingredient is submitted, and the requester owns at most one
    row of each submitted name. *)
Theorem update_returns_iff (request : Request) (instance : Recipe)
    (validated_data : ValidatedData) (s : DB) :
  referential_integrity s →
  storable_row instance = true →
  storable_data validated_data = true →
  let owner := request_user request in
  let tags0 := default [] (vd_tags validated_data) in
  let ingredients0 := default [] (vd_ingredients validated_data) in
  (∃ r s', update request instance validated_data s = (Ok r, s'))
  ↔ user (fold_left setattr (vd_fields validated_data) instance) ∈ dom (users s)
    ∧ (tags0 ≠ [] ∨ ingredients0 ≠ [] →
         owner ∈ dom (users s) ∧ id instance ∈ dom (recipes s))
    ∧ (∀ tag, tag ∈ tags0 →
         size (tags_matching owner (dict_name tag) s) ≤ 1)
    ∧ (∀ ingredient, ingredient ∈ ingredients0 →
         size (ingredients_matching owner (dict_name ingredient) s) ≤ 1).
Proof.
  intros Hs _ _ owner tags0 ingredients0.
  pose proof Hs as (_ & Hts & His). split.
  - intros (r & s' & Hrun).
    apply update_Ok in Hrun as (s1 & s2 & Ht & Hi & -> & Hu & _).
    pose proof (update_tags_referential _ _ _ _ _ _ Ht Hs) as (_ & _ & His1).
    destruct (update_tags_frame _ _ _ _ _ _ Ht) as (Eu1 & Er1 & Ei1 & _).
    pose proof (proj1 (update_tags_returns_iff request instance
                         (vd_tags validated_data) s Hts) (ex_intro _ s1 Ht))
      as [Hown1 Hone1].
    pose proof (proj1 (update_ingredients_returns_iff request instance
                         (vd_ingredients validated_data) s1 His1)
                  (ex_intro _ s2 Hi)) as [Hown2 Hone2].
    split_and!; [done| |done|].
    + intros [Hne|Hne]; [by apply Hown1|].
      rewrite <- Eu1, <- Er1. by apply Hown2.
    + intros ingredient Hin.
      rewrite <- (ingredients_matching_ext _ _ _ s1 Ei1). by apply Hone2.
  - intros (Hu & Hown & Htags & Hingredients). rewrite update_unfold.
    destruct (proj2 (update_tags_returns_iff request instance
                       (vd_tags validated_data) s Hts)) as [s1 Ht].
    { split; [|done]. intros Hne. apply Hown. by left. }
    rewrite Ht.
    pose proof (update_tags_referential _ _ _ _ _ _ Ht Hs) as (_ & _ & His1).
    destruct (update_tags_frame _ _ _ _ _ _ Ht) as (Eu1 & Er1 & Ei1 & _).
    destruct (proj2 (update_ingredients_returns_iff request instance
                       (vd_ingredients validated_data) s1 His1)) as [s2 Hi].
    { split.
      - intros Hne. rewrite Eu1, Er1. apply Hown. by right.
      - intros ingredient Hin.
        rewrite (ingredients_matching_ext _ _ s) by done. by apply Hingredients. }
    rewrite Hi.
    destruct (update_ingredients_frame _ _ _ _ _ _ Hi) as (Eu2 & _).
    simpl. rewrite decide_True by (by rewrite Eu2, Eu1). by eexists _, _.
Qed.

(** X26.  A name submitted twice counts once: leaving out a later
    occurrence of a name in the list changes neither the outcome of the
    loop nor the store it leaves, for tags and for ingredients. *)
Theorem get_and_create_repeated_name (request : Request) (recipe : Recipe)
    (l rest : list NameDict) (name : NameDict) (s : DB) :
  name ∈ l →
  _get_and_create_tags request (l ++ name :: rest) recipe s
    = _get_and_create_tags request (l ++ rest) recipe s
  ∧ _get_and_create_ingredients request (l ++ name :: rest) recipe s
    = _get_and_create_ingredients request (l ++ rest) recipe s.
Proof.
  intros Hin. split.
  - by apply _get_and_create_tags_repeat.
  - by apply _get_and_create_ingredients_repeat.
Qed.

End ReturnProperties.

(** ** Part XIII. The serializers as a whole *)

Section KeywordFacts.
Import Models Serializers.

Lemma setattr_twice (instance : Recipe) (fv : field_value) :
  setattr (setattr instance fv) fv = setattr instance fv.
Proof. by destruct fv. Qed.

Lemma lookup_attr_cons_ne (attr : string) (fv : field_value)
    (kwargs : list field_value) :
  attr_name fv ≠ attr → lookup_attr attr (fv :: kwargs) = lookup_attr attr kwargs.
Proof. intros Hne. unfold lookup_attr. by rewrite filter_cons_False. Qed.

Lemma lookup_attr_app_other (attr : string) (l kwargs : list field_value) :
  (∀ fv, fv ∈ l → attr_name fv ≠ attr) →
  lookup_attr attr (l ++ kwargs) = lookup_attr attr kwargs.
Proof.
  induction l as [|fv l IH]; intros Hne; [done|]. simpl.
  rewrite lookup_attr_cons_ne by apply Hne, list_elem_of_here.
  apply IH. intros fv' Hin. by apply Hne, list_elem_of_further.
Qed.

(** An item named [user] holds a user's key. *)
Lemma lookup_attr_user (kwargs : list field_value) (fv : field_value) :
  lookup_attr "user" kwargs = Some fv → ∃ owner, fv = F_user owner.
Proof.
  intros [Hname _]%lookup_attr_name. destruct fv; try done. by eexists.
Qed.

(** [update] reads the items only through the instance they make. *)
Lemma update_fields_ext (request : Request) (instance : Recipe)
    (vd vd' : ValidatedData) (s : DB) :
  vd_tags vd' = vd_tags vd → vd_ingredients vd' = vd_ingredients vd →
  fold_left setattr (vd_fields vd') instance
    = fold_left setattr (vd_fields vd) instance →
  update request instance vd' s = update request instance vd s.
Proof. intros Et Ei Ef. by rewrite !update_unfold, Et, Ei, Ef. Qed.

(** [create] reads them through the owner they name and the instance they
    make. *)
Lemma create_fields_ext (request : Request) (vd vd' : ValidatedData) (s : DB) :
  vd_tags vd' = vd_tags vd → vd_ingredients vd' = vd_ingredients vd →
  lookup_attr "user" (vd_fields vd') = lookup_attr "user" (vd_fields vd) →
  (∀ base, fold_left setattr (vd_fields vd') base
           = fold_left setattr (vd_fields vd) base) →
  create request vd' s = create request vd s.
Proof.
  intros Et Ei Eu Ef. rewrite !create_unfold, Et, Ei.
  assert (Recipe_objects_create (vd_fields vd') s
          = Recipe_objects_create (vd_fields vd) s) as ->; [|done].
  unfold Recipe_objects_create. rewrite Eu.
  destruct (lookup_attr "user" (vd_fields vd)) as [[]|]; try done.
  unfold bind, get_db. by rewrite Ef.
Qed.

End KeywordFacts.

Section SerializerFacts.
Import Models Serializers.
Local Open Scope nat_scope.
Context `{Validators raw}.

(** The only items validation makes for the two recipe serializers are
    named [image]. *)
Lemma validated_items_image (fields : list (string * declared))
    (data : gmap string raw) (vd : ValidatedData) (fv : field_value) :
  fields = RecipeSerializer_fields ∨ fields = RecipeDetailSerializer_fields →
  to_internal_value fields data empty_data = Some vd →
  fv ∈ vd_fields vd → attr_name fv = "image"%string.
Proof.
  intros Hfields Hv Hin.
  destruct (to_internal_value_fields _ _ _ _ _ Hv Hin)
    as [?%elem_of_nil|(n & Hn & ->)]; [done|].
  by apply (RecipeSerializer_model_fields _ _ Hfields).
Qed.

Lemma validated_user (fields : list (string * declared))
    (data : gmap string raw) (vd : ValidatedData) (kwargs : list field_value) :
  fields = RecipeSerializer_fields ∨ fields = RecipeDetailSerializer_fields →
  to_internal_value fields data empty_data = Some vd →
  lookup_attr "user" (vd_fields vd ++ kwargs) = lookup_attr "user" kwargs.
Proof.
  intros Hfields Hv. apply lookup_attr_app_other. intros fv Hin.
  by rewrite (validated_items_image _ _ _ _ Hfields Hv Hin).
Qed.

(** What validation by [RecipeDetailSerializer] yields: what
    [RecipeSerializer] yields, with the image item once more. *)
Lemma to_internal_value_detail (data : gmap string raw) :
  match to_internal_value RecipeSerializer_fields data empty_data with
  | None => to_internal_value RecipeDetailSerializer_fields data empty_data = None
  | Some vd =>
      ∃ again,
        to_internal_value RecipeDetailSerializer_fields data empty_data
        = Some {| vd_tags := vd_tags vd; vd_ingredients := vd_ingredients vd;
                  vd_fields := vd_fields vd ++ again |}
        ∧ (again = [] ∨ ∃ fv, again = [fv] ∧ vd_fields vd = [fv])
  end.
Proof.
  unfold RecipeDetailSerializer_fields, RecipeSerializer_fields. simpl.
  destruct (data !! "tags"%string) as [vt|];
    [destruct (validate_names vt) as [lt|]; [|done]|];
    (destruct (data !! "ingredients"%string) as [vi|];
       [destruct (validate_names vi) as [li|]; [|done]|]);
    (destruct (data !! "image"%string) as [vim|];
       [destruct (validate_column "image" vim) as [fv|]; [|done]|]);
    simpl; eexists; (split; [reflexivity|]); eauto.
Qed.

End SerializerFacts.

Section UpdatePayload.
Import Models Serializers.
Local Open Scope nat_scope.
Context `{Validators raw}.

(** Request data without [image] yield no item at all. *)
Lemma to_internal_value_no_image (fields : list (string * declared))
    (data : gmap string raw) (vd : ValidatedData) :
  fields = RecipeSerializer_fields ∨ fields = RecipeDetailSerializer_fields →
  data !! "image"%string = None →
  to_internal_value fields data empty_data = Some vd → vd_fields vd = [].
Proof.
  intros [-> | ->] Him;
    unfold RecipeDetailSerializer_fields, RecipeSerializer_fields; simpl;
    rewrite Him;
    (destruct (data !! "tags"%string) as [vt|];
       [destruct (validate_names vt) as [lt|]; [|done]|]);
    (destruct (data !! "ingredients"%string) as [vi|];
       [destruct (validate_names vi) as [li|]; [|done]|]);
    by intros [= <-].
Qed.

(** C5, amended.  An update through [RecipeSerializer] or
    [RecipeDetailSerializer] of a recipe read from the store, whatever the
    payload, the keyword arguments of [save] and the outcome: every stored
    column of the recipe other than [image] that no keyword argument names
    keeps its previous value, the columns behind [title], [description],
    [time_minutes], [price] and [link] among them; with no keyword
    argument and no [image] in the payload the whole row stays as it was.
    [RecipeSerializer.update] itself, handed validated data directly,
    overwrites: when it returns, the stored row is the returned instance,
    in which every attribute the data name holds the value given (for
    items the row stores as given) and every other attribute holds the
    previous value. *)
Theorem update_scalar_fields (fields : list (string * declared))
    (request : Request) (instance : Recipe) (data : gmap string raw)
    (kwargs : list field_value) (validated_data : ValidatedData) (s : DB) :
  fields = RecipeSerializer_fields ∨ fields = RecipeDetailSerializer_fields →
  recipes s !! id instance = Some instance →
  let out := save fields request (Some instance) data kwargs s in
  (∀ attr, attr ≠ "image"%string → lookup_attr attr kwargs = None →
     (λ row, getattr row attr) <$> recipes out.2 !! id instance
     = Some (getattr instance attr))
  ∧ (data !! "image"%string = None → kwargs = [] →
       recipes out.2 !! id instance = Some instance)
  ∧ (∀ r s',
       forallb storable_item (vd_fields validated_data) = true →
       update request instance validated_data s = (Ok r, s') →
       recipes s' = <[id instance := r]> (recipes s)
       ∧ id r = id instance
       ∧ ∀ attr,
           getattr r attr
           = match lookup_attr attr (vd_fields validated_data) with
             | Some fv => Some fv
             | None => getattr instance attr
             end).
Proof.
  intros Hfields Hstored out.
  assert (∀ vd, to_internal_value fields data empty_data = Some vd →
            ∀ row, recipes out.2 !! id instance = Some row →
              row = instance
              ∨ row = fold_left setattr (vd_fields vd ++ kwargs) instance) as Hrow.
  { intros vd Hv row. unfold out, save. rewrite Hv.
    pose proof (update_recipes request instance
      {| vd_tags := vd_tags vd; vd_ingredients := vd_ingredients vd;
         vd_fields := vd_fields vd ++ kwargs |} s) as [_ Hrec].
    destruct (update _ _ _ s) as [[r|e] s']; simpl in *.
    - destruct Hrec as [-> ->]. rewrite lookup_insert_eq. intros [= <-]. by right.
    - rewrite Hrec, Hstored. intros [= <-]. by left. }
  assert (recipes out.2 !! id instance ≠ None) as Hsome.
  { unfold out, save.
    destruct (to_internal_value fields data empty_data) as [vd|];
      [|by simpl; rewrite Hstored].
    pose proof (update_recipes request instance
      {| vd_tags := vd_tags vd; vd_ingredients := vd_ingredients vd;
         vd_fields := vd_fields vd ++ kwargs |} s) as [_ Hrec].
    destruct (update _ _ _ s) as [[r|e] s']; simpl in *.
    - destruct Hrec as [_ ->]. by rewrite lookup_insert_eq.
    - by rewrite Hrec, Hstored. }
  assert (to_internal_value fields data empty_data = None →
          recipes out.2 = recipes s) as Hinvalid.
  { intros Hv. unfold out, save. by rewrite Hv. }
  split_and!.
  - intros attr Hattr Hkw.
    destruct (to_internal_value fields data empty_data) as [vd|] eqn:Hv;
      [|by rewrite Hinvalid, Hstored].
    destruct (recipes out.2 !! id instance) as [row|] eqn:E; [|done].
    simpl. f_equal.
    destruct (Hrow vd eq_refl row eq_refl) as [->| ->]; [done|].
    rewrite getattr_fold_setattr, lookup_attr_app_other, Hkw; [done|].
    intros fv Hin. by rewrite (validated_items_image _ _ _ _ Hfields Hv Hin).
  - intros Him ->.
    destruct (to_internal_value fields data empty_data) as [vd|] eqn:Hv;
      [|by rewrite Hinvalid, Hstored].
    destruct (recipes out.2 !! id instance) as [row|] eqn:E; [|done].
    f_equal.
    destruct (Hrow vd eq_refl row eq_refl) as [->| ->]; [done|].
    by rewrite (to_internal_value_no_image _ _ _ Hfields Him Hv).
  - intros r s' _ Hrun.
    pose proof (update_recipes request instance validated_data s) as Hrec.
    rewrite Hrun in Hrec. simpl in Hrec. destruct Hrec as (_ & -> & Hrec).
    split_and!.
    + done.
    + apply fold_setattr_id.
    + intros attr. apply getattr_fold_setattr.
Qed.

End UpdatePayload.

Section UpdatePayloadExample.
Import Models Serializers.
Local Open Scope nat_scope.

(** C5, as the claim words it, fails: the scalar fields of the payload do
    not overwrite their columns.  The recipe of [tagged_store] is updated
    through [RecipeSerializer] with a payload that holds a title, a price
    and a link; the update returns, and the stored row still has no title,
    no price and an empty link, under either language. *)
Lemma update_payload_ignored_counterexample :
  let recipe := default_recipe 0 0 in
  let data : gmap string string :=
    {[ "title"%string := "Soup"%string; "price"%string := "9.50"%string;
       "link"%string := "http://soup"%string ]} in
  let out := save (H := demo_validators) RecipeSerializer_fields cook_request
               (Some recipe) data [] tagged_store in
  recipes tagged_store !! 0 = Some recipe
  ∧ out.1 = Ran (Ok recipe)
  ∧ recipes out.2 !! 0 = Some recipe
  ∧ title_en recipe = None ∧ title_ar recipe = None
  ∧ price_en recipe = None ∧ price_ar recipe = None
  ∧ link_en recipe = EmptyString ∧ link_ar recipe = EmptyString.
Proof. by split_and!. Qed.

(** The recipe of [tagged_store] updated through [RecipeSerializer] with a
    payload that holds a title and a link: the row stays as it was.
    [update] handed an English title directly: that column changes and the
    Arabic title stays. *)
Lemma update_scalar_fields_witness :
  let recipe := default_recipe 0 0 in
  let data : gmap string string :=
    {[ "title"%string := "Soup"%string; "link"%string := "http://soup"%string ]} in
  let validated_data :=
    {| vd_tags := None; vd_ingredients := None;
       vd_fields := [F_title_en (Some "Soup"%string)] |} in
  recipes (save (H := demo_validators) RecipeSerializer_fields cook_request
             (Some recipe) data [] tagged_store).2 !! 0 = Some recipe
  ∧ ∃ r, (update cook_request recipe validated_data tagged_store).1 = Ok r
         ∧ recipes (update cook_request recipe validated_data tagged_store).2 !! 0
           = Some r
         ∧ getattr r "title_en" = Some (F_title_en (Some "Soup"%string))
         ∧ getattr r "title_ar" = getattr recipe "title_ar".
Proof.
  intros recipe data validated_data.
  destruct (update_scalar_fields (H := demo_validators) RecipeSerializer_fields
              cook_request recipe data [] validated_data tagged_store)
    as (_ & Hrow & Hupdate); [by left|reflexivity|].
  split; [by apply Hrow|].
  destruct (update cook_request recipe validated_data tagged_store)
    as [[r|e] s'] eqn:Hout; [|by vm_compute in Hout].
  exists r. destruct (Hupdate r s' eq_refl eq_refl) as (Hrec & _ & Hattr).
  split_and!.
  - done.
  - simpl. rewrite Hrec. apply lookup_insert_eq.
  - apply (Hattr "title_en"%string).
  - apply (Hattr "title_ar"%string).
Defined.

End UpdatePayloadExample.

Section SerializerProperties.
Import Models Serializers.
Local Open Scope nat_scope.
Context `{Validators raw}.

(** X20.  A write through [RecipeDetailSerializer] does exactly what the
    same write through [RecipeSerializer] does: [description] is a method
    field and is not read from the request, and naming [image] twice in
    [Meta.fields] changes nothing. *)
Theorem detail_serializer_writes (request : Request) (instance : option Recipe)
    (data : gmap string raw) (kwargs : list field_value) (s : DB) :
  save RecipeDetailSerializer_fields request instance data kwargs s
  = save RecipeSerializer_fields request instance data kwargs s.
Proof.
  unfold save. pose proof (to_internal_value_detail data) as Hd.
  destruct (to_internal_value RecipeSerializer_fields data empty_data)
    as [vd|]; [|by rewrite Hd].
  destruct Hd as (again & -> & Hagain). simpl.
  assert (∀ base,
            fold_left setattr ((vd_fields vd ++ again) ++ kwargs) base
            = fold_left setattr (vd_fields vd ++ kwargs) base) as Hfold.
  { intros base. destruct Hagain as [->|(fv & -> & ->)];
      [by rewrite app_nil_r|].
    simpl. by rewrite setattr_twice. }
  assert (lookup_attr "user" ((vd_fields vd ++ again) ++ kwargs)
          = lookup_attr "user" (vd_fields vd ++ kwargs)) as Huser.
  { destruct Hagain as [->|(fv & -> & E)]; [by rewrite app_nil_r|].
    rewrite E. simpl.
    destruct (decide (attr_name fv = "user"%string)) as [Hu|Hu].
    - unfold lookup_attr. simpl. rewrite !filter_cons_True by done.
      by destruct (filter _ kwargs).
    - by rewrite !lookup_attr_cons_ne. }
  destruct instance as [i|].
  - by rewrite (update_fields_ext request i
                  {| vd_tags := vd_tags vd; vd_ingredients := vd_ingredients vd;
                     vd_fields := vd_fields vd ++ kwargs |}).
  - by rewrite (create_fields_ext request
                  {| vd_tags := vd_tags vd; vd_ingredients := vd_ingredients vd;
                     vd_fields := vd_fields vd ++ kwargs |}).
Qed.

(** X21.  The request data cannot choose a recipe's owner: [user] is no
    field of the two recipe serializers.  A creation given no [user]
    keyword argument is rejected or raises [IntegrityError] and writes
    nothing; a recipe that is created belongs to the user that keyword
    argument names; an update leaves the owner as the instance has it
    unless a keyword argument says otherwise. *)
Theorem serializer_owner (fields : list (string * declared)) (request : Request)
    (data : gmap string raw) (kwargs : list field_value) (s : DB) :
  fields = RecipeSerializer_fields ∨ fields = RecipeDetailSerializer_fields →
  (lookup_attr "user" kwargs = None →
     save fields request None data kwargs s = (Invalid, s)
     ∨ save fields request None data kwargs s = (Ran (Raise IntegrityError), s))
  ∧ (∀ r s', save fields request None data kwargs s = (Ran (Ok r), s') →
       lookup_attr "user" kwargs = Some (F_user (user r)))
  ∧ (∀ i r s', save fields request (Some i) data kwargs s = (Ran (Ok r), s') →
       match lookup_attr "user" kwargs with
       | Some fv => fv = F_user (user r)
       | None => user r = user i
       end).
Proof.
  intros Hfields. unfold save.
  destruct (to_internal_value fields data empty_data) as [vd|] eqn:Hv.
  2: { split_and!; [by left|done..]. }
  pose proof (validated_user _ _ _ kwargs Hfields Hv) as Huser.
  set (validated_data :=
         {| vd_tags := vd_tags vd; vd_ingredients := vd_ingredients vd;
            vd_fields := vd_fields vd ++ kwargs |}).
  split_and!.
  - intros Hnone. right. rewrite create_unfold.
    unfold Recipe_objects_create. simpl. by rewrite Huser, Hnone.
  - intros r s'.
    destruct (create request validated_data s) as [[r'|e] s1] eqn:Hrun; [|done].
    intros [= -> ->].
    apply create_Ok in Hrun as (s1 & s2 & Hc & _).
    destruct (Recipe_objects_create_spec (vd_fields validated_data) s)
      as [(owner & Hlook & _ & Hrow)|Hraise]; [|congruence].
    unfold validated_data in *. cbn [vd_fields] in *.
    cbn zeta in Hrow. rewrite Hc in Hrow. injection Hrow as -> _.
    rewrite Huser in Hlook. rewrite Hlook. do 2 f_equal.
    pose proof (getattr_fold_setattr (vd_fields vd ++ kwargs)
                  (default_recipe (new_pk (recipes s)) owner) "user") as Hget.
    rewrite Huser, Hlook in Hget. unfold getattr in Hget. simpl in Hget.
    by injection Hget.
  - intros i r s'.
    destruct (update request i validated_data s) as [[r'|e] s1] eqn:Hrun; [|done].
    intros [= -> ->].
    apply update_Ok in Hrun as (_ & _ & _ & _ & -> & _).
    pose proof (getattr_fold_setattr (vd_fields vd ++ kwargs) i "user") as Hget.
    rewrite Huser in Hget. unfold validated_data. cbn [vd_fields].
    unfold getattr in Hget. simpl in Hget.
    destruct (lookup_attr "user" kwargs) as [fv|] eqn:Hlook.
    + destruct (lookup_attr_user _ _ Hlook) as [owner ->]. congruence.
    + congruence.
Qed.

(** X22.  A recipe created through [RecipeSerializer] or
    [RecipeDetailSerializer] reads empty in every language: the serializers
    cannot write a locale column, so unless a keyword argument of [save]
    does, each keeps its default.  The title, the time and the price read
    [None], the description and the link the empty string, and
    [Recipe.__str__], which returns the English title, returns [None]. *)
Theorem created_recipe_reads_empty (fields : list (string * declared))
    (request reader : Request) (data : gmap string raw)
    (kwargs : list field_value) (s s' : DB) (r : Recipe) :
  fields = RecipeSerializer_fields ∨ fields = RecipeDetailSerializer_fields →
  (∀ fv, fv ∈ kwargs → attr_name fv ∉ locale_attrs) →
  save fields request None data kwargs s = (Ran (Ok r), s') →
  Recipe___str__ r = None
  ∧ get_title reader r = None
  ∧ get_description reader r = EmptyString
  ∧ get_time_minutes reader r = None
  ∧ get_price reader r = None
  ∧ get_link reader r = EmptyString.
Proof.
  intros Hfields Hkwargs. unfold save.
  destruct (to_internal_value fields data empty_data) as [vd|] eqn:Hv; [|done].
  set (validated_data :=
         {| vd_tags := vd_tags vd; vd_ingredients := vd_ingredients vd;
            vd_fields := vd_fields vd ++ kwargs |}).
  destruct (create request validated_data s) as [[r'|e] s1] eqn:Hrun; [|done].
  intros [= -> ->].
  apply create_Ok in Hrun as (s1 & s2 & Hc & _).
  apply Recipe_objects_create_Ok in Hc as (_ & _ & _ & _ & owner & Hrow).
  assert (∀ attr, attr ∈ locale_attrs →
            getattr r attr = getattr (default_recipe (id r) owner) attr) as Hdef.
  { intros attr Hattr. rewrite Hrow at 1. rewrite getattr_fold_setattr.
    unfold validated_data. cbn [vd_fields].
    by rewrite (no_locale_item vd fields data kwargs attr). }
  clear Hrow.
  assert (title_en r = None ∧ title_ar r = None
          ∧ description_en r = EmptyString ∧ description_ar r = EmptyString
          ∧ time_minutes_en r = None ∧ time_minutes_ar r = None
          ∧ price_en r = None ∧ price_ar r = None
          ∧ link_en r = EmptyString ∧ link_ar r = EmptyString)
    as (H1 & H2 & H3 & H4 & H5 & H6 & H7 & H8 & H9 & H10).
  { split_and!;
      [ pose proof (Hdef "title_en"%string) as E
      | pose proof (Hdef "title_ar"%string) as E
      | pose proof (Hdef "description_en"%string) as E
      | pose proof (Hdef "description_ar"%string) as E
      | pose proof (Hdef "time_minutes_en"%string) as E
      | pose proof (Hdef "time_minutes_ar"%string) as E
      | pose proof (Hdef "price_en"%string) as E
      | pose proof (Hdef "price_ar"%string) as E
      | pose proof (Hdef "link_en"%string) as E
      | pose proof (Hdef "link_ar"%string) as E ];
      (unfold getattr in E; simpl in E; injection E; [done|];
       unfold locale_attrs; repeat constructor). }
  unfold Recipe___str__, get_title, get_description, get_time_minutes,
    get_price, get_link.
  by destruct (String.eqb (LANGUAGE_CODE reader) "ar").
Qed.

End SerializerProperties.

Section TagRename.
Import Models Serializers.
Local Open Scope nat_scope.

Lemma map_size_two {V} (m : gmap nat V) (i j : nat) (x y : V) :
  i ≠ j → m !! i = Some x → m !! j = Some y → 2 ≤ size m.
Proof.
  intros Hne Hi Hj.
  assert ({[i; j]} ⊆ dom m) as Hsub.
  { apply union_subseteq. split; apply singleton_subseteq_l, elem_of_dom; eauto. }
  apply subseteq_size in Hsub. rewrite size_dom in Hsub.
  rewrite size_union in Hsub
    by (by apply disjoint_singleton_l, not_elem_of_singleton).
  rewrite !size_singleton in Hsub. lia.
Qed.

(** X23.  Nothing keeps a user's tag names apart: [TagSerializer] renames a
    tag to a name the user already has.  From then on the user owns two
    rows of that name, the loop raises [MultipleObjectsReturned] at it
    without writing, and no [create] or [update] of that user that names
    it returns. *)
Theorem tag_rename_duplicates (pk pk' : nat) (t : Tag) (n : string) (s : DB) :
  pk ≠ pk' →
  tags s !! pk = Some t →
  tags s !! pk' = Some (tag_row (tag_user t) n) →
  let s1 := (TagSerializer_update pk t {| dict_name := n |} s).2 in
  tags s1 = <[pk := tag_row (tag_user t) n]> (tags s)
  ∧ 2 ≤ size (tags_matching (tag_user t) n s1)
  ∧ ∀ request tag,
      request_user request = tag_user t → dict_name tag = n →
      (∀ recipe names,
         _get_and_create_tags request (tag :: names) recipe s1
         = (Raise MultipleObjectsReturned, s1))
      ∧ (∀ validated_data recipe s',
           tag ∈ default [] (vd_tags validated_data) →
           create request validated_data s1 ≠ (Ok recipe, s'))
      ∧ (∀ instance validated_data recipe s',
           tag ∈ default [] (vd_tags validated_data) →
           update request instance validated_data s1 ≠ (Ok recipe, s')).
Proof.
  intros Hne Hpk Hpk' s1.
  assert (2 ≤ size (tags_matching (tag_user t) n s1)) as Hsize.
  { apply (map_size_two _ pk pk' (tag_row (tag_user t) n) (tag_row (tag_user t) n));
      [done|..]; apply tags_matching_lookup; (split; [|done]); simpl.
    - apply lookup_insert_eq.
    - by rewrite lookup_insert_ne. }
  split_and!; [done..|].
  intros request tag Hu Hn. rewrite <- Hu, <- Hn in Hsize. split_and!.
  - intros recipe names. rewrite _get_and_create_tags_eq, for_each_cons.
    unfold tag_step at 1.
    by erewrite bind_Raise by (by apply Tag_objects_get_or_create_multiple).
  - intros validated_data recipe s' Hin Hrun.
    apply create_Ok in Hrun as (s2 & s3 & Hc & Ht & _).
    apply Recipe_objects_create_Ok in Hc as (_ & _ & -> & _ & _).
    destruct (_get_and_create_tags_Ok _ _ _ _ _ Ht tag Hin) as (_ & _ & _ & Hone).
    simpl in Hone. change (tags_matching (request_user request) (dict_name tag)
                             (set_recipes (insert (id recipe) recipe) s1))
      with (tags_matching (request_user request) (dict_name tag) s1) in Hone.
    lia.
  - intros instance validated_data recipe s' Hin Hrun.
    apply update_Ok in Hrun as (s2 & s3 & Ht & _).
    apply update_tags_run in Ht as [(E & _)|(l & E & Ht)];
      rewrite E in Hin; [by apply elem_of_nil in Hin|].
    destruct (_get_and_create_tags_Ok _ _ _ _ _ Ht tag Hin) as (_ & _ & _ & Hone).
    change (tags_matching (request_user request) (dict_name tag)
              (set_recipe_tags (filter (λ p, p.1 ≠ id instance)) s1))
      with (tags_matching (request_user request) (dict_name tag) s1) in Hone.
    lia.
Qed.

End TagRename.

(** ** Part XIV. The properties on example stores *)

Section ExampleStores.
Import Models Serializers.
Local Open Scope nat_scope.

Lemma referential_integrity_empty : referential_integrity empty_db.
Proof.
  split_and!.
  - by intros pk row.
  - split; [by intros pk t|]. by intros rid pk ?%not_elem_of_empty.
  - split; [by intros pk t|]. by intros rid pk ?%not_elem_of_empty.
Qed.

Lemma referential_integrity_one_user : referential_integrity one_user.
Proof.
  eapply account_step_referential; [|apply referential_integrity_empty].
  apply (create_user_step (H := demo_auth)).
Qed.

End ExampleStores.

Section StoreExamples.
Import Models Serializers.
Local Open Scope nat_scope.

(** The foreign keys hold in the empty store, so they hold after a
    sign-up and after a recipe is created. *)
Lemma writes_keep_referential_integrity_witness :
  referential_integrity one_user ∧ referential_integrity tagged_store.
Proof.
  split.
  - apply (@writes_keep_referential_integrity demo_auth cook_request
             (default_recipe 0 0) empty_data 0 (Some "cook@example.com"%string)
             (Some "pw"%string) [] empty_db referential_integrity_empty).
  - apply (@writes_keep_referential_integrity demo_auth cook_request
             (default_recipe 0 0)
             {| vd_tags := Some [named "veg"; named "vegan"];
                vd_ingredients := Some [named "salt"];
                vd_fields := [F_user 0] |}
             0 None None [] one_user referential_integrity_one_user).
Defined.

(** A recipe created with an Arabic title only. *)
Lemma create_row_witness :
  let validated_data :=
    {| vd_tags := None; vd_ingredients := None;
       vd_fields := [F_user 0; F_title_ar (Some "shurba"%string)] |} in
  let out := create cook_request validated_data one_user in
  ∃ recipe, out.1 = Ok recipe
    ∧ recipes out.2 !! 0 = Some recipe
    ∧ getattr recipe "title_ar" = Some (F_title_ar (Some "shurba"%string))
    ∧ getattr recipe "title_en" = Some (F_title_en None)
    ∧ getattr recipe "link_en" = Some (F_link_en EmptyString).
Proof.
  intros validated_data out.
  destruct out as [[recipe|e] s'] eqn:Hout; [|by vm_compute in Hout].
  exists recipe.
  destruct (create_row cook_request validated_data one_user s' recipe eq_refl Hout)
    as (_ & Hrow & owner & _ & _ & Hattr).
  assert (id recipe = 0) as Hid by (by vm_compute in Hout; injection Hout as <- _).
  rewrite Hid in Hrow, Hattr. split_and!.
  - done.
  - done.
  - apply (Hattr "title_ar"%string).
  - apply (Hattr "title_en"%string).
  - apply (Hattr "link_en"%string).
Defined.

(** The recipe of [tagged_store], as it was created. *)
Lemma create_links_witness :
  let validated_data :=
    {| vd_tags := Some [named "veg"]; vd_ingredients := None;
       vd_fields := [F_user 0] |} in
  let s' := (create cook_request validated_data one_user).2 in
  (∀ pk, pk ∈ tags_of 0 s' ↔
         ∃ tag, tag ∈ [named "veg"]
           ∧ tags s' !! pk = Some (tag_row 0 (dict_name tag)))
  ∧ ingredients_of 0 s' = ∅.
Proof.
  intros validated_data s'.
  destruct (create_links cook_request validated_data one_user s'
              (default_recipe 0 0) referential_integrity_one_user eq_refl)
    as (Ht & _ & _ & Hi).
  split; [apply Ht|by apply Hi].
Defined.

(** Updating the recipe of [two_veg_tags] with the tag [veg]: the call
    raises, and the two tags the recipe had are gone. *)
Lemma update_failure_witness :
  let validated_data :=
    {| vd_tags := Some [named "veg"]; vd_ingredients := None; vd_fields := [] |} in
  let out := update cook_request (default_recipe 0 0) validated_data two_veg_tags in
  out.1 = Raise MultipleObjectsReturned
  ∧ elements (tags_of 0 two_veg_tags) = [1; 0]
  ∧ elements (tags_of 0 out.2) = []
  ∧ recipes out.2 = recipes two_veg_tags.
Proof.
  intros validated_data out.
  destruct (update_failure cook_request (default_recipe 0 0) validated_data
              two_veg_tags out.2 MultipleObjectsReturned eq_refl) as (Hrec & _).
  split_and!; [reflexivity..|done].
Defined.

(** The update of [tagged_store] that replaces the recipe's tags by
    [hot], run twice. *)
Lemma update_idempotent_witness :
  let recipe := default_recipe 0 0 in
  let validated_data :=
    {| vd_tags := Some [named "hot"]; vd_ingredients := None; vd_fields := [] |} in
  let s' := (update cook_request recipe validated_data tagged_store).2 in
  update cook_request recipe validated_data tagged_store = (Ok recipe, s')
  ∧ update cook_request recipe validated_data s' = (Ok recipe, s').
Proof.
  intros recipe validated_data s'. split; [reflexivity|].
  apply (update_idempotent cook_request recipe validated_data tagged_store s'
           recipe eq_refl eq_refl).
Defined.

(** The empty payload, and one that repeats the stored (absent) title. *)
Lemma update_same_values_witness :
  let recipe := default_recipe 0 0 in
  update cook_request recipe empty_data tagged_store = (Ok recipe, tagged_store)
  ∧ update cook_request recipe
      {| vd_tags := None; vd_ingredients := None;
         vd_fields := [F_title_en None] |} tagged_store
    = (Ok recipe, tagged_store).
Proof.
  intros recipe. split.
  - apply update_same_values; [reflexivity| |done..|].
    + apply elem_of_dom. by eexists.
    + by intros fv ?%elem_of_nil.
  - apply update_same_values; [reflexivity| |done..|].
    + apply elem_of_dom. by eexists.
    + by intros fv ->%list_elem_of_singleton.
Defined.

(** Writing the Arabic title of the recipe of [tagged_store] leaves what
    an English request reads. *)
Lemma update_languages_apart_witness :
  let recipe := default_recipe 0 0 in
  let validated_data :=
    {| vd_tags := None; vd_ingredients := None;
       vd_fields := [F_title_ar (Some "shurba"%string)] |} in
  let out := update cook_request recipe validated_data tagged_store in
  ∃ r, out.1 = Ok r
    ∧ get_title cook_request r = get_title cook_request recipe
    ∧ get_title {| LANGUAGE_CODE := "ar"; request_user := 0 |} r
      = Some "shurba"%string.
Proof.
  intros recipe validated_data out.
  destruct out as [[r|e] s'] eqn:Hout; [|by vm_compute in Hout].
  exists r.
  destruct (update_languages_apart cook_request cook_request recipe validated_data
              tagged_store s' r Hout) as [Hen _].
  split_and!; [done| |by vm_compute in Hout; injection Hout as <- _].
  apply Hen; [|done].
  intros fv ->%list_elem_of_singleton. unfold en_attrs. simpl.
  rewrite !elem_of_cons. intros [?|[?|[?|[?|[?|?%elem_of_nil]]]]]; done.
Defined.

(** A creation with no [user] keyword argument, then one with it, whose
    request data try to name another owner. *)
Lemma serializer_owner_witness :
  let data : gmap string string := {[ "user"%string := "7"%string ]} in
  save (H := demo_validators) RecipeSerializer_fields cook_request None data []
    one_user
  = (Ran (Raise IntegrityError), one_user)
  ∧ ∃ r, (save (H := demo_validators) RecipeSerializer_fields cook_request None
            data [F_user 0] one_user).1 = Ran (Ok r)
         ∧ user r = 0.
Proof.
  intros data. split; [reflexivity|].
  destruct (save (H := demo_validators) RecipeSerializer_fields cook_request None
              data [F_user 0] one_user) as [[|[r|e]] s'] eqn:Hout;
    [by vm_compute in Hout| |by vm_compute in Hout].
  exists r. split; [done|].
  destruct (serializer_owner (H := demo_validators) RecipeSerializer_fields
              cook_request data [F_user 0] one_user) as (_ & Hcreate & _);
    [by left|].
  specialize (Hcreate r s' Hout). vm_compute in Hcreate. by injection Hcreate.
Defined.

(** A recipe created through [RecipeSerializer] from request data that
    carry a title. *)
Lemma created_recipe_reads_empty_witness :
  let data : gmap string string := {[ "title"%string := "Soup"%string ]} in
  ∃ r, (save (H := demo_validators) RecipeSerializer_fields cook_request None
          data [F_user 0] one_user).1 = Ran (Ok r)
       ∧ Recipe___str__ r = None
       ∧ get_title cook_request r = None.
Proof.
  intros data.
  destruct (save (H := demo_validators) RecipeSerializer_fields cook_request None
              data [F_user 0] one_user) as [[|[r|e]] s'] eqn:Hout;
    [by vm_compute in Hout| |by vm_compute in Hout].
  exists r. split; [done|].
  destruct (created_recipe_reads_empty (H := demo_validators)
              RecipeSerializer_fields cook_request cook_request data [F_user 0]
              one_user s' r) as (Hstr & Htitle & _); [by left| |done|done].
  intros fv ->%list_elem_of_singleton. unfold locale_attrs. simpl.
  rewrite !elem_of_cons.
  intros [?|[?|[?|[?|[?|[?|[?|[?|[?|[?|?%elem_of_nil]]]]]]]]]]; done.
Defined.

(** The renaming that makes [two_veg_tags]: tag 1, [vegan], becomes [veg]
    beside tag 0. *)
Lemma tag_rename_duplicates_witness :
  2 ≤ size (tags_matching 0 "veg" two_veg_tags)
  ∧ _get_and_create_tags cook_request [named "veg"] (default_recipe 0 0)
      two_veg_tags
    = (Raise MultipleObjectsReturned, two_veg_tags).
Proof.
  destruct (tag_rename_duplicates 1 0 {| tag_name := "vegan"; tag_user := 0 |}
              "veg"
              (create cook_request
                 {| vd_tags := Some [named "veg"; named "vegan"];
                    vd_ingredients := None; vd_fields := [F_user 0] |}
                 one_user).2) as (_ & Hsize & Hraise);
    [done|reflexivity|reflexivity|].
  split; [apply Hsize|].
  destruct (Hraise cook_request (named "veg") eq_refl eq_refl) as (Hloop & _).
  apply (Hloop (default_recipe 0 0) []).
Defined.

End StoreExamples.

Section ReturnExamples.
Import Models Serializers.
Local Open Scope nat_scope.

Lemma referential_integrity_tagged_store : referential_integrity tagged_store.
Proof. apply create_referential, referential_integrity_one_user. Qed.

(** On the store with one user: the recipe tagged [veg], [veg] is
    created; a recipe with no owner is not. *)
Lemma create_returns_iff_witness :
  (∃ recipe s', create cook_request veg_recipe one_user = (Ok recipe, s'))
  ∧ ¬ (∃ recipe s',
         create cook_request
           {| vd_tags := None; vd_ingredients := None; vd_fields := [] |}
           one_user = (Ok recipe, s')).
Proof.
  split.
  - apply (create_returns_iff cook_request veg_recipe one_user
             referential_integrity_one_user eq_refl).
    split_and!.
    + exists 0. split; [reflexivity|]. apply elem_of_dom. by eexists.
    + intros _. apply elem_of_dom. by eexists.
    + intros tag _. apply Nat.le_0_l.
    + intros ingredient _. apply Nat.le_0_l.
  - intros Hrun.
    apply (create_returns_iff cook_request
             {| vd_tags := None; vd_ingredients := None; vd_fields := [] |}
             one_user referential_integrity_one_user eq_refl) in Hrun
      as ((u & Hlook & _) & _).
    discriminate Hlook.
Defined.

(** On [tagged_store]: the recipe's tags are replaced by [hot]; an update
    that hands the recipe to a user who is not there fails. *)
Lemma update_returns_iff_witness :
  (∃ r s', update cook_request (default_recipe 0 0)
             {| vd_tags := Some [named "hot"]; vd_ingredients := None;
                vd_fields := [] |} tagged_store = (Ok r, s'))
  ∧ ¬ (∃ r s', update cook_request (default_recipe 0 0)
                 {| vd_tags := None; vd_ingredients := None;
                    vd_fields := [F_user 7] |} tagged_store = (Ok r, s')).
Proof.
  split.
  - apply (update_returns_iff cook_request (default_recipe 0 0)
             {| vd_tags := Some [named "hot"]; vd_ingredients := None;
                vd_fields := [] |} tagged_store
             referential_integrity_tagged_store eq_refl eq_refl).
    split_and!.
    + apply elem_of_dom. by eexists.
    + intros _. split; apply elem_of_dom; by eexists.
    + intros tag ->%list_elem_of_singleton. vm_compute. lia.
    + by intros ingredient ?%elem_of_nil.
  - intros Hrun.
    apply (update_returns_iff cook_request (default_recipe 0 0)
             {| vd_tags := None; vd_ingredients := None;
                vd_fields := [F_user 7] |} tagged_store
             referential_integrity_tagged_store eq_refl eq_refl) in Hrun
      as (Hu & _).
    apply elem_of_dom in Hu as [u Hu]. by vm_compute in Hu.
Defined.

(** [veg] listed twice, and once. *)
Lemma get_and_create_repeated_name_witness :
  let s := (Recipe_objects_create [F_user 0] one_user).2 in
  _get_and_create_tags cook_request [named "veg"; named "veg"]
    (default_recipe 0 0) s
  = _get_and_create_tags cook_request [named "veg"] (default_recipe 0 0) s.
Proof.
  intros s.
  apply (get_and_create_repeated_name cook_request (default_recipe 0 0)
           [named "veg"] [] (named "veg") s).
  apply list_elem_of_here.
Defined.

End ReturnExamples.
